(** * The merge engine of the credential database (core/Merger.cpp)

    A shallow embedding of [Merger] over an explicit object heap.  Entries,
    groups and databases are heap objects addressed by pointers; a null
    pointer is [None]; dereferencing a null or dangling pointer is the
    result [Fault].  The functions of core/Merger.cpp and core/TimeInfo.cpp
    are translated line by line into a state-and-error monad over that heap.
    The classes the merger only calls ([Entry], [Group], [Database],
    [Metadata], [Clock], [compare]) are modelled from the specification. *)

From Stdlib Require Import ZArith Lia Sorted.
From stdpp Require Import base option gmap strings numbers list.

Local Open Scope Z_scope.

(** ** Basic data *)

Abbreviation Ptr := positive.
Abbreviation Uuid := N.
(** A [QDateTime] in UTC, as milliseconds since the epoch. *)
Abbreviation QDateTime := Z.
Abbreviation QImage := (list Z).

(** Modelled from the spec: [Clock::serialized] (core/Clock.cpp is absent),
    "timestamps truncated to the second for comparison". *)
Definition Clock_serialized (t : QDateTime) : QDateTime := 1000 * (t / 1000).

(** Modelled from the spec: [Clock::normalize] (core/Clock.cpp is absent),
    the precision called [Serialized] in TimeInfo.h. *)
Definition Clock_normalize (t : QDateTime) : QDateTime := Clock_serialized t.

(** ** core/Compare.h (absent): comparison options

    Modelled from the spec: the option flags of core/Compare.h, a bit mask
    combined with [|]. *)
Abbreviation CompareOptions := Z.
Definition CompareDefault : CompareOptions := 0.
Definition CompareItemIgnoreMilliseconds : CompareOptions := 4.
Definition CompareItemIgnoreStatistics : CompareOptions := 8.
Definition CompareItemIgnoreHistory : CompareOptions := 32.
Definition CompareItemIgnoreLocation : CompareOptions := 64.
Definition CompareRepresentsStatistic : CompareOptions := 128.

Definition testFlag (options flag : CompareOptions) : bool :=
  negb (Z.land options flag =? 0).

(** Modelled from the spec: [::compare] of core/Compare.h, a three-way
    comparison; the result is negative, zero or positive. *)
Definition compareGeneric (lhs rhs : Z) : Z :=
  if lhs =? rhs then 0 else if lhs <? rhs then -1 else 1.

(** Modelled from the spec: values that represent statistics are skipped
    when statistics are ignored. *)
Definition compare_int (lhs rhs : Z) (options : CompareOptions) : Z :=
  if testFlag options CompareRepresentsStatistic
     && testFlag options CompareItemIgnoreStatistics
  then 0 else compareGeneric lhs rhs.

(** Modelled from the spec: the "relaxed comparison (ignoring millisecond
    drift)" of two timestamps. *)
Definition compare_QDateTime (lhs rhs : QDateTime) (options : CompareOptions) : Z :=
  if testFlag options CompareRepresentsStatistic
     && testFlag options CompareItemIgnoreStatistics
  then 0
  else if testFlag options CompareItemIgnoreMilliseconds
  then compareGeneric (Clock_serialized lhs) (Clock_serialized rhs)
  else compareGeneric lhs rhs.

(** Modelled from the spec: [::compare] of core/Compare.h on two values that
    a flag each enables, as [TimeInfo::equals] calls it on the expiry times
    (TimeInfo.cpp 126).  The spec names [expires] and [expiry] as fields of
    a [TimeInfo] and has no words on this overload: that two enabled values
    are compared as timestamps is taken from the call; how a side that is
    not enabled compares is this model's choice (the flags decide, and the
    values are not looked at), and the statements about [TimeInfo::equals]
    that speak of the expiry time are made for values that expire. *)
Definition compare_enabled (enabled : bool) (lhs : QDateTime)
    (otherEnabled : bool) (rhs : QDateTime) (options : CompareOptions) : Z :=
  match enabled, otherEnabled with
  | false, false => 0
  | true, false => -1
  | false, true => 1
  | true, true => compare_QDateTime lhs rhs options
  end.

(** ** core/TimeInfo.h, core/TimeInfo.cpp *)

Inductive Precision := High | Serialized.

Record TimeInfo := mkTimeInfo {
  m_lastModificationTime : QDateTime;
  m_creationTime : QDateTime;
  m_lastAccessTime : QDateTime;
  m_expiryTime : QDateTime;
  m_expires : bool;
  m_usageCount : Z;
  m_locationChanged : QDateTime
}.

Global Instance TimeInfo_eq_dec : EqDecision TimeInfo.
Proof. solve_decision. Defined.

(** [TimeInfo::TimeInfo()] at clock reading [now]. *)
Definition TimeInfo_new (now : QDateTime) : TimeInfo :=
  mkTimeInfo now now now now false 0 now.

Definition atPrecision (precision : Precision) (t : QDateTime) : QDateTime :=
  match precision with High => t | Serialized => Clock_normalize t end.

Definition lastModificationTime (ti : TimeInfo) (precision : Precision) :=
  atPrecision precision (m_lastModificationTime ti).
Definition creationTime (ti : TimeInfo) (precision : Precision) :=
  atPrecision precision (m_creationTime ti).
Definition lastAccessTime (ti : TimeInfo) (precision : Precision) :=
  atPrecision precision (m_lastAccessTime ti).
Definition expiryTime (ti : TimeInfo) (precision : Precision) :=
  atPrecision precision (m_expiryTime ti).
Definition locationChanged (ti : TimeInfo) (precision : Precision) :=
  atPrecision precision (m_locationChanged ti).

Definition setLastModificationTime (t : QDateTime) (ti : TimeInfo) : TimeInfo :=
  mkTimeInfo t (m_creationTime ti) (m_lastAccessTime ti) (m_expiryTime ti)
             (m_expires ti) (m_usageCount ti) (m_locationChanged ti).
Definition setLastAccessTime (t : QDateTime) (ti : TimeInfo) : TimeInfo :=
  mkTimeInfo (m_lastModificationTime ti) (m_creationTime ti) t (m_expiryTime ti)
             (m_expires ti) (m_usageCount ti) (m_locationChanged ti).
Definition setExpiryTime (t : QDateTime) (ti : TimeInfo) : TimeInfo :=
  mkTimeInfo (m_lastModificationTime ti) (m_creationTime ti) (m_lastAccessTime ti) t
             (m_expires ti) (m_usageCount ti) (m_locationChanged ti).
Definition setLocationChanged (t : QDateTime) (ti : TimeInfo) : TimeInfo :=
  mkTimeInfo (m_lastModificationTime ti) (m_creationTime ti) (m_lastAccessTime ti)
             (m_expiryTime ti) (m_expires ti) (m_usageCount ti) t.
Definition setCreationTime (t : QDateTime) (ti : TimeInfo) : TimeInfo :=
  mkTimeInfo (m_lastModificationTime ti) t (m_lastAccessTime ti) (m_expiryTime ti)
             (m_expires ti) (m_usageCount ti) (m_locationChanged ti).
Definition setExpires (expires : bool) (ti : TimeInfo) : TimeInfo :=
  mkTimeInfo (m_lastModificationTime ti) (m_creationTime ti) (m_lastAccessTime ti)
             (m_expiryTime ti) expires (m_usageCount ti) (m_locationChanged ti).

Definition expires (ti : TimeInfo) : bool := m_expires ti.
Definition usageCount (ti : TimeInfo) : Z := m_usageCount ti.

(** [TimeInfo::equals]. *)
Definition TimeInfo_equals (this other : TimeInfo) (options : CompareOptions) : bool :=
  if negb (compare_QDateTime (m_lastModificationTime this)
             (m_lastModificationTime other) options =? 0) then false
  else if negb (compare_QDateTime (m_creationTime this)
                  (m_creationTime other) options =? 0) then false
  else if negb (compare_QDateTime (m_lastAccessTime this) (m_lastAccessTime other)
                  (Z.lor options CompareRepresentsStatistic) =? 0) then false
  else if negb (compare_enabled (m_expires this) (m_expiryTime this)
                  (m_expires other) (expiryTime other High) options =? 0) then false
  else if negb (compare_int (m_usageCount this) (m_usageCount other)
                  (Z.lor options CompareRepresentsStatistic) =? 0) then false
  else if negb (compare_QDateTime (m_locationChanged this)
                  (m_locationChanged other) options =? 0) then false
  else true.

(** [TimeInfo::operator==]. *)
Definition TimeInfo_eqb (this other : TimeInfo) : bool :=
  TimeInfo_equals this other CompareDefault.

(** [TimeInfo::operator!=]. *)
Definition TimeInfo_neqb (this other : TimeInfo) : bool :=
  negb (TimeInfo_eqb this other).

(** ** Heap objects

    Modelled from the spec: the data model of [Entry], [Group], [Database]
    and [Metadata] (core/Entry.h, core/Group.h, core/Database.h and
    core/Metadata.h are absent). *)

(** A history item is an entry-shaped snapshot with no parent and no nested
    history; history items are held by value. *)
Record HistoryItem := mkHistoryItem {
  hi_uuid : Uuid;
  hi_attributes : gmap string string;
  hi_timeInfo : TimeInfo
}.

Global Instance HistoryItem_eq_dec : EqDecision HistoryItem.
Proof. solve_decision. Defined.

Record Entry := mkEntry {
  e_uuid : Uuid;
  e_attributes : gmap string string;
  e_timeInfo : TimeInfo;
  e_history : list HistoryItem;
  e_group : option Ptr;
  e_updateTimeinfo : bool;
  e_signalsBlocked : bool
}.

Global Instance Entry_eq_dec : EqDecision Entry.
Proof. solve_decision. Defined.

Inductive MergeMode := Inherit | KeepBoth | KeepNewer | KeepExisting | Synchronize.

Global Instance MergeMode_eq_dec : EqDecision MergeMode.
Proof. solve_decision. Defined.

Record Group := mkGroup {
  g_uuid : Uuid;
  g_name : string;
  g_notes : string;
  g_iconNumber : Z;
  g_iconUuid : Uuid;
  g_timeInfo : TimeInfo;
  g_mergeMode : MergeMode;
  g_parent : option Ptr;
  g_db : option Ptr;
  g_entries : list Ptr;
  g_children : list Ptr;
  g_updateTimeinfo : bool
}.

Global Instance Group_eq_dec : EqDecision Group.
Proof. solve_decision. Defined.

Record DeletedObject := mkDeletedObject {
  uuid : Uuid;
  deletionTime : QDateTime
}.

Global Instance DeletedObject_eq_dec : EqDecision DeletedObject.
Proof. solve_decision. Defined.

Record Metadata := mkMetadata {
  md_name : string;
  md_historyMaxItems : Z;
  md_customIcons : gmap Uuid QImage
}.

Record Database := mkDatabase {
  db_rootGroup : Ptr;
  db_deletedObjects : list DeletedObject;
  db_metadata : Metadata;
  db_modified : bool
}.

Record Heap := mkHeap {
  h_entries : gmap Ptr Entry;
  h_groups : gmap Ptr Group;
  h_dbs : gmap Ptr Database;
  h_next : Ptr;          (* the next address [new] hands out *)
  h_now : QDateTime;     (* the reading of [Clock::currentDateTimeUtc] *)
  h_uuidSeed : Uuid      (* the next value of [Uuid::random] *)
}.

(** Field updates. *)
Definition Entry_withTimeInfo (ti : TimeInfo) (e : Entry) : Entry :=
  mkEntry (e_uuid e) (e_attributes e) ti (e_history e) (e_group e)
          (e_updateTimeinfo e) (e_signalsBlocked e).
Definition Entry_withAttributes (a : gmap string string) (e : Entry) : Entry :=
  mkEntry (e_uuid e) a (e_timeInfo e) (e_history e) (e_group e)
          (e_updateTimeinfo e) (e_signalsBlocked e).
Definition Entry_withHistory (l : list HistoryItem) (e : Entry) : Entry :=
  mkEntry (e_uuid e) (e_attributes e) (e_timeInfo e) l (e_group e)
          (e_updateTimeinfo e) (e_signalsBlocked e).
Definition Entry_withGroup (g : option Ptr) (e : Entry) : Entry :=
  mkEntry (e_uuid e) (e_attributes e) (e_timeInfo e) (e_history e) g
          (e_updateTimeinfo e) (e_signalsBlocked e).
Definition Entry_withUpdateTimeinfo (b : bool) (e : Entry) : Entry :=
  mkEntry (e_uuid e) (e_attributes e) (e_timeInfo e) (e_history e) (e_group e)
          b (e_signalsBlocked e).
Definition Entry_withSignalsBlocked (b : bool) (e : Entry) : Entry :=
  mkEntry (e_uuid e) (e_attributes e) (e_timeInfo e) (e_history e) (e_group e)
          (e_updateTimeinfo e) b.

Definition Group_withName (n : string) (g : Group) : Group :=
  mkGroup (g_uuid g) n (g_notes g) (g_iconNumber g) (g_iconUuid g) (g_timeInfo g)
          (g_mergeMode g) (g_parent g) (g_db g) (g_entries g) (g_children g)
          (g_updateTimeinfo g).
Definition Group_withNotes (n : string) (g : Group) : Group :=
  mkGroup (g_uuid g) (g_name g) n (g_iconNumber g) (g_iconUuid g) (g_timeInfo g)
          (g_mergeMode g) (g_parent g) (g_db g) (g_entries g) (g_children g)
          (g_updateTimeinfo g).
Definition Group_withIcon (number : Z) (icon : Uuid) (g : Group) : Group :=
  mkGroup (g_uuid g) (g_name g) (g_notes g) number icon (g_timeInfo g)
          (g_mergeMode g) (g_parent g) (g_db g) (g_entries g) (g_children g)
          (g_updateTimeinfo g).
Definition Group_withTimeInfo (ti : TimeInfo) (g : Group) : Group :=
  mkGroup (g_uuid g) (g_name g) (g_notes g) (g_iconNumber g) (g_iconUuid g) ti
          (g_mergeMode g) (g_parent g) (g_db g) (g_entries g) (g_children g)
          (g_updateTimeinfo g).
Definition Group_withParent (p db : option Ptr) (g : Group) : Group :=
  mkGroup (g_uuid g) (g_name g) (g_notes g) (g_iconNumber g) (g_iconUuid g)
          (g_timeInfo g) (g_mergeMode g) p db (g_entries g) (g_children g)
          (g_updateTimeinfo g).
Definition Group_withEntries (l : list Ptr) (g : Group) : Group :=
  mkGroup (g_uuid g) (g_name g) (g_notes g) (g_iconNumber g) (g_iconUuid g)
          (g_timeInfo g) (g_mergeMode g) (g_parent g) (g_db g) l (g_children g)
          (g_updateTimeinfo g).
Definition Group_withChildren (l : list Ptr) (g : Group) : Group :=
  mkGroup (g_uuid g) (g_name g) (g_notes g) (g_iconNumber g) (g_iconUuid g)
          (g_timeInfo g) (g_mergeMode g) (g_parent g) (g_db g) (g_entries g) l
          (g_updateTimeinfo g).
Definition Group_withUpdateTimeinfo (b : bool) (g : Group) : Group :=
  mkGroup (g_uuid g) (g_name g) (g_notes g) (g_iconNumber g) (g_iconUuid g)
          (g_timeInfo g) (g_mergeMode g) (g_parent g) (g_db g) (g_entries g)
          (g_children g) b.

Definition Database_withDeletedObjects (l : list DeletedObject) (d : Database) :=
  mkDatabase (db_rootGroup d) l (db_metadata d) (db_modified d).
Definition Database_withMetadata (m : Metadata) (d : Database) :=
  mkDatabase (db_rootGroup d) (db_deletedObjects d) m (db_modified d).
Definition Database_withModified (b : bool) (d : Database) :=
  mkDatabase (db_rootGroup d) (db_deletedObjects d) (db_metadata d) b.

Definition Heap_withEntries (m : gmap Ptr Entry) (h : Heap) : Heap :=
  mkHeap m (h_groups h) (h_dbs h) (h_next h) (h_now h) (h_uuidSeed h).
Definition Heap_withGroups (m : gmap Ptr Group) (h : Heap) : Heap :=
  mkHeap (h_entries h) m (h_dbs h) (h_next h) (h_now h) (h_uuidSeed h).
Definition Heap_withDbs (m : gmap Ptr Database) (h : Heap) : Heap :=
  mkHeap (h_entries h) (h_groups h) m (h_next h) (h_now h) (h_uuidSeed h).

(** ** The monad of heap computations *)

Inductive Res (A : Type) : Type :=
| Ok (a : A)
| Fault        (* a null or dangling pointer is dereferenced *)
| OutOfFuel.   (* a traversal or loop exceeded its bound *)
Arguments Ok {A} a.
Arguments Fault {A}.
Arguments OutOfFuel {A}.

Global Instance Res_ret : MRet Res := λ A a, Ok a.
Global Instance Res_bind : MBind Res := λ A B f r,
  match r with Ok a => f a | Fault => Fault | OutOfFuel => OutOfFuel end.

Definition M (A : Type) : Type := Heap → Res (A * Heap).

Global Instance M_ret : MRet M := λ A a h, Ok (a, h).
Global Instance M_bind : MBind M := λ A B f m h,
  match m h with
  | Ok (a, h') => f a h'
  | Fault => Fault
  | OutOfFuel => OutOfFuel
  end.

Definition fault {A} : M A := λ _, Fault.
Definition outOfFuel {A} : M A := λ _, OutOfFuel.
Definition getHeap : M Heap := λ h, Ok (h, h).
Definition modifyHeap (f : Heap → Heap) : M unit := λ h, Ok (tt, f h).
(** Run a computation that only reads the heap. *)
Definition readHeap {A} (f : Heap → Res A) : M A := λ h,
  match f h with Ok a => Ok (a, h) | Fault => Fault | OutOfFuel => OutOfFuel end.

(** [*p] for a pointer that may be null. *)
Definition deref {A} (p : option A) : M A :=
  match p with Some a => mret a | None => fault end.

Definition lookupEntry (h : Heap) (p : Ptr) : Res Entry :=
  match h_entries h !! p with Some e => Ok e | None => Fault end.
Definition lookupGroup (h : Heap) (p : Ptr) : Res Group :=
  match h_groups h !! p with Some g => Ok g | None => Fault end.
Definition lookupDb (h : Heap) (p : Ptr) : Res Database :=
  match h_dbs h !! p with Some d => Ok d | None => Fault end.

Definition getEntry (p : Ptr) : M Entry := readHeap (λ h, lookupEntry h p).
Definition getGroup (p : Ptr) : M Group := readHeap (λ h, lookupGroup h p).
Definition getDb (p : Ptr) : M Database := readHeap (λ h, lookupDb h p).

Definition putEntry (p : Ptr) (e : Entry) : M unit :=
  modifyHeap (λ h, Heap_withEntries (<[p:=e]> (h_entries h)) h).
Definition putGroup (p : Ptr) (g : Group) : M unit :=
  modifyHeap (λ h, Heap_withGroups (<[p:=g]> (h_groups h)) h).
Definition putDb (p : Ptr) (d : Database) : M unit :=
  modifyHeap (λ h, Heap_withDbs (<[p:=d]> (h_dbs h)) h).

Definition modifyEntry (p : Ptr) (f : Entry → Entry) : M unit :=
  e ← getEntry p; putEntry p (f e).
Definition modifyGroup (p : Ptr) (f : Group → Group) : M unit :=
  g ← getGroup p; putGroup p (f g).
Definition modifyDb (p : Ptr) (f : Database → Database) : M unit :=
  d ← getDb p; putDb p (f d).

(** [new]: the next free address. *)
Definition alloc : M Ptr := λ h,
  Ok (h_next h, mkHeap (h_entries h) (h_groups h) (h_dbs h)
                       (Pos.succ (h_next h)) (h_now h) (h_uuidSeed h)).

(** Modelled from the spec: [Clock::currentDateTimeUtc]. *)
Definition Clock_currentDateTimeUtc : M QDateTime := λ h, Ok (h_now h, h).

(** Modelled from the spec: [Uuid::random], a fresh UUID. *)
Definition Uuid_random : M Uuid := λ h,
  Ok (h_uuidSeed h, mkHeap (h_entries h) (h_groups h) (h_dbs h) (h_next h)
                           (h_now h) (N.succ (h_uuidSeed h))).

Fixpoint mapM {A B} (f : A → M B) (l : list A) : M (list B) :=
  match l with
  | [] => mret []
  | x :: l' => y ← f x; ys ← mapM f l'; mret (y :: ys)
  end.

Fixpoint forM_ {A} (l : list A) (f : A → M unit) : M unit :=
  match l with
  | [] => mret tt
  | x :: l' => f x;; forM_ l' f
  end.

(** ** The object interface the merger calls

    core/Entry.cpp, core/Group.cpp, core/Database.cpp and core/Metadata.cpp
    are absent; every definition of this part is modelled from the
    specification's data model and its description of the implicit
    bookkeeping: "touch timestamps on modification" and "on delete, record a
    tombstone". *)

(** Modelled from the spec: the slot behind "auto-update timestamp on
    mutation" of an entry (core/Entry.cpp is absent). *)
Definition Entry_updateTimeinfo (now : QDateTime) (e : Entry) : Entry :=
  if e_updateTimeinfo e
  then Entry_withTimeInfo
         (setLastAccessTime now (setLastModificationTime now (e_timeInfo e))) e
  else e.

(** Modelled from the spec: the change notification of an entry; it reaches
    the timestamp slot unless the "change-notification surface" is
    suspended. *)
Definition Entry_emitModified (now : QDateTime) (e : Entry) : Entry :=
  if e_signalsBlocked e then e else Entry_updateTimeinfo now e.

(** Modelled from the spec: "auto-update timestamp on mutation" of a group
    (core/Group.cpp is absent). *)
Definition Group_emitModified (now : QDateTime) (g : Group) : Group :=
  if g_updateTimeinfo g
  then Group_withTimeInfo
         (setLastAccessTime now (setLastModificationTime now (g_timeInfo g))) g
  else g.

Definition Entry_touch (p : Ptr) : M unit :=
  now ← Clock_currentDateTimeUtc; modifyEntry p (Entry_emitModified now).
Definition Group_touch (p : Ptr) : M unit :=
  now ← Clock_currentDateTimeUtc; modifyGroup p (Group_emitModified now).

(** Modelled from the spec: [Group::canUpdateTimeinfo],
    [Group::setUpdateTimeinfo] and their [Entry] counterparts. *)
Definition Group_canUpdateTimeinfo (p : Ptr) : M bool :=
  g ← getGroup p; mret (g_updateTimeinfo g).
Definition Group_setUpdateTimeinfo (p : Ptr) (value : bool) : M unit :=
  modifyGroup p (Group_withUpdateTimeinfo value).
Definition Entry_canUpdateTimeinfo (p : Ptr) : M bool :=
  e ← getEntry p; mret (e_updateTimeinfo e).
Definition Entry_setUpdateTimeinfo (p : Ptr) (value : bool) : M unit :=
  modifyEntry p (Entry_withUpdateTimeinfo value).

(** Modelled from the spec: [QObject::blockSignals], which returns the
    previous value. *)
Definition Entry_blockSignals (p : Ptr) (block : bool) : M bool :=
  e ← getEntry p; putEntry p (Entry_withSignalsBlocked block e);;
  mret (e_signalsBlocked e).

(** Modelled from the spec: [Entry::database], the database of the parent
    group, null for a detached entry. *)
Definition Group_database (p : Ptr) : M (option Ptr) :=
  g ← getGroup p; mret (g_db g).
Definition Entry_database (p : Ptr) : M (option Ptr) :=
  e ← getEntry p;
  match e_group e with
  | Some g => Group_database g
  | None => mret None
  end.

(** Modelled from the spec: [Entry::title], the attribute "Title". *)
Definition Entry_title (e : Entry) : string :=
  default EmptyString (e_attributes e !! "Title"%string).

(** Modelled from the spec: [EntryAttributes::set] through
    [Entry::attributes]; a mutation of the entry. *)
Definition Entry_setAttribute (p : Ptr) (key value : string) : M unit :=
  modifyEntry p (λ e, Entry_withAttributes (<[key:=value]> (e_attributes e)) e);;
  Entry_touch p.

(** Modelled from the spec: [Group::addEntry] and [Group::removeEntry] keep
    the ordered list of child entries; both are mutations of the group. *)
Definition Group_addEntry (g e : Ptr) : M unit :=
  modifyGroup g (λ G, Group_withEntries (g_entries G ++ [e]) G);;
  Group_touch g.
Definition Group_removeEntry (g e : Ptr) : M unit :=
  modifyGroup g (λ G, Group_withEntries
                        (filter (λ x, x ≠ e) (g_entries G)) G);;
  Group_touch g.

(** Modelled from the spec: [Entry::setGroup] attaches the entry under
    [group]; "moving an object updates [location_changed]" unless the
    entry's timestamp bookkeeping is suspended. *)
Definition Entry_setGroup (e : Ptr) (group : option Ptr) : M unit :=
  g ← deref group;
  E ← getEntry e;
  if decide (e_group E = Some g) then mret tt
  else
    match e_group E with
    | Some old => Group_removeEntry old e
    | None => mret tt
    end;;
    modifyEntry e (Entry_withGroup (Some g));;
    Group_addEntry g e;;
    now ← Clock_currentDateTimeUtc;
    modifyEntry e (λ E, if e_updateTimeinfo E
                        then Entry_withTimeInfo
                               (setLocationChanged now (e_timeInfo E)) E
                        else E).

(** Modelled from the spec: [Group::setParent] attaches the group under
    [parent], in the parent's database; the old parent, the new parent and
    the moved group are the affected objects. *)
Definition Group_setParent (g : Ptr) (parent : option Ptr) : M unit :=
  p ← deref parent;
  G ← getGroup g;
  if decide (g_parent G = Some p) then mret tt
  else
    match g_parent G with
    | Some old =>
        modifyGroup old (λ O, Group_withChildren
                                (filter (λ x, x ≠ g) (g_children O)) O);;
        Group_touch old
    | None => mret tt
    end;;
    P ← getGroup p;
    modifyGroup g (Group_withParent (Some p) (g_db P));;
    modifyGroup p (λ P, Group_withChildren (g_children P ++ [g]) P);;
    Group_touch p;;
    now ← Clock_currentDateTimeUtc;
    modifyGroup g (λ G, if g_updateTimeinfo G
                        then Group_withTimeInfo
                               (setLocationChanged now (g_timeInfo G)) G
                        else G);;
    Group_touch g.

(** Modelled from the spec: the clone flags of core/Entry.h. *)
Definition CloneNoFlags : Z := 0.
Definition CloneNewUuid : Z := 1.
Definition CloneIncludeHistory : Z := 4.

(** Modelled from the spec: [Entry::clone], a detached deep copy; the
    history is copied when [CloneIncludeHistory] is set, the UUID is fresh
    when [CloneNewUuid] is set. *)
Definition Entry_clone (e : Ptr) (flags : Z) : M Ptr :=
  E ← getEntry e;
  id ← (if testFlag flags CloneNewUuid then Uuid_random else mret (e_uuid E));
  p ← alloc;
  putEntry p (mkEntry id (e_attributes E) (e_timeInfo E)
                (if testFlag flags CloneIncludeHistory
                 then map (λ i, mkHistoryItem id (hi_attributes i) (hi_timeInfo i))
                          (e_history E)
                 else [])
                None true false);;
  mret p.

(** The snapshot of an entry that serves as a history item:
    [entry->clone(Entry::CloneNoFlags)] held by value. *)
Definition Entry_snapshot (E : Entry) : HistoryItem :=
  mkHistoryItem (e_uuid E) (e_attributes E) (e_timeInfo E).

(** Modelled from the spec: [Group::clone] with [Group::CloneNoFlags], "the
    group without entries and without children (structural shell only)". *)
Definition Group_clone (g : Ptr) : M Ptr :=
  G ← getGroup g;
  p ← alloc;
  putGroup p (mkGroup (g_uuid G) (g_name G) (g_notes G) (g_iconNumber G)
                (g_iconUuid G) (g_timeInfo G) (g_mergeMode G)
                None None [] [] true);;
  mret p.

(** Modelled from the spec: [Database::addDeletedObject], the tombstone
    "(uuid, deletion_time)" at the current time. *)
Definition Database_addDeletedObject (db : Ptr) (id : Uuid) : M unit :=
  now ← Clock_currentDateTimeUtc;
  modifyDb db (λ d, Database_withDeletedObjects
                      (db_deletedObjects d ++ [mkDeletedObject id now]) d).

Definition Database_deletedObjects (db : Ptr) : M (list DeletedObject) :=
  d ← getDb db; mret (db_deletedObjects d).
Definition Database_setDeletedObjects (db : Ptr) (l : list DeletedObject) : M unit :=
  modifyDb db (Database_withDeletedObjects l).
Definition Database_markAsModified (db : Ptr) : M unit :=
  modifyDb db (Database_withModified true).
Definition Database_rootGroup (db : Ptr) : M Ptr :=
  d ← getDb db; mret (db_rootGroup d).
Definition Database_metadata (db : Ptr) : M Metadata :=
  d ← getDb db; mret (db_metadata d).

(** Modelled from the spec: [delete entry]; the entry leaves its group and,
    by the default behaviour "delete also emits a tombstone", its database
    records one. *)
Definition Entry_delete (e : Ptr) : M unit :=
  E ← getEntry e;
  match e_group E with
  | Some g =>
      Group_removeEntry g e;;
      db ← Group_database g;
      match db with
      | Some d => Database_addDeletedObject d (e_uuid E)
      | None => mret tt
      end
  | None => mret tt
  end;;
  modifyHeap (λ h, Heap_withEntries (delete e (h_entries h)) h).

(** Modelled from the spec: [delete group]; the group's entries and child
    groups are destroyed with it, each recording its tombstone. *)
Fixpoint Group_delete (fuel : nat) (g : Ptr) : M unit :=
  match fuel with
  | O => outOfFuel
  | S n =>
      G ← getGroup g;
      forM_ (g_entries G) Entry_delete;;
      forM_ (g_children G) (Group_delete n);;
      match g_db G, g_parent G with
      | Some d, Some _ => Database_addDeletedObject d (g_uuid G)
      | _, _ => mret tt
      end;;
      match g_parent G with
      | Some p =>
          modifyGroup p (λ P, Group_withChildren
                                (filter (λ x, x ≠ g) (g_children P)) P);;
          Group_touch p
      | None => mret tt
      end;;
      modifyHeap (λ h, Heap_withGroups (delete g (h_groups h)) h)
  end.

(** Modelled from the spec: the setters [resolveGroupConflict] calls; a
    setter that changes the value is a mutation of the group.  The icon is
    "either a numeric built-in index or a UUID reference", the null UUID
    being [0]. *)
Definition Group_setName (p : Ptr) (name : string) : M unit :=
  G ← getGroup p;
  if decide (g_name G = name) then mret tt
  else putGroup p (Group_withName name G);; Group_touch p.
Definition Group_setNotes (p : Ptr) (notes : string) : M unit :=
  G ← getGroup p;
  if decide (g_notes G = notes) then mret tt
  else putGroup p (Group_withNotes notes G);; Group_touch p.
Definition Group_setIconNumber (p : Ptr) (iconNumber : Z) : M unit :=
  G ← getGroup p;
  if (0 <=? iconNumber)
     && (negb (g_iconNumber G =? iconNumber) || negb (g_iconUuid G =? 0)%N)
  then putGroup p (Group_withIcon iconNumber 0%N G);; Group_touch p
  else mret tt.
Definition Group_setIconUuid (p : Ptr) (icon : Uuid) : M unit :=
  G ← getGroup p;
  if negb (icon =? 0)%N && negb (g_iconUuid G =? icon)%N
  then putGroup p (Group_withIcon 0 icon G);; Group_touch p
  else mret tt.
Definition Group_setExpiryTime (p : Ptr) (t : QDateTime) : M unit :=
  G ← getGroup p;
  if decide (expiryTime (g_timeInfo G) High = t) then mret tt
  else Group_touch p;;
       modifyGroup p (λ G, Group_withTimeInfo (setExpiryTime t (g_timeInfo G)) G).
Definition Group_setTimeInfo (p : Ptr) (ti : TimeInfo) : M unit :=
  modifyGroup p (Group_withTimeInfo ti).

(** Modelled from the spec: the history interface of [Entry]; every change
    of the history is a mutation of the entry.  [truncateHistory] applies
    "the database-configured truncation policy ([history_max_items])". *)
Definition Entry_removeHistoryItems (p : Ptr) (items : list HistoryItem) : M unit :=
  modifyEntry p (λ E, Entry_withHistory
                        (filter (λ i, i ∉ items) (e_history E)) E);;
  Entry_touch p.
Definition Entry_addHistoryItem (p : Ptr) (item : HistoryItem) : M unit :=
  modifyEntry p (λ E, Entry_withHistory (e_history E ++ [item]) E);;
  Entry_touch p.
Definition Entry_truncateHistory (p : Ptr) : M unit :=
  db ← Entry_database p;
  match db with
  | None => mret tt
  | Some d =>
      md ← Database_metadata d;
      let histMaxItems := md_historyMaxItems md in
      if -1 <? histMaxItems
      then modifyEntry p (λ E, Entry_withHistory
               (drop (length (e_history E) - Z.to_nat histMaxItems)%nat
                     (e_history E)) E);;
           Entry_touch p
      else mret tt
  end.

(** Modelled from the spec: [Entry::equals] on history items, the "relaxed
    comparison" under the given options. *)
Definition Entry_equals (a b : HistoryItem) (options : CompareOptions) : bool :=
  bool_decide (hi_uuid a = hi_uuid b)
  && bool_decide (hi_attributes a = hi_attributes b)
  && TimeInfo_equals (hi_timeInfo a) (hi_timeInfo b) options.

(** Modelled from the spec: the custom-icon table of [Metadata]. *)
Definition Metadata_containsCustomIcon (md : Metadata) (id : Uuid) : bool :=
  bool_decide (is_Some (md_customIcons md !! id)).
Definition Metadata_customIcon (md : Metadata) (id : Uuid) : QImage :=
  default [] (md_customIcons md !! id).
Definition Metadata_addCustomIcon (id : Uuid) (icon : QImage) (md : Metadata) :=
  mkMetadata (md_name md) (md_historyMaxItems md) (<[id:=icon]> (md_customIcons md)).

(** ** Traversals of the group tree

    The recursion follows child pointers through the heap; [fuel] bounds its
    depth. *)

Fixpoint mapR {A B} (f : A → Res B) (l : list A) : Res (list B) :=
  match l with
  | [] => Ok []
  | x :: l' => y ← f x; ys ← mapR f l'; Ok (y :: ys)
  end.

(** Modelled from the spec: [Group::entriesRecursive(false)]. *)
Fixpoint entriesRecursive (fuel : nat) (h : Heap) (g : Ptr) : Res (list Ptr) :=
  match fuel with
  | O => OutOfFuel
  | S n =>
      G ← lookupGroup h g;
      rest ← mapR (entriesRecursive n h) (g_children G);
      Ok (g_entries G ++ concat rest)
  end.

(** Modelled from the spec: [Group::groupsRecursive(includeSelf)]. *)
Fixpoint groupsRecursive (fuel : nat) (h : Heap) (includeSelf : bool) (g : Ptr)
  : Res (list Ptr) :=
  match fuel with
  | O => OutOfFuel
  | S n =>
      G ← lookupGroup h g;
      rest ← mapR (groupsRecursive n h true) (g_children G);
      Ok ((if includeSelf then [g] else []) ++ concat rest)
  end.

Fixpoint firstEntryWithUuid (h : Heap) (id : Uuid) (l : list Ptr) : Res (option Ptr) :=
  match l with
  | [] => Ok None
  | p :: l' =>
      E ← lookupEntry h p;
      if decide (e_uuid E = id) then Ok (Some p) else firstEntryWithUuid h id l'
  end.

Fixpoint firstGroupWithUuid (h : Heap) (id : Uuid) (l : list Ptr) : Res (option Ptr) :=
  match l with
  | [] => Ok None
  | p :: l' =>
      G ← lookupGroup h p;
      if decide (g_uuid G = id) then Ok (Some p) else firstGroupWithUuid h id l'
  end.

(** Modelled from the spec: [Group::findEntryByUuid], the "global UUID
    lookup (find-by-UUID across the whole target)". *)
Definition findEntryByUuid (fuel : nat) (h : Heap) (root : Ptr) (id : Uuid)
  : Res (option Ptr) :=
  l ← entriesRecursive fuel h root; firstEntryWithUuid h id l.

(** Modelled from the spec: [Group::findGroupByUuid]. *)
Definition findGroupByUuid (fuel : nat) (h : Heap) (root : Ptr) (id : Uuid)
  : Res (option Ptr) :=
  l ← groupsRecursive fuel h true root; firstGroupWithUuid h id l.

(** Modelled from the spec: [Group::mergeMode], where "[Inherit] means use
    the parent's effective mode"; a root that inherits falls back to
    [KeepNewer]. *)
Fixpoint Group_mergeMode (fuel : nat) (h : Heap) (g : Ptr) : Res MergeMode :=
  match fuel with
  | O => OutOfFuel
  | S n =>
      G ← lookupGroup h g;
      match g_mergeMode G with
      | Inherit =>
          match g_parent G with
          | Some p => Group_mergeMode n h p
          | None => Ok KeepNewer
          end
      | mode => Ok mode
      end
  end.

(** ** A [QMap] keyed by [QDateTime]: ascending keys, one value per key *)

Fixpoint QMap_insert {V} (k : QDateTime) (v : V) (m : list (QDateTime * V))
  : list (QDateTime * V) :=
  match m with
  | [] => [(k, v)]
  | (k', v') :: m' =>
      if k <? k' then (k, v) :: m
      else if k =? k' then (k, v) :: m'
      else (k', v') :: QMap_insert k v m'
  end.
Definition QMap_contains {V} (k : QDateTime) (m : list (QDateTime * V)) : bool :=
  existsb (λ kv, kv.1 =? k) m.
Definition QMap_values {V} (m : list (QDateTime * V)) : list V := map snd m.

(** [QList::value(i)]: the default value (a null pointer) out of range. *)
Definition QList_value {A} (l : list A) (i : Z) : option A :=
  if (0 <=? i) && (i <? Z.of_nat (length l)) then l !! Z.to_nat i else None.

(** ** core/Merger.cpp *)

(** A line of the change list: the message and its arguments. *)
Inductive Change :=
| CreatingMissing (name : string) (id : Uuid)
| Relocating (name : string) (id : Uuid)
| Overwriting (name : string) (id : Uuid)
| AddingBackupForOlderSource (name : string) (id : Uuid)
| AddingBackupForOlderTarget (name : string) (id : Uuid)
| SynchronizingFromNewerSource (name : string) (id : Uuid)
| SynchronizingFromOlderSource (name : string) (id : Uuid)
| DeletingChild (name : string) (id : Uuid)
| DeletingOrphan (name : string) (id : Uuid)
| ChangedDeletedObjects
| AddingMissingIcon (id : Uuid).

Abbreviation ChangeList := (list Change).

Record MergeContext := mkMergeContext {
  m_sourceDb : option Ptr;
  m_targetDb : option Ptr;
  m_sourceRootGroup : option Ptr;
  m_targetRootGroup : option Ptr;
  m_sourceGroup : option Ptr;
  m_targetGroup : option Ptr
}.

(** [ModeDefault], the value [-1] outside the enumeration: no forced mode. *)
Definition ModeDefault : option MergeMode := None.

Record Merger := mkMerger {
  m_mode : option MergeMode;
  m_context : MergeContext
}.

(** A default-constructed context: every pointer is null. *)
Definition MergeContext_default : MergeContext :=
  mkMergeContext None None None None None None.

(** [Merger::Merger] from two databases. *)
Definition Merger_ofDatabases (sourceDb targetDb : option Ptr) : M Merger :=
  match sourceDb, targetDb with
  | Some s, Some t =>
      sourceRoot ← Database_rootGroup s;
      targetRoot ← Database_rootGroup t;
      mret (mkMerger ModeDefault
              (mkMergeContext (Some s) (Some t) (Some sourceRoot) (Some targetRoot)
                              (Some sourceRoot) (Some targetRoot)))
  | _, _ => mret (mkMerger ModeDefault MergeContext_default)
  end.

(** [Merger::Merger] from two groups. *)
Definition Merger_ofGroups (sourceGroup targetGroup : option Ptr) : M Merger :=
  match sourceGroup, targetGroup with
  | Some s, Some t =>
      sourceDb ← Group_database s;
      targetDb ← Group_database t;
      sdb ← deref sourceDb;
      sourceRoot ← Database_rootGroup sdb;
      tdb ← deref targetDb;
      targetRoot ← Database_rootGroup tdb;
      mret (mkMerger ModeDefault
              (mkMergeContext sourceDb targetDb (Some sourceRoot) (Some targetRoot)
                              (Some s) (Some t)))
  | _, _ => mret (mkMerger ModeDefault MergeContext_default)
  end.

Definition setForcedMergeMode (mode : MergeMode) (this : Merger) : Merger :=
  mkMerger (Some mode) (m_context this).
Definition resetForcedMergeMode (this : Merger) : Merger :=
  mkMerger ModeDefault (m_context this).

(** The argument between double quotes. *)
Definition quoted (s : string) : string :=
  String (Ascii.ascii_of_nat 34) (s ++ String (Ascii.ascii_of_nat 34) EmptyString).

(** [Merger::markOlderEntry]. *)
Definition markOlderEntry (entry : Ptr) : M bool :=
  E ← getEntry entry;
  g ← deref (e_group E);
  db ← Group_database g;
  d ← deref db;
  md ← Database_metadata d;
  Entry_setAttribute entry "merged"
    ("older entry merged from database " ++ quoted (md_name md));;
  mret true.

(** [Merger::moveEntry]. *)
Definition moveEntry (entry : Ptr) (targetGroup : option Ptr) : M unit :=
  E ← getEntry entry;
  let sourceGroup := e_group E in
  if decide (sourceGroup = targetGroup) then mret tt
  else
    sourceGroupUpdateTimeInfo ←
      match sourceGroup with
      | Some g => Group_canUpdateTimeinfo g
      | None => mret false
      end;
    match sourceGroup with
    | Some g => Group_setUpdateTimeinfo g false
    | None => mret tt
    end;;
    targetGroupUpdateTimeInfo ←
      match targetGroup with
      | Some g => Group_canUpdateTimeinfo g
      | None => mret false
      end;
    match targetGroup with
    | Some g => Group_setUpdateTimeinfo g false
    | None => mret tt
    end;;
    entryUpdateTimeInfo ← Entry_canUpdateTimeinfo entry;
    Entry_setUpdateTimeinfo entry false;;

    Entry_setGroup entry targetGroup;;

    Entry_setUpdateTimeinfo entry entryUpdateTimeInfo;;
    match targetGroup with
    | Some g => Group_setUpdateTimeinfo g targetGroupUpdateTimeInfo
    | None => mret tt
    end;;
    match sourceGroup with
    | Some g => Group_setUpdateTimeinfo g sourceGroupUpdateTimeInfo
    | None => mret tt
    end.

(** [Merger::moveGroup]. *)
Definition moveGroup (group : Ptr) (targetGroup : option Ptr) : M unit :=
  G ← getGroup group;
  let sourceGroup := g_parent G in
  if decide (sourceGroup = targetGroup) then mret tt
  else
    sourceGroupUpdateTimeInfo ←
      match sourceGroup with
      | Some g => Group_canUpdateTimeinfo g
      | None => mret false
      end;
    match sourceGroup with
    | Some g => Group_setUpdateTimeinfo g false
    | None => mret tt
    end;;
    targetGroupUpdateTimeInfo ←
      match targetGroup with
      | Some g => Group_canUpdateTimeinfo g
      | None => mret false
      end;
    match targetGroup with
    | Some g => Group_setUpdateTimeinfo g false
    | None => mret tt
    end;;
    groupUpdateTimeInfo ← Group_canUpdateTimeinfo group;
    Group_setUpdateTimeinfo group false;;

    Group_setParent group targetGroup;;

    Group_setUpdateTimeinfo group groupUpdateTimeInfo;;
    match targetGroup with
    | Some g => Group_setUpdateTimeinfo g targetGroupUpdateTimeInfo
    | None => mret tt
    end;;
    match sourceGroup with
    | Some g => Group_setUpdateTimeinfo g sourceGroupUpdateTimeInfo
    | None => mret tt
    end.

(** [Merger::eraseEntry]. *)
Definition eraseEntry (entry : Ptr) : M unit :=
  db ← Entry_database entry;
  database ← deref db;
  deletions ← Database_deletedObjects database;
  E ← getEntry entry;
  let parentGroup := e_group E in
  groupUpdateTimeInfo ←
    match parentGroup with
    | Some g => Group_canUpdateTimeinfo g
    | None => mret false
    end;
  match parentGroup with
  | Some g => Group_setUpdateTimeinfo g false
  | None => mret tt
  end;;
  Entry_delete entry;;
  match parentGroup with
  | Some g => Group_setUpdateTimeinfo g groupUpdateTimeInfo
  | None => mret tt
  end;;
  Database_setDeletedObjects database deletions.

(** [Merger::mergeHistory]: the scan that decides whether the history
    changed, [i] running from [0] below [maxItems]. *)
Fixpoint historyChanged (steps : nat) (i : Z)
    (targetHistoryItems updatedHistoryItems : list HistoryItem) : bool :=
  match steps with
  | O => false
  | S k =>
      let oldEntry :=
        QList_value targetHistoryItems
                    (Z.of_nat (length targetHistoryItems) - i) in
      let newEntry :=
        QList_value updatedHistoryItems
                    (Z.of_nat (length updatedHistoryItems) - i) in
      match oldEntry, newEntry with
      | None, None =>
          historyChanged k (i + 1) targetHistoryItems updatedHistoryItems
      | Some o, Some n =>
          if Entry_equals o n CompareItemIgnoreMilliseconds
          then historyChanged k (i + 1) targetHistoryItems updatedHistoryItems
          else true
      | _, _ => true
      end
  end.

(** [Merger::mergeHistory]: the map built from both histories and the older
    of the two entries. *)
Definition mergedHistory (SE TE : Entry) : list (QDateTime * HistoryItem) :=
  let key (item : HistoryItem) :=
    Clock_serialized (lastModificationTime (hi_timeInfo item) High) in
  let merged :=
    fold_left (λ merged historyItem, QMap_insert (key historyItem) historyItem merged)
              (e_history TE) [] in
  let merged :=
    fold_left (λ merged historyItem,
                 if negb (QMap_contains (key historyItem) merged)
                 then QMap_insert (key historyItem) historyItem merged
                 else merged)
              (e_history SE) merged in
  let targetModificationTime :=
    Clock_serialized (lastModificationTime (e_timeInfo TE) High) in
  let sourceModificationTime :=
    Clock_serialized (lastModificationTime (e_timeInfo SE) High) in
  if (targetModificationTime <? sourceModificationTime)
     && negb (QMap_contains targetModificationTime merged)
  then QMap_insert targetModificationTime (Entry_snapshot TE) merged
  else if (targetModificationTime >? sourceModificationTime)
          && negb (QMap_contains sourceModificationTime merged)
  then QMap_insert sourceModificationTime (Entry_snapshot SE) merged
  else merged.

(** [Merger::mergeHistory]. *)
Definition mergeHistory (sourceEntry targetEntry : Ptr) : M bool :=
  TE ← getEntry targetEntry;
  SE ← getEntry sourceEntry;
  let targetHistoryItems := e_history TE in
  let merged := mergedHistory SE TE in
  db ← Entry_database targetEntry;
  database ← deref db;
  md ← Database_metadata database;
  let maxItems := md_historyMaxItems md in
  let updatedHistoryItems := QMap_values merged in
  let changed :=
    historyChanged (Z.to_nat maxItems) 0 targetHistoryItems updatedHistoryItems in
  if negb changed then mret false
  else
    blockedSignals ← Entry_blockSignals targetEntry true;
    updateTimeInfo ← Entry_canUpdateTimeinfo targetEntry;
    Entry_setUpdateTimeinfo targetEntry false;;
    Entry_removeHistoryItems targetEntry targetHistoryItems;;
    forM_ (QMap_values merged) (Entry_addHistoryItem targetEntry);;
    Entry_truncateHistory targetEntry;;
    Entry_blockSignals targetEntry blockedSignals;;
    Entry_setUpdateTimeinfo targetEntry updateTimeInfo;;
    mret true.

(** [Merger::resolveGroupConflict]. *)
Definition resolveGroupConflict (context : MergeContext)
    (sourceChildGroup targetChildGroup : Ptr) : M ChangeList :=
  TG ← getGroup targetChildGroup;
  SG ← getGroup sourceChildGroup;
  let timeExisting := lastModificationTime (g_timeInfo TG) High in
  let timeOther := lastModificationTime (g_timeInfo SG) High in
  if timeExisting <? timeOther
  then
    Group_setName targetChildGroup (g_name SG);;
    Group_setNotes targetChildGroup (g_notes SG);;
    (if g_iconNumber SG =? 0
     then Group_setIconUuid targetChildGroup (g_iconUuid SG)
     else Group_setIconNumber targetChildGroup (g_iconNumber SG));;
    Group_setExpiryTime targetChildGroup (expiryTime (g_timeInfo SG) High);;
    mret [Overwriting (g_name SG) (g_uuid SG)]
  else mret [].

(** The queues and maps of [Merger::mergeDeletions]. *)
Record DeletionQueues := mkDeletionQueues {
  mergedDeletions : gmap Uuid DeletedObject;
  entries : list Ptr;
  groups : list Ptr;
  deletions : list DeletedObject
}.

(** [QMap::operator[]]: the default-constructed value for a missing key. *)
Definition QMap_at (m : gmap Uuid DeletedObject) (k : Uuid) : DeletedObject :=
  default (mkDeletedObject 0%N 0) (m !! k).

Fixpoint foldlR {A B} (f : A → B → Res A) (l : list B) (a : A) : Res A :=
  match l with
  | [] => Ok a
  | x :: l' => a' ← f a x; foldlR f l' a'
  end.

Fixpoint concatMapM {A B} (f : A → M (list B)) (l : list A) : M (list B) :=
  match l with
  | [] => mret []
  | x :: l' => ys ← f x; zs ← concatMapM f l'; mret (ys ++ zs)
  end.

Section Merger.

(** The bound on the depth of the group trees that the traversals and the
    recursion over the source tree may reach. *)
Variable fuel : nat.

(** [Merger::eraseGroup]. *)
Definition eraseGroup (group : Ptr) : M unit :=
  db ← Group_database group;
  database ← deref db;
  deletions ← Database_deletedObjects database;
  G ← getGroup group;
  let parentGroup := g_parent G in
  groupUpdateTimeInfo ←
    match parentGroup with
    | Some g => Group_canUpdateTimeinfo g
    | None => mret false
    end;
  match parentGroup with
  | Some g => Group_setUpdateTimeinfo g false
  | None => mret tt
  end;;
  Group_delete fuel group;;
  match parentGroup with
  | Some g => Group_setUpdateTimeinfo g groupUpdateTimeInfo
  | None => mret tt
  end;;
  Database_setDeletedObjects database deletions.

(** The effective merge mode of [Merger::resolveEntryConflict]: the forced
    mode, or the merge mode of the current target group. *)
Definition effectiveMergeMode (mode : option MergeMode) (context : MergeContext)
  : M MergeMode :=
  match mode with
  | None =>
      g ← deref (m_targetGroup context);
      readHeap (λ h, Group_mergeMode fuel h g)
  | Some m => mret m
  end.

(** [Merger::resolveEntryConflict]. *)
Definition resolveEntryConflict (mode : option MergeMode) (context : MergeContext)
    (sourceEntry targetEntry : Ptr) : M ChangeList :=
  TE ← getEntry targetEntry;
  SE ← getEntry sourceEntry;
  let timeTarget := Clock_serialized (lastModificationTime (e_timeInfo TE) High) in
  let timeSource := Clock_serialized (lastModificationTime (e_timeInfo SE) High) in
  mergeMode ← effectiveMergeMode mode context;
  match mergeMode with
  | KeepBoth =>
      if timeTarget >? timeSource then
        clonedEntry ← Entry_clone sourceEntry (Z.lor CloneNewUuid CloneIncludeHistory);
        moveEntry clonedEntry (m_targetGroup context);;
        markOlderEntry clonedEntry;;
        mret [AddingBackupForOlderSource (Entry_title SE) (e_uuid SE)]
      else if timeTarget <? timeSource then
        clonedEntry ← Entry_clone sourceEntry (Z.lor CloneNewUuid CloneIncludeHistory);
        moveEntry clonedEntry (m_targetGroup context);;
        markOlderEntry targetEntry;;
        TE' ← getEntry targetEntry;
        mret [AddingBackupForOlderTarget (Entry_title TE') (e_uuid TE')]
      else mret []
  | KeepNewer =>
      if timeTarget <? timeSource then
        clonedEntry ← Entry_clone sourceEntry CloneIncludeHistory;
        TE' ← getEntry targetEntry;
        let currentGroup := e_group TE' in
        moveEntry clonedEntry currentGroup;;
        eraseEntry targetEntry;;
        CE ← getEntry clonedEntry;
        mret [Overwriting (Entry_title CE) (e_uuid CE)]
      else mret []
  | KeepExisting => mret []
  | Synchronize =>
      if timeTarget <? timeSource then
        let currentGroup := e_group TE in
        clonedEntry ← Entry_clone sourceEntry CloneIncludeHistory;
        moveEntry clonedEntry currentGroup;;
        mergeHistory targetEntry clonedEntry;;
        eraseEntry targetEntry;;
        mret [SynchronizingFromNewerSource (Entry_title TE) (e_uuid TE)]
      else
        changed ← mergeHistory sourceEntry targetEntry;
        if (changed : bool)
        then TE' ← getEntry targetEntry;
             mret [SynchronizingFromOlderSource (Entry_title TE') (e_uuid TE')]
        else mret []
  | Inherit => mret []
  end.

(** [Merger::mergeGroup]: the body of the loop over the source entries. *)
Definition mergeGroup_entry (mode : option MergeMode) (context : MergeContext)
    (sourceEntry : Ptr) : M ChangeList :=
  SE ← getEntry sourceEntry;
  root ← deref (m_targetRootGroup context);
  found ← readHeap (λ h, findEntryByUuid fuel h root (e_uuid SE));
  match found with
  | None =>
      targetEntry ← Entry_clone sourceEntry CloneIncludeHistory;
      moveEntry targetEntry (m_targetGroup context);;
      mret [CreatingMissing (Entry_title SE) (e_uuid SE)]
  | Some targetEntry =>
      TE ← getEntry targetEntry;
      let locationChanged' :=
        locationChanged (e_timeInfo TE) High <? locationChanged (e_timeInfo SE) High in
      relocated ←
        (if locationChanged' && bool_decide (e_group TE ≠ m_targetGroup context)
         then moveEntry targetEntry (m_targetGroup context);;
              mret [Relocating (Entry_title SE) (e_uuid SE)]
         else mret []);
      resolved ← resolveEntryConflict mode context sourceEntry targetEntry;
      mret (relocated ++ resolved)
  end.

(** [Merger::mergeGroup]: the body of the loop over the source child groups,
    up to the recursive call; it returns the target child group. *)
Definition mergeGroup_child (context : MergeContext) (sourceChildGroup : Ptr)
  : M (ChangeList * Ptr) :=
  SG ← getGroup sourceChildGroup;
  root ← deref (m_targetRootGroup context);
  found ← readHeap (λ h, findGroupByUuid fuel h root (g_uuid SG));
  match found with
  | None =>
      targetChildGroup ← Group_clone sourceChildGroup;
      moveGroup targetChildGroup (m_targetGroup context);;
      TG ← getGroup targetChildGroup;
      let timeinfo :=
        setLocationChanged (locationChanged (g_timeInfo SG) High) (g_timeInfo TG) in
      Group_setTimeInfo targetChildGroup timeinfo;;
      mret ([CreatingMissing (g_name SG) (g_uuid SG)], targetChildGroup)
  | Some targetChildGroup =>
      TG ← getGroup targetChildGroup;
      let locationChanged' :=
        locationChanged (g_timeInfo TG) High <? locationChanged (g_timeInfo SG) High in
      relocated ←
        (if locationChanged' && bool_decide (g_parent TG ≠ m_targetGroup context)
         then moveGroup targetChildGroup (m_targetGroup context);;
              TG' ← getGroup targetChildGroup;
              let timeinfo :=
                setLocationChanged (locationChanged (g_timeInfo SG) High)
                                   (g_timeInfo TG') in
              Group_setTimeInfo targetChildGroup timeinfo;;
              mret [Relocating (g_name SG) (g_uuid SG)]
         else mret []);
      resolved ← resolveGroupConflict context sourceChildGroup targetChildGroup;
      mret (relocated ++ resolved, targetChildGroup)
  end.

(** [Merger::mergeGroup]; [depth] bounds the recursion over the source
    tree. *)
Fixpoint mergeGroup (depth : nat) (mode : option MergeMode) (context : MergeContext)
  : M ChangeList :=
  match depth with
  | O => outOfFuel
  | S n =>
      sg ← deref (m_sourceGroup context);
      SG ← getGroup sg;
      let sourceEntries := g_entries SG in
      changes1 ← concatMapM (mergeGroup_entry mode context) sourceEntries;
      SG' ← getGroup sg;
      let sourceChildGroups := g_children SG' in
      changes2 ← concatMapM
        (λ sourceChildGroup,
           '(changes, targetChildGroup) ← mergeGroup_child context sourceChildGroup;
           let subcontext :=
             mkMergeContext (m_sourceDb context) (m_targetDb context)
                            (m_sourceRootGroup context) (m_targetRootGroup context)
                            (Some sourceChildGroup) (Some targetChildGroup) in
           changes' ← mergeGroup n mode subcontext;
           mret (changes ++ changes'))
        sourceChildGroups;
      mret (changes1 ++ changes2)
  end.

(** [Merger::mergeDeletions]: the body of the first loop, over the target's
    tombstones followed by the source's. *)
Definition collectDeletion (h : Heap) (targetRootGroup : option Ptr)
    (q : DeletionQueues) (object : DeletedObject) : Res DeletionQueues :=
  if bool_decide (mergedDeletions q !! uuid object = None) then
    let merged := <[uuid object := object]> (mergedDeletions q) in
    match targetRootGroup with
    | None => Fault
    | Some root =>
        entry ← findEntryByUuid fuel h root (uuid object);
        match entry with
        | Some e =>
            Ok (mkDeletionQueues merged (entries q ++ [e]) (groups q) (deletions q))
        | None =>
            group ← findGroupByUuid fuel h root (uuid object);
            match group with
            | Some g =>
                Ok (mkDeletionQueues merged (entries q) (groups q ++ [g]) (deletions q))
            | None =>
                Ok (mkDeletionQueues merged (entries q) (groups q)
                                     (deletions q ++ [object]))
            end
        end
    end
  else if deletionTime (QMap_at (mergedDeletions q) (uuid object))
          >? deletionTime object
  then Ok (mkDeletionQueues (<[uuid object := object]> (mergedDeletions q))
                            (entries q) (groups q) (deletions q))
  else Ok q.

Definition collectDeletions (h : Heap) (targetRootGroup : option Ptr)
    (objects : list DeletedObject) : Res DeletionQueues :=
  foldlR (collectDeletion h targetRootGroup) objects
         (mkDeletionQueues ∅ [] [] []).

(** [Merger::mergeDeletions]: the loop over the queued entries. *)
Fixpoint deleteEntries (merged : gmap Uuid DeletedObject) (queue : list Ptr)
    (deletions : list DeletedObject) (changes : ChangeList)
  : M (list DeletedObject * ChangeList) :=
  match queue with
  | [] => mret (deletions, changes)
  | entry :: queue' =>
      E ← getEntry entry;
      let object := QMap_at merged (e_uuid E) in
      if lastModificationTime (e_timeInfo E) High >? deletionTime object
      then deleteEntries merged queue' deletions changes
      else
        let change :=
          match e_group E with
          | Some _ => DeletingChild (Entry_title E) (e_uuid E)
          | None => DeletingOrphan (Entry_title E) (e_uuid E)
          end in
        eraseEntry entry;;
        deleteEntries merged queue' (deletions ++ [object]) (changes ++ [change])
  end.

(** [Merger::mergeDeletions]: the loop over the queued groups; a group with
    a child still in the queue goes back to the tail.  [steps] bounds the
    number of iterations. *)
Fixpoint deleteGroups (steps : nat) (merged : gmap Uuid DeletedObject)
    (queue : list Ptr) (deletions : list DeletedObject) (changes : ChangeList)
  : M (list DeletedObject * ChangeList) :=
  match queue with
  | [] => mret (deletions, changes)
  | group :: queue' =>
      match steps with
      | O => outOfFuel
      | S k =>
          G ← getGroup group;
          if existsb (λ c, bool_decide (c ∈ queue')) (g_children G)
          then deleteGroups k merged (queue' ++ [group]) deletions changes
          else
            let object := QMap_at merged (g_uuid G) in
            if lastModificationTime (g_timeInfo G) High >? deletionTime object
            then deleteGroups k merged queue' deletions changes
            else
              es ← readHeap (λ h, entriesRecursive fuel h group);
              gs ← readHeap (λ h, groupsRecursive fuel h false group);
              match es, gs with
              | [], [] =>
                  let change :=
                    match g_parent G with
                    | Some _ => DeletingChild (g_name G) (g_uuid G)
                    | None => DeletingOrphan (g_name G) (g_uuid G)
                    end in
                  eraseGroup group;;
                  deleteGroups k merged queue' (deletions ++ [object])
                               (changes ++ [change])
              | _, _ => deleteGroups k merged queue' deletions changes
              end
      end
  end.

(** The number of iterations the loop over [n] queued groups may need. *)
Definition deleteGroups_steps (n : nat) : nat := (n * n)%nat.

(** [Merger::mergeDeletions]. *)
Definition mergeDeletions (context : MergeContext) : M ChangeList :=
  tdb ← deref (m_targetDb context);
  targetDeletions ← Database_deletedObjects tdb;
  sdb ← deref (m_sourceDb context);
  sourceDeletions ← Database_deletedObjects sdb;
  q ← readHeap (λ h, collectDeletions h (m_targetRootGroup context)
                       (targetDeletions ++ sourceDeletions));
  '(deletions, changes) ←
    deleteEntries (mergedDeletions q) (entries q) (deletions q) [];
  '(deletions, changes) ←
    deleteGroups (deleteGroups_steps (length (groups q))) (mergedDeletions q)
                 (groups q) deletions changes;
  current ← Database_deletedObjects tdb;
  let changes :=
    if bool_decide (deletions ≠ current)
    then changes ++ [ChangedDeletedObjects] else changes in
  Database_setDeletedObjects tdb deletions;;
  mret changes.

(** [Merger::mergeMetadata]. *)
Definition mergeMetadata (context : MergeContext) : M ChangeList :=
  sdb ← deref (m_sourceDb context);
  sourceMetadata ← Database_metadata sdb;
  tdb ← deref (m_targetDb context);
  targetMetadata ← Database_metadata tdb;
  concatMapM
    (λ customIconId,
       let customIcon := Metadata_customIcon sourceMetadata customIconId in
       targetMetadata ← Database_metadata tdb;
       if negb (Metadata_containsCustomIcon targetMetadata customIconId)
       then modifyDb tdb (λ d, Database_withMetadata
                                 (Metadata_addCustomIcon customIconId customIcon
                                                         (db_metadata d)) d);;
            mret [AddingMissingIcon customIconId]
       else mret [])
    (map fst (map_to_list (md_customIcons sourceMetadata))).

(** [Merger::merge]. *)
Definition merge (this : Merger) : M bool :=
  changes1 ← mergeGroup fuel (m_mode this) (m_context this);
  changes2 ← mergeDeletions (m_context this);
  changes3 ← mergeMetadata (m_context this);
  let changes : ChangeList := changes1 ++ changes2 ++ changes3 in
  if negb (bool_decide (changes = []))
  then
    tdb ← deref (m_targetDb (m_context this));
    Database_markAsModified tdb;;
    mret true
  else mret false.

End Merger.

(** ** Concrete databases

    A source database at address [1] with root group [10] and a target
    database at address [2] with root group [20], in one heap.  The groups
    of the two sides are paired by UUID. *)

Definition stamps (lastModification locationChanged : QDateTime) : TimeInfo :=
  mkTimeInfo lastModification 0 0 0 false 0 locationChanged.

Definition plainGroup (id : Uuid) (name : string) (lastModification : QDateTime)
    (parent db : option Ptr) (entries children : list Ptr) : Group :=
  mkGroup id name EmptyString 0 0%N (stamps lastModification 0) Inherit
          parent db entries children true.

Definition plainEntry (id : Uuid) (title : string)
    (lastModification locationChanged : QDateTime) (group : Ptr) : Entry :=
  mkEntry id {[ "Title"%string := title ]}
          (stamps lastModification locationChanged) [] (Some group) true false.

Definition twoDatabases (sourceTombstones targetTombstones : list DeletedObject)
  : gmap Ptr Database :=
  list_to_map
    [(1%positive, mkDatabase 10 sourceTombstones (mkMetadata "source" 10 ∅) false);
     (2%positive, mkDatabase 20 targetTombstones (mkMetadata "target" 10 ∅) false)].

(** A group [a] on both sides with the same content; the source's copy was
    last modified at [sourceTime], the target's at 5.000 s. *)
Definition groupPairHeap (sourceTime : QDateTime) : Heap :=
  mkHeap ∅
    (list_to_map
       [(10%positive, plainGroup 100 "root" 0 None (Some 1%positive) [] [11%positive]);
        (11%positive, plainGroup 101 "a" sourceTime (Some 10%positive) (Some 1%positive) [] []);
        (20%positive, plainGroup 200 "root" 0 None (Some 2%positive) [] [21%positive]);
        (21%positive, plainGroup 101 "a" 5000 (Some 20%positive) (Some 2%positive) [] [])])
    (twoDatabases [] [])
    1000%positive 99000 5000%N.

(** An entry that the source holds under group [b] since 20 s and the
    target under group [a] since 10 s, equal otherwise. *)
Definition movedEntryHeap : Heap :=
  mkHeap
    (list_to_map
       [(30%positive, plainEntry 7 "e" 1000 20000 12);
        (40%positive, plainEntry 7 "e" 1000 10000 21)])
    (list_to_map
       [(10%positive, plainGroup 100 "root" 0 None (Some 1%positive) []
                        [11%positive; 12%positive]);
        (11%positive, plainGroup 101 "a" 0 (Some 10%positive) (Some 1%positive) [] []);
        (12%positive, plainGroup 102 "b" 0 (Some 10%positive) (Some 1%positive)
                        [30%positive] []);
        (20%positive, plainGroup 200 "root" 0 None (Some 2%positive) []
                        [21%positive; 22%positive]);
        (21%positive, plainGroup 101 "a" 0 (Some 20%positive) (Some 2%positive)
                        [40%positive] []);
        (22%positive, plainGroup 102 "b" 0 (Some 20%positive) (Some 2%positive) [] [])])
    (twoDatabases [] [])
    1000%positive 99000 5000%N.

(** Two empty databases that both hold a tombstone for the UUID [555]: the
    source's at 1 s, the target's at 7 s. *)
Definition tombstonePairHeap : Heap :=
  mkHeap ∅
    (list_to_map
       [(10%positive, plainGroup 100 "root" 0 None (Some 1%positive) [] []);
        (20%positive, plainGroup 200 "root" 0 None (Some 2%positive) [] [])])
    (twoDatabases [mkDeletedObject 555 1000] [mkDeletedObject 555 7000])
    1000%positive 99000 5000%N.

(** The merger of the two databases. *)
Definition twoDatabasesMerger : Merger :=
  mkMerger ModeDefault
    (mkMergeContext (Some 1%positive) (Some 2%positive) (Some 10%positive)
                    (Some 20%positive) (Some 10%positive) (Some 20%positive)).

(** The heap a computation ends in, when it ends. *)
Definition finalHeap {A} (r : Res (A * Heap)) : option Heap :=
  match r with Ok (_, h) => Some h | _ => None end.
Definition result {A} (r : Res (A * Heap)) : option A :=
  match r with Ok (a, _) => Some a | _ => None end.

(** The heap after an entry left its group and was freed. *)
Definition heapWithoutEntry (e g : Ptr) (G : Group) (h : Heap) : Heap :=
  mkHeap (delete e (h_entries h))
         (<[g := Group_withEntries (filter (λ x, x ≠ e) (g_entries G)) G]> (h_groups h))
         (h_dbs h) (h_next h) (h_now h) (h_uuidSeed h).


(** The deep clone of an entry, history included, attached under [g]. *)
Definition clonedEntry (E : Entry) (g : option Ptr) : Entry :=
  mkEntry (e_uuid E) (e_attributes E) (e_timeInfo E)
          (map (λ i, mkHistoryItem (e_uuid E) (hi_attributes i) (hi_timeInfo i))
               (e_history E))
          g true false.


(** An entry that the source modified at 9 s and the target at 1 s, under
    group [a] on both sides; the source's history holds the revision of 1 s,
    the target's is empty. *)
Definition revision (id : Uuid) (title : string) (lastModification : QDateTime)
  : HistoryItem :=
  mkHistoryItem id {[ "Title"%string := title ]} (stamps lastModification 0).

Definition newerSourceEntry : Entry :=
  mkEntry 7 {[ "Title"%string := "e2"%string ]} (stamps 9000 0)
          [revision 7 "e" 1000] (Some 11%positive) true false.

Definition newerSourceHeap : Heap :=
  mkHeap
    (list_to_map
       [(30%positive, newerSourceEntry);
        (40%positive, plainEntry 7 "e" 1000 0 21)])
    (list_to_map
       [(10%positive, plainGroup 100 "root" 0 None (Some 1%positive) [] [11%positive]);
        (11%positive, plainGroup 101 "a" 0 (Some 10%positive) (Some 1%positive)
                        [30%positive] []);
        (20%positive, plainGroup 200 "root" 0 None (Some 2%positive) [] [21%positive]);
        (21%positive, plainGroup 101 "a" 0 (Some 20%positive) (Some 2%positive)
                        [40%positive] [])])
    (twoDatabases [] [])
    1000%positive 99000 5000%N.

(** The target holds a group [a] with the entries [e1], modified at 1 s, and
    [e2], modified at 9 s, and an empty child group [c], and beside it an
    empty group [b]; the source holds none of them and a tombstone of 5 s
    for each. *)
Definition deletedGroupHeap : Heap :=
  mkHeap
    (list_to_map
       [(40%positive, plainEntry 7 "e1" 1000 0 21);
        (41%positive, plainEntry 8 "e2" 9000 0 21)])
    (list_to_map
       [(10%positive, plainGroup 100 "root" 0 None (Some 1%positive) [] []);
        (20%positive, plainGroup 200 "root" 0 None (Some 2%positive) []
                        [21%positive; 22%positive]);
        (21%positive, plainGroup 101 "a" 0 (Some 20%positive) (Some 2%positive)
                        [40%positive; 41%positive] [23%positive]);
        (22%positive, plainGroup 102 "b" 0 (Some 20%positive) (Some 2%positive) [] []);
        (23%positive, plainGroup 103 "c" 0 (Some 21%positive) (Some 2%positive) [] [])])
    (twoDatabases
       [mkDeletedObject 101 5000; mkDeletedObject 7 5000; mkDeletedObject 8 5000;
        mkDeletedObject 102 5000; mkDeletedObject 103 5000] [])
    1000%positive 99000 5000%N.

(** ** Well-formed group trees

    [treeOk n h db g]: within depth [n], the group [g] and the groups below
    it exist in the heap and belong to the database [db], every listed entry
    exists and names its group as parent, and every listed child group
    exists and names its group as parent. *)

Definition entryOk (h : Heap) (g e : Ptr) : bool :=
  match h_entries h !! e with
  | Some E => bool_decide (e_group E = Some g)
  | None => false
  end.

Definition childOk (h : Heap) (g c : Ptr) : bool :=
  match h_groups h !! c with
  | Some C => bool_decide (g_parent C = Some g)
  | None => false
  end.

Fixpoint treeOk (n : nat) (h : Heap) (db g : Ptr) : bool :=
  match n with
  | O => false
  | S n' =>
      match h_groups h !! g with
      | None => false
      | Some G =>
          bool_decide (g_db G = Some db)
          && forallb (entryOk h g) (g_entries G)
          && forallb (λ c, childOk h g c && treeOk n' h db c) (g_children G)
      end
  end.

(** The earliest deletion time among the tombstones of a UUID. *)
Definition earliestDeletion (id : Uuid) (objects : list DeletedObject)
  : option QDateTime :=
  foldl (λ acc object,
           if decide (uuid object = id)
           then Some (match acc with
                      | None => deletionTime object
                      | Some t => Z.min t (deletionTime object)
                      end)
           else acc)
        None objects.

(** What the deletion pass has erased so far: the entries [D] and the
    groups [DG].  The lists of a surviving group are those of the initial
    heap without the erased objects. *)
Definition pruned (D DG : gset Ptr) (G : Group) : Group :=
  Group_withChildren (filter (λ c, c ∉ DG) (g_children G))
    (Group_withEntries (filter (λ e, e ∉ D) (g_entries G)) G).

Record Erased (n : nat) (db : Ptr) (h hk : Heap) (D DG : gset Ptr) : Prop := {
  er_entries : ∀ p, h_entries hk !! p
                    = if decide (p ∈ D) then None else h_entries h !! p;
  er_groups : ∀ p, treeOk n h db p = true →
                   h_groups hk !! p
                   = if decide (p ∈ DG) then None
                     else pruned D DG <$> (h_groups h !! p);
  er_closed_entries : ∀ p G e, p ∈ DG → h_groups h !! p = Some G →
                               e ∈ g_entries G → e ∈ D;
  er_closed_children : ∀ p G c, p ∈ DG → h_groups h !! p = Some G →
                                c ∈ g_children G → c ∈ DG
}.

(** The heap after an empty group left its parent, if it has one, and was
    freed. *)
Definition heapWithoutGroup (x : Ptr) (parent : option (Ptr * Group)) (h : Heap)
  : Heap :=
  mkHeap (h_entries h)
         (delete x
            match parent with
            | Some (p, P) =>
                <[p := Group_withChildren (filter (λ c, c ≠ x) (g_children P)) P]>
                  (h_groups h)
            | None => h_groups h
            end)
         (h_dbs h) (h_next h) (h_now h) (h_uuidSeed h).

(** What the first loop of [mergeDeletions] has collected from the
    tombstones [objects]. *)
Record Collected (fuel : nat) (h : Heap) (root : Ptr)
    (objects : list DeletedObject) (q : DeletionQueues) : Prop := {
  co_dom : ∀ u, is_Some (mergedDeletions q !! u)
                ↔ ∃ o, o ∈ objects ∧ uuid o = u;
  co_merged : ∀ u o, mergedDeletions q !! u = Some o →
                     uuid o = u
                     ∧ earliestDeletion u objects = Some (deletionTime o);
  co_entries : ∀ e, e ∈ entries q
                    ↔ ∃ o, o ∈ objects
                           ∧ findEntryByUuid fuel h root (uuid o) = Ok (Some e);
  co_entries_NoDup : NoDup (entries q);
  co_groups : ∀ g, g ∈ groups q
                   ↔ ∃ o, o ∈ objects
                          ∧ findEntryByUuid fuel h root (uuid o) = Ok None
                          ∧ findGroupByUuid fuel h root (uuid o) = Ok (Some g);
  co_groups_NoDup : NoDup (groups q);
  co_deletions : ∀ o, o ∈ deletions q →
                      findEntryByUuid fuel h root (uuid o) = Ok None
                      ∧ findGroupByUuid fuel h root (uuid o) = Ok None
}.

(** The tombstone that the merged map holds for a queued entry or group of
    the initial heap, and whether the object was last modified no later than
    its tombstone says. *)
Definition entryTombstone (h : Heap) (merged : gmap Uuid DeletedObject) (e : Ptr)
  : DeletedObject :=
  match h_entries h !! e with
  | Some E => QMap_at merged (e_uuid E)
  | None => mkDeletedObject 0%N 0
  end.

Definition entryOutdated (h : Heap) (merged : gmap Uuid DeletedObject) (e : Ptr)
  : bool :=
  match h_entries h !! e with
  | Some E => negb (lastModificationTime (e_timeInfo E) High
                    >? deletionTime (QMap_at merged (e_uuid E)))
  | None => false
  end.

Definition groupTombstone (h : Heap) (merged : gmap Uuid DeletedObject) (g : Ptr)
  : DeletedObject :=
  match h_groups h !! g with
  | Some G => QMap_at merged (g_uuid G)
  | None => mkDeletedObject 0%N 0
  end.

Definition groupOutdated (h : Heap) (merged : gmap Uuid DeletedObject) (g : Ptr)
  : bool :=
  match h_groups h !! g with
  | Some G => negb (lastModificationTime (g_timeInfo G) High
                    >? deletionTime (QMap_at merged (g_uuid G)))
  | None => false
  end.

(** A queued entry is listed by a well-formed group of the initial heap. *)
Definition entryAttached (n : nat) (db : Ptr) (h : Heap) (e : Ptr) : Prop :=
  ∃ E g G, h_entries h !! e = Some E ∧ e_group E = Some g
           ∧ treeOk n h db g = true ∧ h_groups h !! g = Some G
           ∧ e ∈ g_entries G.

(** A queued group is well formed in the initial heap and is a root or a
    listed child of a well-formed group. *)
Definition groupAttached (n : nat) (db : Ptr) (h : Heap) (x : Ptr) : Prop :=
  treeOk n h db x = true
  ∧ ∃ X, h_groups h !! x = Some X
         ∧ (g_parent X = None
            ∨ ∃ pp PP, g_parent X = Some pp ∧ treeOk n h db pp = true
                       ∧ h_groups h !! pp = Some PP ∧ x ∈ g_children PP).

(** The invariant of the loop over the queued groups, and what a run of the
    loop yields: the groups [erased], their tombstones appended to the
    list. *)
Definition GroupsLoopInv (n : nat) (db : Ptr) (h : Heap) (TD : Database)
    (D : gset Ptr) (queue : list Ptr) (hk : Heap) (DG : gset Ptr) : Prop :=
  Erased n db h hk D DG
  ∧ h_dbs hk !! db = Some TD
  ∧ NoDup queue
  ∧ ∀ x, x ∈ queue → (x ∉ DG) ∧ groupAttached n db h x.

Definition GroupsLoopOk (n : nat) (db : Ptr) (h : Heap)
    (merged : gmap Uuid DeletedObject) (D : gset Ptr) (steps : nat)
    (queue : list Ptr) (hk : Heap) (DG : gset Ptr)
    (deletions : list DeletedObject) (changes : ChangeList) : Prop :=
  ∃ (erased : list Ptr) (changes' : ChangeList) (hk' : Heap),
    deleteGroups n steps merged queue deletions changes hk
    = Ok ((deletions ++ map (groupTombstone h merged) erased, changes'), hk')
    ∧ Erased n db h hk' D (DG ∪ list_to_set erased)
    ∧ h_dbs hk' = h_dbs hk
    ∧ ∀ x, x ∈ erased → x ∈ queue ∧ groupOutdated h merged x = true.
(** ** Vocabulary of the properties of [mergeHistory] *)

(** The key under which [mergeHistory] files a history item: its last
    modification time cut to the second. *)
Definition historyKey (item : HistoryItem) : QDateTime :=
  Clock_serialized (lastModificationTime (hi_timeInfo item) High).

(** The keys of a [QMap], in iteration order. *)
Definition QMap_keys {V} (m : list (QDateTime * V)) : list QDateTime := map fst m.

(** The items the map of [mergeHistory] may hold: the history items of both
    entries and the two entries themselves. *)
Definition historyCandidate (SE TE : Entry) (v : HistoryItem) : Prop :=
  v ∈ e_history TE ∨ v ∈ e_history SE
  ∨ v = Entry_snapshot TE ∨ v = Entry_snapshot SE.

(** A map in ascending order of keys that files each of its items under the
    item's own key. *)
Definition historyWellKeyed (SE TE : Entry) (m : list (QDateTime * HistoryItem))
  : Prop :=
  StronglySorted Z.lt (QMap_keys m)
  ∧ ∀ k v, (k, v) ∈ m → k = historyKey v ∧ historyCandidate SE TE v.

(** The two insertions of [mergeHistory]: of an item of the target's
    history, and of an item of the source's history. *)
Definition historyInsertAlways (merged : list (QDateTime * HistoryItem))
    (item : HistoryItem) : list (QDateTime * HistoryItem) :=
  QMap_insert (historyKey item) item merged.

Definition historyInsertMissing (merged : list (QDateTime * HistoryItem))
    (item : HistoryItem) : list (QDateTime * HistoryItem) :=
  if negb (QMap_contains (historyKey item) merged)
  then QMap_insert (historyKey item) item merged
  else merged.

(** The values filed under the seconds of the target's history items are
    history items of the target. *)
Definition historyTargetFirst (TE : Entry) (m : list (QDateTime * HistoryItem))
  : Prop :=
  (∀ k, k ∈ map historyKey (e_history TE) → k ∈ QMap_keys m)
  ∧ ∀ k v, (k, v) ∈ m → k ∈ map historyKey (e_history TE) → v ∈ e_history TE.

(** ** Vocabulary of the properties of [mergeMetadata] *)

(** The body of the loop of [mergeMetadata] over the identifiers of the
    source's icons. *)
Definition addMissingIcon (tdb : Ptr) (sourceMetadata : Metadata)
    (customIconId : Uuid) : M ChangeList :=
  let customIcon := Metadata_customIcon sourceMetadata customIconId in
  targetMetadata ← Database_metadata tdb;
  if negb (Metadata_containsCustomIcon targetMetadata customIconId)
  then modifyDb tdb (λ d, Database_withMetadata
                            (Metadata_addCustomIcon customIconId customIcon
                                                    (db_metadata d)) d);;
       mret [AddingMissingIcon customIconId]
  else mret [].

Definition Database_withIcons (icons : gmap Uuid QImage) (D : Database) : Database :=
  Database_withMetadata
    (mkMetadata (md_name (db_metadata D)) (md_historyMaxItems (db_metadata D)) icons)
    D.

(** The heap [newerSourceHeap] with the target database keeping at most one
    history item per entry. *)
Definition singleRevisionHeap : Heap :=
  Heap_withDbs
    (<[2%positive := mkDatabase 20 [] (mkMetadata "target" 1 ∅) false]>
       (h_dbs newerSourceHeap))
    newerSourceHeap.

(** Two databases with custom icons: the source holds the icons [5] and
    [6], the target holds another image under [6]. *)
Definition iconHeap : Heap :=
  mkHeap ∅
    (list_to_map
       [(10%positive, plainGroup 100 "root" 0 None (Some 1%positive) [] []);
        (20%positive, plainGroup 200 "root" 0 None (Some 2%positive) [] [])])
    (list_to_map
       [(1%positive,
         mkDatabase 10 []
           (mkMetadata "source" 10 (<[5%N := [1; 2]]> (<[6%N := [3]]> ∅))) false);
        (2%positive,
         mkDatabase 20 [] (mkMetadata "target" 10 (<[6%N := [9]]> ∅)) false)])
    1000%positive 99000 5000%N.

(** The heap a merge leaves, when it returns. *)
Definition afterMerge (fuel : nat) (this : Merger) (h : Heap) : Heap :=
  default h (finalHeap (merge fuel this h)).

(** ** Vocabulary of the properties of [mergeDeletions] *)

(** [object] is the first tombstone of its UUID in the list. *)
Definition firstTombstone (objects : list DeletedObject) (object : DeletedObject)
  : Prop :=
  head (filter (λ o, uuid o = uuid object) objects) = Some object.

(** Neither an entry nor a group below [root] has the UUID. *)
Definition noLiveObject (fuel : nat) (h : Heap) (root : Ptr) (id : Uuid) : Prop :=
  findEntryByUuid fuel h root id = Ok None
  ∧ findGroupByUuid fuel h root id = Ok None.

(** What the first loop of [mergeDeletions] has put on the list of retained
    tombstones. *)
Definition retainedTombstones (fuel : nat) (h : Heap) (root : Ptr)
    (objects : list DeletedObject) (q : DeletionQueues) : Prop :=
  (∀ u, is_Some (mergedDeletions q !! u) ↔ ∃ o, o ∈ objects ∧ uuid o = u)
  ∧ (∀ o, o ∈ deletions q
          ↔ firstTombstone objects o ∧ noLiveObject fuel h root (uuid o))
  ∧ NoDup (map uuid (deletions q)).

(** A source with an entry and a group [a] that the empty target lacks. *)
Definition missingObjectsHeap : Heap :=
  mkHeap
    (list_to_map [(30%positive, plainEntry 7 "e" 1000 500 10)])
    (list_to_map
       [(10%positive, plainGroup 100 "root" 0 None (Some 1%positive)
                        [30%positive] [11%positive]);
        (11%positive, plainGroup 101 "a" 3000 (Some 10%positive) (Some 1%positive)
                        [] []);
        (20%positive, plainGroup 200 "root" 0 None (Some 2%positive) [] [])])
    (twoDatabases [] [])
    1000%positive 99000 5000%N.

(** ** Vocabulary of the properties of [resolveGroupConflict] *)

(** What a setter of a group leaves alone: the identity of the group, its
    place in the tree, its lists, its merge mode and its flags, and of its
    [TimeInfo] the creation time, the location change, the expiry flag and
    the usage count; the last modification time stays or becomes [now]. *)
Definition Group_keeps (now : QDateTime) (G G' : Group) : Prop :=
  g_uuid G' = g_uuid G
  ∧ g_mergeMode G' = g_mergeMode G
  ∧ g_parent G' = g_parent G
  ∧ g_db G' = g_db G
  ∧ g_entries G' = g_entries G
  ∧ g_children G' = g_children G
  ∧ g_updateTimeinfo G' = g_updateTimeinfo G
  ∧ m_creationTime (g_timeInfo G') = m_creationTime (g_timeInfo G)
  ∧ m_locationChanged (g_timeInfo G') = m_locationChanged (g_timeInfo G)
  ∧ m_expires (g_timeInfo G') = m_expires (g_timeInfo G)
  ∧ m_usageCount (g_timeInfo G') = m_usageCount (g_timeInfo G)
  ∧ (m_lastModificationTime (g_timeInfo G') = m_lastModificationTime (g_timeInfo G)
     ∨ m_lastModificationTime (g_timeInfo G') = now).

(** A setter of [resolveGroupConflict] run on the group [G] at [p]: the
    group it leaves, what that group keeps of [G], and its name, its notes
    and its expiry time. *)
Definition Group_setterOk (m : M unit) (h : Heap) (p : Ptr) (G : Group)
    (name notes : string) (expiry : QDateTime) : Prop :=
  ∃ G', m h = Ok (tt, Heap_withGroups (<[p := G']> (h_groups h)) h)
        ∧ Group_keeps (h_now h) G G'
        ∧ g_name G' = name ∧ g_notes G' = notes
        ∧ m_expiryTime (g_timeInfo G') = expiry.

(** An empty source beside a target that holds a group and an entry. *)
Definition emptySourceHeap : Heap :=
  mkHeap
    (list_to_map [(40%positive, plainEntry 7 "e" 1000 0 21)])
    (list_to_map
       [(10%positive, plainGroup 100 "root" 0 None (Some 1%positive) [] []);
        (20%positive, plainGroup 200 "root" 0 None (Some 2%positive) []
                        [21%positive]);
        (21%positive, plainGroup 101 "a" 0 (Some 20%positive) (Some 2%positive)
                        [40%positive] [])])
    (twoDatabases [] [])
    1000%positive 99000 5000%N.

(** ** Vocabulary of the properties of [resolveEntryConflict] under [KeepBoth] *)

(** The deep clone of an entry under a new UUID, history included, attached
    under [g]. *)
Definition backupEntry (E : Entry) (id : Uuid) (g : option Ptr) : Entry :=
  mkEntry id (e_attributes E) (e_timeInfo E)
          (map (λ i, mkHistoryItem id (hi_attributes i) (hi_timeInfo i)) (e_history E))
          g true false.

(** An entry after [markOlderEntry] at the time [now], in the database
    [D]. *)
Definition markedEntry (now : QDateTime) (D : Database) (E : Entry) : Entry :=
  Entry_emitModified now
    (Entry_withAttributes
       (<["merged"%string :=
            ("older entry merged from database " ++ quoted (md_name (db_metadata D)))%string]>
          (e_attributes E))
       E).

(** A group [a] that the source holds under group [b] since 20 s and the
    target under its root since 10 s; the context of [mergeGroup] at the
    pair of groups [b]. *)
Definition placedGroup (id : Uuid) (name : string)
    (lastModification locationChanged : QDateTime)
    (parent db : option Ptr) (entries children : list Ptr) : Group :=
  mkGroup id name EmptyString 0 0%N (stamps lastModification locationChanged)
          Inherit parent db entries children true.

Definition movedGroupHeap : Heap :=
  mkHeap ∅
    (list_to_map
       [(10%positive, plainGroup 100 "root" 0 None (Some 1%positive) [] [12%positive]);
        (12%positive, plainGroup 102 "b" 0 (Some 10%positive) (Some 1%positive) []
                        [11%positive]);
        (11%positive, placedGroup 101 "a" 0 20000 (Some 12%positive) (Some 1%positive)
                        [] []);
        (20%positive, plainGroup 200 "root" 0 None (Some 2%positive) []
                        [21%positive; 22%positive]);
        (21%positive, placedGroup 101 "a" 0 10000 (Some 20%positive) (Some 2%positive)
                        [] []);
        (22%positive, plainGroup 102 "b" 0 (Some 20%positive) (Some 2%positive) [] [])])
    (twoDatabases [] [])
    1000%positive 99000 5000%N.

Definition movedGroupContext : MergeContext :=
  mkMergeContext (Some 1%positive) (Some 2%positive) (Some 10%positive)
                 (Some 20%positive) (Some 12%positive) (Some 22%positive).

(** The context of [mergeGroup] at the pair of groups [b] of
    [movedEntryHeap]. *)
Definition movedEntryContext : MergeContext :=
  mkMergeContext (Some 1%positive) (Some 2%positive) (Some 10%positive)
                 (Some 20%positive) (Some 12%positive) (Some 22%positive).



(** Two revisions of one entry with histories that overlap.  The target was
    last modified at 6 s and holds the revisions of 1 s and of 3.2 s; the
    source was last modified at 9 s and holds a revision of 3.7 s, in the
    second of the target's, and the revision of 5 s. *)
Definition historyTargetEntry : Entry :=
  mkEntry 7 {[ "Title"%string := "e3"%string ]} (stamps 6000 0)
          [revision 7 "e" 1000; revision 7 "e1" 3200] (Some 21%positive) true false.

Definition historySourceEntry : Entry :=
  mkEntry 7 {[ "Title"%string := "e4"%string ]} (stamps 9000 0)
          [revision 7 "x" 3700; revision 7 "e2" 5000] (Some 11%positive) true false.

(** The target holds a group [a] with the entries [e1] and [e2], both
    modified at 1 s, and a tombstone of 5 s for the UUID of [e3]; the source
    holds the entry [e3] in its group [a] and a tombstone of 5 s for [e1]. *)
Definition partlyDeletedHeap : Heap :=
  mkHeap
    (list_to_map
       [(30%positive, plainEntry 9 "e3" 1000 0 11);
        (40%positive, plainEntry 7 "e1" 1000 0 21);
        (41%positive, plainEntry 8 "e2" 1000 0 21)])
    (list_to_map
       [(10%positive, plainGroup 100 "root" 0 None (Some 1%positive) [] [11%positive]);
        (11%positive, plainGroup 101 "a" 0 (Some 10%positive) (Some 1%positive)
                        [30%positive] []);
        (20%positive, plainGroup 200 "root" 0 None (Some 2%positive) [] [21%positive]);
        (21%positive, plainGroup 101 "a" 0 (Some 20%positive) (Some 2%positive)
                        [40%positive; 41%positive] [])])
    (twoDatabases [mkDeletedObject 7 5000] [mkDeletedObject 9 5000])
    1000%positive 99000 5000%N.

(** Two databases with custom icons: the source holds the icons [5], [6]
    and [8], the target holds another image under [6] and none under [5]
    and [8]. *)
Definition missingIconsHeap : Heap :=
  mkHeap ∅
    (list_to_map
       [(10%positive, plainGroup 100 "root" 0 None (Some 1%positive) [] []);
        (20%positive, plainGroup 200 "root" 0 None (Some 2%positive) [] [])])
    (list_to_map
       [(1%positive,
         mkDatabase 10 []
           (mkMetadata "source" 10
              (<[5%N := [1; 2]]> (<[6%N := [3]]> (<[8%N := [4]]> ∅)))) false);
        (2%positive,
         mkDatabase 20 [] (mkMetadata "target" 10 (<[6%N := [9]]> ∅)) false)])
    1000%positive 99000 5000%N.



(** * Properties *)

(** ** Reasoning in the monad *)

Lemma bind_Ok {A B} (m : M A) (f : A → M B) (h h' : Heap) (a : A) :
  m h = Ok (a, h') → (m ≫= f) h = f a h'.
Proof. intros Hm. unfold mbind, M_bind. by rewrite Hm. Qed.

Lemma bind_Ok_inv {A B} (m : M A) (f : A → M B) (h : Heap) (r : B * Heap) :
  (m ≫= f) h = Ok r → ∃ a h', m h = Ok (a, h') ∧ f a h' = Ok r.
Proof.
  unfold mbind, M_bind. destruct (m h) as [[a h']| |]; [|done..].
  intros Hf. by exists a, h'.
Qed.

Lemma getEntry_Ok (h : Heap) (p : Ptr) (E : Entry) :
  h_entries h !! p = Some E → getEntry p h = Ok (E, h).
Proof. intros H. unfold getEntry, readHeap, lookupEntry. by rewrite H. Qed.

Lemma getGroup_Ok (h : Heap) (p : Ptr) (G : Group) :
  h_groups h !! p = Some G → getGroup p h = Ok (G, h).
Proof. intros H. unfold getGroup, readHeap, lookupGroup. by rewrite H. Qed.

Lemma getDb_Ok (h : Heap) (p : Ptr) (d : Database) :
  h_dbs h !! p = Some d → getDb p h = Ok (d, h).
Proof. intros H. unfold getDb, readHeap, lookupDb. by rewrite H. Qed.

Lemma getEntry_inv (h h' : Heap) (p : Ptr) (E : Entry) :
  getEntry p h = Ok (E, h') → h_entries h !! p = Some E ∧ h' = h.
Proof.
  unfold getEntry, readHeap, lookupEntry.
  destruct (h_entries h !! p); naive_solver.
Qed.

Lemma getGroup_inv (h h' : Heap) (p : Ptr) (G : Group) :
  getGroup p h = Ok (G, h') → h_groups h !! p = Some G ∧ h' = h.
Proof.
  unfold getGroup, readHeap, lookupGroup.
  destruct (h_groups h !! p); naive_solver.
Qed.

(** ** Moves to the current parent *)

(** C10: [moveEntry] and [moveGroup] return at once when the object already
    resides under the requested destination: the heap after the call is the
    heap before it, so nothing is reparented and no [TimeInfo] and no
    update-timeinfo flag of the object, of its old parent or of the
    destination is modified.  The destination may be null, for an object
    that has no parent. *)
Theorem move_to_current_parent_is_noop
    (h : Heap) (entry group : Ptr) (E : Entry) (G : Group) :
  h_entries h !! entry = Some E →
  h_groups h !! group = Some G →
  moveEntry entry (e_group E) h = Ok (tt, h)
  ∧ moveGroup group (g_parent G) h = Ok (tt, h).
Proof.
  intros HE HG. split.
  - unfold moveEntry. rewrite (bind_Ok _ _ _ _ _ (getEntry_Ok _ _ _ HE)).
    by rewrite decide_True.
  - unfold moveGroup. rewrite (bind_Ok _ _ _ _ _ (getGroup_Ok _ _ _ HG)).
    by rewrite decide_True.
Qed.

(** ** A merger without a context *)

(** C9: a merger constructed with a null source or a null target holds the
    default context, every pointer of which is null, and the heap is left as
    it was; [merge] on that merger dereferences the null source group and
    faults: it does not return [false]. *)
Theorem merge_without_context_faults
    (fuel : nat) (h : Heap) (source target : option Ptr) :
  Merger_ofDatabases None target h
    = Ok (mkMerger ModeDefault MergeContext_default, h)
  ∧ Merger_ofDatabases source None h
    = Ok (mkMerger ModeDefault MergeContext_default, h)
  ∧ Merger_ofGroups None target h
    = Ok (mkMerger ModeDefault MergeContext_default, h)
  ∧ Merger_ofGroups source None h
    = Ok (mkMerger ModeDefault MergeContext_default, h)
  ∧ merge (S fuel) (mkMerger ModeDefault MergeContext_default) h = Fault.
Proof.
  repeat split; try done.
  - by destruct source.
  - by destruct source.
Qed.

Lemma move_to_current_parent_is_noop_witness :
  moveEntry 40 (Some 21%positive) movedEntryHeap = Ok (tt, movedEntryHeap)
  ∧ moveGroup 21 (Some 20%positive) movedEntryHeap = Ok (tt, movedEntryHeap).
Proof.
  exact (move_to_current_parent_is_noop movedEntryHeap 40 21
           (plainEntry 7 "e" 1000 10000 21)
           (plainGroup 101 "a" 0 (Some 20%positive) (Some 2%positive)
                       [40%positive] [])
           eq_refl eq_refl).
Defined.

(** ** Evaluations of the merge on concrete databases *)

(** C3: the comparison of [resolveGroupConflict] is made at native
    precision.  Two runs on inputs that differ only in the millisecond
    component of the source group's modification time (5.000 s against
    5.400 s, the target's being 5.000 s) decide differently: the first
    records no change and returns [false], the second dispatches the group
    conflict, records "Overwriting" and returns [true]. *)
Theorem group_conflict_depends_on_milliseconds :
  Clock_serialized 5400 = Clock_serialized 5000
  ∧ Merger_ofDatabases (Some 1%positive) (Some 2%positive) (groupPairHeap 5000)
    = Ok (twoDatabasesMerger, groupPairHeap 5000)
  ∧ Merger_ofDatabases (Some 1%positive) (Some 2%positive) (groupPairHeap 5400)
    = Ok (twoDatabasesMerger, groupPairHeap 5400)
  ∧ resolveGroupConflict (m_context twoDatabasesMerger) 11 21 (groupPairHeap 5000)
    = Ok ([], groupPairHeap 5000)
  ∧ resolveGroupConflict (m_context twoDatabasesMerger) 11 21 (groupPairHeap 5400)
    = Ok ([Overwriting "a" 101], groupPairHeap 5400)
  ∧ result (merge 5 twoDatabasesMerger (groupPairHeap 5000)) = Some false
  ∧ result (merge 5 twoDatabasesMerger (groupPairHeap 5400)) = Some true.
Proof. repeat split; vm_compute; reflexivity. Qed.

(** C4: under the default mode, which resolves to [KeepNewer], a second
    [merge] run immediately after the first is not a no-op when a source
    group is newer than its target counterpart and equal in content: the
    first run leaves the target group's modification time behind the
    source's, so the second run records "Overwriting" again, marks the
    target modified again and returns [true]. *)
Theorem second_merge_reports_change :
  ∃ h1 h2 : Heap,
    effectiveMergeMode 5 (m_mode twoDatabasesMerger) (m_context twoDatabasesMerger)
                       (groupPairHeap 9000) = Ok (KeepNewer, groupPairHeap 9000)
    ∧ merge 5 twoDatabasesMerger (groupPairHeap 9000) = Ok (true, h1)
    ∧ h_groups h1 = h_groups (groupPairHeap 9000)
    ∧ merge 5 twoDatabasesMerger h1 = Ok (true, h2)
    ∧ mergeGroup 5 5 ModeDefault (m_context twoDatabasesMerger) h1
      = Ok ([Overwriting "a" 101], h1).
Proof.
  eexists _, _. split; [by vm_compute|].
  split; [by vm_compute|]. split; [by vm_compute|].
  split; by vm_compute.
Qed.

(** C6: when both sides hold a tombstone for a UUID that has no live object
    in the target, the deletion pass retains the target's tombstone as it
    is, also when the source's deletion time is the earlier one: for the
    source's tombstone at 1 s and the target's at 7 s the target keeps
    7 s. *)
Theorem later_tombstone_is_retained :
  ∃ h' : Heap,
    findEntryByUuid 5 tombstonePairHeap 20 555 = Ok None
    ∧ findGroupByUuid 5 tombstonePairHeap 20 555 = Ok None
    ∧ mergeDeletions 5 (m_context twoDatabasesMerger) tombstonePairHeap
      = Ok ([], h')
    ∧ db_deletedObjects <$> h_dbs h' !! 2%positive
      = Some [mkDeletedObject 555 7000].
Proof. eexists. repeat split; by vm_compute. Qed.

(** C8: a target entry that the structural pass relocates keeps its own
    [location_changed].  The source holds the entry under group [b] with
    [location_changed] 20 s, the target under group [a] with 10 s; after
    [mergeGroup] on the pair of groups [b] the target entry is under the
    target's [b] and its [location_changed] is still 10 s. *)
Theorem relocated_entry_keeps_location_changed :
  ∃ h' : Heap,
    mergeGroup_entry 5 ModeDefault
      (mkMergeContext (Some 1%positive) (Some 2%positive) (Some 10%positive)
                      (Some 20%positive) (Some 12%positive) (Some 22%positive))
      30 movedEntryHeap
    = Ok ([Relocating "e" 7], h')
    ∧ h_entries h' !! 40%positive
      = Some (plainEntry 7 "e" 1000 10000 22)
    ∧ h_entries h' !! 30%positive
      = Some (plainEntry 7 "e" 1000 20000 12)
    ∧ (finalHeap (merge 5 twoDatabasesMerger movedEntryHeap)
         ≫= λ h, h_entries h !! 40%positive)
      = Some (plainEntry 7 "e" 1000 10000 22).
Proof. eexists. repeat split; by vm_compute. Qed.

(** ** The effect of the object interface on a heap with known objects *)

Lemma Heap_eta (h : Heap) :
  mkHeap (h_entries h) (h_groups h) (h_dbs h) (h_next h) (h_now h) (h_uuidSeed h) = h.
Proof. by destruct h. Qed.

Lemma modifyEntry_Ok (h : Heap) (p : Ptr) (E : Entry) (f : Entry → Entry) :
  h_entries h !! p = Some E →
  modifyEntry p f h = Ok (tt, Heap_withEntries (<[p:=f E]> (h_entries h)) h).
Proof.
  intros H. unfold modifyEntry. by rewrite (bind_Ok _ _ _ _ _ (getEntry_Ok _ _ _ H)).
Qed.

Lemma modifyGroup_Ok (h : Heap) (p : Ptr) (G : Group) (f : Group → Group) :
  h_groups h !! p = Some G →
  modifyGroup p f h = Ok (tt, Heap_withGroups (<[p:=f G]> (h_groups h)) h).
Proof.
  intros H. unfold modifyGroup. by rewrite (bind_Ok _ _ _ _ _ (getGroup_Ok _ _ _ H)).
Qed.

Lemma modifyDb_Ok (h : Heap) (p : Ptr) (d : Database) (f : Database → Database) :
  h_dbs h !! p = Some d →
  modifyDb p f h = Ok (tt, Heap_withDbs (<[p:=f d]> (h_dbs h)) h).
Proof.
  intros H. unfold modifyDb. by rewrite (bind_Ok _ _ _ _ _ (getDb_Ok _ _ _ H)).
Qed.

Lemma Group_touch_suspended (h : Heap) (p : Ptr) (G : Group) :
  h_groups h !! p = Some G → g_updateTimeinfo G = false →
  Group_touch p h = Ok (tt, h).
Proof.
  intros H Hflag. unfold Group_touch, Clock_currentDateTimeUtc.
  unfold mbind at 1, M_bind at 1. rewrite (modifyGroup_Ok _ _ _ _ H).
  unfold Group_emitModified. rewrite Hflag, insert_id by done.
  unfold Heap_withGroups. by rewrite Heap_eta.
Qed.

Lemma Group_withUpdateTimeinfo_restore (G : Group) (l : list Ptr) :
  Group_withUpdateTimeinfo (g_updateTimeinfo G)
    (Group_withEntries l (Group_withUpdateTimeinfo false G))
  = Group_withEntries l G.
Proof. by destruct G. Qed.

Lemma Database_withDeletedObjects_restore (D : Database) (l : list DeletedObject) :
  Database_withDeletedObjects (db_deletedObjects D) (Database_withDeletedObjects l D) = D.
Proof. by destruct D. Qed.

Ltac run_with H := rewrite (bind_Ok _ _ _ _ _ H).


Lemma mret_Ok {A} (a : A) (h : Heap) : (mret a : M A) h = Ok (a, h).
Proof. done. Qed.

Lemma deref_Some {A} (a : A) (h : Heap) : deref (Some a) h = Ok (a, h).
Proof. done. Qed.

Lemma Entry_database_Ok (h : Heap) (e g : Ptr) (E : Entry) (G : Group) :
  h_entries h !! e = Some E → e_group E = Some g → h_groups h !! g = Some G →
  Entry_database e h = Ok (g_db G, h).
Proof.
  intros HE Hg HG. unfold Entry_database. run_with (getEntry_Ok _ _ _ HE).
  rewrite Hg. unfold Group_database. by run_with (getGroup_Ok _ _ _ HG).
Qed.

Lemma Group_database_Ok (h : Heap) (g : Ptr) (G : Group) :
  h_groups h !! g = Some G → Group_database g h = Ok (g_db G, h).
Proof. intros HG. unfold Group_database. by run_with (getGroup_Ok _ _ _ HG). Qed.

Lemma Database_deletedObjects_Ok (h : Heap) (d : Ptr) (D : Database) :
  h_dbs h !! d = Some D → Database_deletedObjects d h = Ok (db_deletedObjects D, h).
Proof. intros HD. unfold Database_deletedObjects. by run_with (getDb_Ok _ _ _ HD). Qed.

Lemma Database_metadata_Ok (h : Heap) (d : Ptr) (D : Database) :
  h_dbs h !! d = Some D → Database_metadata d h = Ok (db_metadata D, h).
Proof. intros HD. unfold Database_metadata. by run_with (getDb_Ok _ _ _ HD). Qed.

Lemma Group_canUpdateTimeinfo_Ok (h : Heap) (g : Ptr) (G : Group) :
  h_groups h !! g = Some G → Group_canUpdateTimeinfo g h = Ok (g_updateTimeinfo G, h).
Proof. intros HG. unfold Group_canUpdateTimeinfo. by run_with (getGroup_Ok _ _ _ HG). Qed.

Lemma Entry_canUpdateTimeinfo_Ok (h : Heap) (e : Ptr) (E : Entry) :
  h_entries h !! e = Some E → Entry_canUpdateTimeinfo e h = Ok (e_updateTimeinfo E, h).
Proof. intros HE. unfold Entry_canUpdateTimeinfo. by run_with (getEntry_Ok _ _ _ HE). Qed.

Ltac lookup_solve :=
  simpl; first [eassumption | apply lookup_insert_eq
               | by simplify_map_eq ].
Ltac mstep lem :=
  erewrite bind_Ok; [ | eapply lem; lookup_solve ].


Lemma Group_removeEntry_suspended (h : Heap) (g e : Ptr) (G : Group) :
  h_groups h !! g = Some G → g_updateTimeinfo G = false →
  Group_removeEntry g e h
  = Ok (tt, Heap_withGroups
              (<[g := Group_withEntries (filter (λ x, x ≠ e) (g_entries G)) G]>
                 (h_groups h)) h).
Proof.
  intros HG Hflag. unfold Group_removeEntry.
  mstep modifyGroup_Ok.
  erewrite Group_touch_suspended; [done|lookup_solve|by destruct G].
Qed.

Lemma Database_addDeletedObject_Ok (h : Heap) (d : Ptr) (D : Database) (id : Uuid) :
  h_dbs h !! d = Some D →
  Database_addDeletedObject d id h
  = Ok (tt, Heap_withDbs
              (<[d := Database_withDeletedObjects
                        (db_deletedObjects D ++ [mkDeletedObject id (h_now h)]) D]>
                 (h_dbs h)) h).
Proof.
  intros HD. unfold Database_addDeletedObject, Clock_currentDateTimeUtc.
  unfold mbind at 1, M_bind at 1. by rewrite (modifyDb_Ok _ _ _ _ HD).
Qed.

Lemma Entry_delete_suspended (h : Heap) (e g d : Ptr) (E : Entry) (G : Group)
    (D : Database) :
  h_entries h !! e = Some E → e_group E = Some g →
  h_groups h !! g = Some G → g_updateTimeinfo G = false →
  g_db G = Some d → h_dbs h !! d = Some D →
  Entry_delete e h
  = Ok (tt, mkHeap (delete e (h_entries h))
              (<[g := Group_withEntries (filter (λ x, x ≠ e) (g_entries G)) G]>
                 (h_groups h))
              (<[d := Database_withDeletedObjects
                        (db_deletedObjects D
                         ++ [mkDeletedObject (e_uuid E) (h_now h)]) D]> (h_dbs h))
              (h_next h) (h_now h) (h_uuidSeed h)).
Proof.
  intros HE Hg HG Hflag Hd HD. unfold Entry_delete.
  mstep getEntry_Ok. rewrite Hg.
  erewrite bind_Ok; cycle 1.
  { mstep Group_removeEntry_suspended.
    mstep Group_database_Ok. simpl. rewrite Hd.
    by erewrite Database_addDeletedObject_Ok by lookup_solve. }
  done.
Qed.

Lemma eraseEntry_Ok (h : Heap) (e g d : Ptr) (E : Entry) (G : Group) (D : Database) :
  h_entries h !! e = Some E → e_group E = Some g →
  h_groups h !! g = Some G → g_db G = Some d → h_dbs h !! d = Some D →
  eraseEntry e h = Ok (tt, heapWithoutEntry e g G h).
Proof.
  intros HE Hg HG Hd HD. unfold eraseEntry.
  mstep Entry_database_Ok. rewrite Hd.
  mstep @deref_Some.
  mstep Database_deletedObjects_Ok.
  mstep getEntry_Ok. rewrite Hg.
  mstep Group_canUpdateTimeinfo_Ok.
  unfold Group_setUpdateTimeinfo.
  mstep modifyGroup_Ok.
  erewrite bind_Ok;
    [|eapply Entry_delete_suspended; try lookup_solve; by destruct G].
  mstep modifyGroup_Ok.
  unfold Database_setDeletedObjects.
  erewrite modifyDb_Ok by lookup_solve.
  unfold heapWithoutEntry. simpl. f_equal. f_equal.
  rewrite !insert_insert_eq, Group_withUpdateTimeinfo_restore.
  rewrite Database_withDeletedObjects_restore, (insert_id _ _ _ HD).
  done.
Qed.

Lemma Entry_clone_Ok (h : Heap) (e : Ptr) (E : Entry) :
  h_entries h !! e = Some E →
  Entry_clone e CloneIncludeHistory h
  = Ok (h_next h,
        mkHeap (<[h_next h := clonedEntry E None]> (h_entries h)) (h_groups h)
               (h_dbs h) (Pos.succ (h_next h)) (h_now h) (h_uuidSeed h)).
Proof.
  intros HE. unfold Entry_clone. mstep getEntry_Ok.
  change (testFlag CloneIncludeHistory CloneNewUuid) with false.
  change (testFlag CloneIncludeHistory CloneIncludeHistory) with true.
  cbv beta iota.
  rewrite (bind_Ok _ _ _ _ _ (mret_Ok _ _)).
  unfold alloc at 1. unfold mbind at 1, M_bind at 1. done.
Qed.

Lemma Entry_withUpdateTimeinfo_restore (E : Entry) (g : option Ptr) :
  Entry_withUpdateTimeinfo (e_updateTimeinfo E)
    (Entry_withGroup g (Entry_withUpdateTimeinfo false E))
  = Entry_withGroup g E.
Proof. by destruct E. Qed.

Lemma Group_addEntry_suspended (h : Heap) (g e : Ptr) (G : Group) :
  h_groups h !! g = Some G → g_updateTimeinfo G = false →
  Group_addEntry g e h
  = Ok (tt, Heap_withGroups
              (<[g := Group_withEntries (g_entries G ++ [e]) G]> (h_groups h)) h).
Proof.
  intros HG Hflag. unfold Group_addEntry.
  mstep modifyGroup_Ok.
  erewrite Group_touch_suspended; [done|lookup_solve|by destruct G].
Qed.

(** [moveEntry] of a detached entry under a group. *)
Lemma moveEntry_attach_Ok (h : Heap) (e g : Ptr) (E : Entry) (G : Group) :
  h_entries h !! e = Some E → e_group E = None → h_groups h !! g = Some G →
  moveEntry e (Some g) h
  = Ok (tt, mkHeap (<[e := Entry_withGroup (Some g) E]> (h_entries h))
              (<[g := Group_withEntries (g_entries G ++ [e]) G]> (h_groups h))
              (h_dbs h) (h_next h) (h_now h) (h_uuidSeed h)).
Proof.
  intros HE Hg HG. unfold moveEntry.
  mstep getEntry_Ok. rewrite Hg, decide_False by done.
  rewrite (bind_Ok _ _ _ _ _ (mret_Ok _ _)).
  rewrite (bind_Ok _ _ _ _ _ (mret_Ok _ _)).
  mstep Group_canUpdateTimeinfo_Ok.
  unfold Group_setUpdateTimeinfo at 1. mstep modifyGroup_Ok.
  mstep Entry_canUpdateTimeinfo_Ok.
  unfold Entry_setUpdateTimeinfo at 1. mstep modifyEntry_Ok.
  erewrite bind_Ok; cycle 1.
  { unfold Entry_setGroup. rewrite (bind_Ok _ _ _ _ _ (deref_Some _ _)).
    mstep getEntry_Ok. simpl. rewrite Hg, decide_False by done.
    rewrite (bind_Ok _ _ _ _ _ (mret_Ok _ _)).
    mstep modifyEntry_Ok.
    erewrite bind_Ok;
      [|eapply Group_addEntry_suspended; [lookup_solve|by destruct G]].
    unfold Clock_currentDateTimeUtc. unfold mbind at 1, M_bind at 1.
    erewrite modifyEntry_Ok by lookup_solve. simpl. done. }
  unfold Entry_setUpdateTimeinfo. mstep modifyEntry_Ok.
  unfold Group_setUpdateTimeinfo. mstep modifyGroup_Ok.
  rewrite mret_Ok. simpl. f_equal. f_equal.
  rewrite !insert_insert_eq. by destruct E, G.
Qed.

(** ** Entry conflicts under [KeepNewer] *)

(** C5: under the effective mode [KeepNewer], when the target entry's
    modification time at serialized precision is strictly less than the
    source's, [resolveEntryConflict] replaces the target entry: a deep clone
    of the source entry, history included, stands at a fresh address under
    the group that was the target entry's parent, the original target entry
    is erased from the heap and from that group, no tombstone is recorded
    and nothing else changes.  When the target's time is greater than or
    equal to the source's, the heap is unchanged and no change is
    recorded. *)
Theorem resolveEntryConflict_KeepNewer
    (fuel : nat) (mode : option MergeMode) (context : MergeContext) (h : Heap)
    (sourceEntry targetEntry g d : Ptr) (SE TE : Entry) (G : Group) (D : Database) :
  h_entries h !! sourceEntry = Some SE →
  h_entries h !! targetEntry = Some TE →
  e_group TE = Some g →
  h_groups h !! g = Some G →
  g_db G = Some d →
  h_dbs h !! d = Some D →
  h_entries h !! h_next h = None →
  effectiveMergeMode fuel mode context h = Ok (KeepNewer, h) →
  if Clock_serialized (m_lastModificationTime (e_timeInfo TE))
     <? Clock_serialized (m_lastModificationTime (e_timeInfo SE))
  then
    ∃ h' : Heap,
      resolveEntryConflict fuel mode context sourceEntry targetEntry h
      = Ok ([Overwriting (Entry_title SE) (e_uuid SE)], h')
      ∧ h_entries h' !! targetEntry = None
      ∧ h_entries h' !! h_next h = Some (clonedEntry SE (Some g))
      ∧ h_groups h' !! g
        = Some (Group_withEntries
                  (filter (λ x, x ≠ targetEntry) (g_entries G) ++ [h_next h]) G)
      ∧ h_dbs h' = h_dbs h
      ∧ (∀ p, p ≠ targetEntry → p ≠ h_next h →
              h_entries h' !! p = h_entries h !! p)
      ∧ (∀ p, p ≠ g → h_groups h' !! p = h_groups h !! p)
  else
    resolveEntryConflict fuel mode context sourceEntry targetEntry h = Ok ([], h).
Proof.
  intros HSE HTE Hg HG Hd HD Hfresh Hmode.
  assert (Hne : h_next h ≠ targetEntry) by (intros Heq; congruence).
  unfold resolveEntryConflict.
  mstep getEntry_Ok. mstep getEntry_Ok.
  rewrite (bind_Ok _ _ _ _ _ Hmode).
  unfold lastModificationTime, atPrecision.
  destruct (_ <? _); [|done].
  mstep Entry_clone_Ok. mstep getEntry_Ok. rewrite Hg.
  erewrite bind_Ok; [|by eapply moveEntry_attach_Ok; lookup_solve].
  erewrite bind_Ok;
    [|eapply (eraseEntry_Ok _ targetEntry g d TE); by lookup_solve].
  mstep getEntry_Ok.
  eexists. split; [done|]. simpl.
  repeat split.
  - by rewrite lookup_delete_eq.
  - by rewrite lookup_delete_ne, lookup_insert_eq.
  - rewrite lookup_insert_eq. destruct G; unfold Group_withEntries; simpl.
    do 2 f_equal.
    by rewrite list.filter_app, filter_cons_True, filter_nil.
  - intros p Hp1 Hp2. by rewrite lookup_delete_ne, !lookup_insert_ne.
  - intros p Hp. by rewrite !lookup_insert_ne.
Qed.

Lemma resolveEntryConflict_KeepNewer_witness :
  ∃ h' : Heap,
    resolveEntryConflict 5 ModeDefault (m_context twoDatabasesMerger) 30 40
                         newerSourceHeap
    = Ok ([Overwriting "e2" 7], h')
    ∧ h_entries h' !! 40%positive = None
    ∧ h_entries h' !! 1000%positive
      = Some (clonedEntry newerSourceEntry (Some 21%positive))
    ∧ h_groups h' !! 21%positive
      = Some (plainGroup 101 "a" 0 (Some 20%positive) (Some 2%positive)
                         [1000%positive] [])
    ∧ h_dbs h' = h_dbs newerSourceHeap
    ∧ (∀ p, p ≠ 40%positive → p ≠ 1000%positive →
            h_entries h' !! p = h_entries newerSourceHeap !! p)
    ∧ (∀ p, p ≠ 21%positive → h_groups h' !! p = h_groups newerSourceHeap !! p).
Proof.
  exact (resolveEntryConflict_KeepNewer 5 ModeDefault (m_context twoDatabasesMerger)
           newerSourceHeap 30 40 21 2 newerSourceEntry (plainEntry 7 "e" 1000 0 21)
           (plainGroup 101 "a" 0 (Some 20%positive) (Some 2%positive) [40%positive] [])
           (mkDatabase 20 [] (mkMetadata "target" 10 ∅) false)
           eq_refl eq_refl eq_refl eq_refl eq_refl eq_refl eq_refl eq_refl).
Defined.

(** ** The history fold *)

Lemma compareGeneric_refl (x : Z) : compareGeneric x x = 0.
Proof. unfold compareGeneric. by rewrite Z.eqb_refl. Qed.

Lemma compare_QDateTime_refl (x : QDateTime) (options : CompareOptions) :
  compare_QDateTime x x options = 0.
Proof.
  unfold compare_QDateTime. repeat case_match; auto using compareGeneric_refl.
Qed.

Lemma TimeInfo_equals_refl (ti : TimeInfo) (options : CompareOptions) :
  TimeInfo_equals ti ti options = true.
Proof.
  unfold TimeInfo_equals, expiryTime, atPrecision, compare_enabled, compare_int.
  rewrite !compare_QDateTime_refl. simpl.
  destruct (m_expires ti); rewrite ?compare_QDateTime_refl; simpl;
    destruct (_ && _); by rewrite ?compareGeneric_refl.
Qed.

Lemma Entry_withHistory_id (E : Entry) : Entry_withHistory (e_history E) E = E.
Proof. by destruct E. Qed.

Lemma Heap_withEntries_id (h : Heap) (p : Ptr) (E : Entry) :
  h_entries h !! p = Some E → Heap_withEntries (<[p:=E]> (h_entries h)) h = h.
Proof. intros H. rewrite insert_id by done. by destruct h. Qed.

Lemma Entry_touch_blocked (h : Heap) (p : Ptr) (E : Entry) :
  h_entries h !! p = Some E → e_signalsBlocked E = true →
  Entry_touch p h = Ok (tt, h).
Proof.
  intros H Hb. unfold Entry_touch, Clock_currentDateTimeUtc.
  unfold mbind at 1, M_bind at 1. rewrite (modifyEntry_Ok _ _ _ _ H).
  unfold Entry_emitModified. rewrite Hb. by rewrite Heap_withEntries_id.
Qed.

Lemma Entry_blockSignals_Ok (h : Heap) (p : Ptr) (E : Entry) (block : bool) :
  h_entries h !! p = Some E →
  Entry_blockSignals p block h
  = Ok (e_signalsBlocked E,
        Heap_withEntries (<[p := Entry_withSignalsBlocked block E]> (h_entries h)) h).
Proof. intros H. unfold Entry_blockSignals. by mstep getEntry_Ok. Qed.

Lemma Entry_removeHistoryItems_blocked (h : Heap) (p : Ptr) (E : Entry)
    (items : list HistoryItem) :
  h_entries h !! p = Some E → e_signalsBlocked E = true →
  Entry_removeHistoryItems p items h
  = Ok (tt, Heap_withEntries
              (<[p := Entry_withHistory (filter (λ i, i ∉ items) (e_history E)) E]>
                 (h_entries h)) h).
Proof.
  intros H Hb. unfold Entry_removeHistoryItems. mstep modifyEntry_Ok.
  erewrite Entry_touch_blocked; [done|lookup_solve|by destruct E].
Qed.

Lemma Entry_addHistoryItem_blocked (h : Heap) (p : Ptr) (E : Entry)
    (item : HistoryItem) :
  h_entries h !! p = Some E → e_signalsBlocked E = true →
  Entry_addHistoryItem p item h
  = Ok (tt, Heap_withEntries
              (<[p := Entry_withHistory (e_history E ++ [item]) E]> (h_entries h)) h).
Proof.
  intros H Hb. unfold Entry_addHistoryItem. mstep modifyEntry_Ok.
  erewrite Entry_touch_blocked; [done|lookup_solve|by destruct E].
Qed.

Lemma Entry_addHistoryItems_blocked (items : list HistoryItem) (h : Heap) (p : Ptr)
    (E : Entry) :
  h_entries h !! p = Some E → e_signalsBlocked E = true →
  forM_ items (Entry_addHistoryItem p) h
  = Ok (tt, Heap_withEntries
              (<[p := Entry_withHistory (e_history E ++ items) E]> (h_entries h)) h).
Proof.
  revert h E. induction items as [|item items IH]; intros h E H Hb; simpl.
  - by rewrite app_nil_r, Entry_withHistory_id, Heap_withEntries_id.
  - erewrite bind_Ok; [|by apply Entry_addHistoryItem_blocked].
    erewrite IH; [|lookup_solve|by destruct E].
    unfold Heap_withEntries; simpl. rewrite insert_insert_eq.
    destruct E; unfold Entry_withHistory; simpl. by rewrite <-app_assoc.
Qed.

Lemma Entry_truncateHistory_blocked (h : Heap) (p g d : Ptr) (E : Entry) (G : Group)
    (D : Database) :
  h_entries h !! p = Some E → e_signalsBlocked E = true →
  e_group E = Some g → h_groups h !! g = Some G → g_db G = Some d →
  h_dbs h !! d = Some D →
  ∃ history : list HistoryItem,
    Entry_truncateHistory p h
    = Ok (tt, Heap_withEntries (<[p := Entry_withHistory history E]> (h_entries h)) h).
Proof.
  intros H Hb Hg HG Hd HD. unfold Entry_truncateHistory.
  mstep Entry_database_Ok. rewrite Hd. mstep Database_metadata_Ok.
  destruct (_ <? _).
  - eexists. mstep modifyEntry_Ok.
    erewrite Entry_touch_blocked; [done|lookup_solve|by destruct E].
  - exists (e_history E). by rewrite Entry_withHistory_id, Heap_withEntries_id.
Qed.

(** C7: [mergeHistory] returns, and the entry that is kept has the same
    [TimeInfo] after the fold as before it (creation, last modification,
    last access and expiry times, expires flag, usage count and location
    change, so the assertion [timeInfo == targetEntry->timeInfo()] holds);
    at most its history list differs, and no other object of the heap
    changes. *)
Theorem mergeHistory_keeps_TimeInfo
    (h : Heap) (sourceEntry targetEntry g d : Ptr) (SE TE : Entry) (G : Group)
    (D : Database) :
  h_entries h !! sourceEntry = Some SE →
  h_entries h !! targetEntry = Some TE →
  e_group TE = Some g →
  h_groups h !! g = Some G →
  g_db G = Some d →
  h_dbs h !! d = Some D →
  ∃ (changed : bool) (h' : Heap) (TE' : Entry),
    mergeHistory sourceEntry targetEntry h = Ok (changed, h')
    ∧ h_entries h' !! targetEntry = Some TE'
    ∧ e_timeInfo TE' = e_timeInfo TE
    ∧ TimeInfo_eqb (e_timeInfo TE) (e_timeInfo TE') = true
    ∧ TE' = Entry_withHistory (e_history TE') TE
    ∧ h' = Heap_withEntries (<[targetEntry := TE']> (h_entries h)) h.
Proof.
  intros HSE HTE Hg HG Hd HD. unfold mergeHistory.
  mstep getEntry_Ok. mstep getEntry_Ok.
  mstep Entry_database_Ok. rewrite Hd.
  rewrite (bind_Ok _ _ _ _ _ (deref_Some _ _)).
  mstep Database_metadata_Ok.
  destruct (historyChanged _ _ _ _); simpl.
  - mstep Entry_blockSignals_Ok. mstep Entry_canUpdateTimeinfo_Ok.
    unfold Entry_setUpdateTimeinfo at 1. mstep modifyEntry_Ok.
    erewrite bind_Ok;
      [|eapply Entry_removeHistoryItems_blocked; [lookup_solve|by destruct TE]].
    erewrite bind_Ok;
      [|eapply Entry_addHistoryItems_blocked; [lookup_solve|by destruct TE]].
    match goal with
    | |- context [(Entry_truncateHistory ?p ≫= _)
                    (Heap_withEntries (<[_ := ?E]> ?m) ?h0)] =>
        edestruct (Entry_truncateHistory_blocked
                     (Heap_withEntries (<[p := E]> m) h0) p g d E G D)
          as [history Htrunc];
          [lookup_solve|by destruct TE|by destruct TE|done|done|done|]
    end.
    rewrite (bind_Ok _ _ _ _ _ Htrunc).
    mstep Entry_blockSignals_Ok.
    unfold Entry_setUpdateTimeinfo. mstep modifyEntry_Ok.
    rewrite mret_Ok. eexists true, _, _. split; [done|]. simpl.
    rewrite !insert_insert_eq, lookup_insert_eq.
    split; [done|]. destruct TE; simpl.
    split; [done|]. split; [apply TimeInfo_equals_refl|]. done.
  - exists false, h, TE. rewrite mret_Ok, Entry_withHistory_id, Heap_withEntries_id by done.
    split; [done|]. split; [done|]. split; [done|].
    split; [apply TimeInfo_equals_refl|done].
Qed.

Lemma mergeHistory_keeps_TimeInfo_witness :
  ∃ (changed : bool) (h' : Heap) (TE' : Entry),
    mergeHistory 30 40 newerSourceHeap = Ok (changed, h')
    ∧ h_entries h' !! 40%positive = Some TE'
    ∧ e_timeInfo TE' = stamps 1000 0
    ∧ TimeInfo_eqb (stamps 1000 0) (e_timeInfo TE') = true
    ∧ TE' = Entry_withHistory (e_history TE') (plainEntry 7 "e" 1000 0 21)
    ∧ h' = Heap_withEntries (<[40%positive := TE']> (h_entries newerSourceHeap))
                            newerSourceHeap.
Proof.
  exact (mergeHistory_keeps_TimeInfo newerSourceHeap 30 40 21 2 newerSourceEntry
           (plainEntry 7 "e" 1000 0 21)
           (plainGroup 101 "a" 0 (Some 20%positive) (Some 2%positive) [40%positive] [])
           (mkDatabase 20 [] (mkMetadata "target" 10 ∅) false)
           eq_refl eq_refl eq_refl eq_refl eq_refl eq_refl).
Defined.

(** ** Well-formed trees and their traversals *)

Lemma mapR_Ok {A B} (f : A → Res B) (l : list A) (ys : list B) :
  mapR f l = Ok ys ↔ Forall2 (λ x y, f x = Ok y) l ys.
Proof.
  revert ys. induction l as [|x l IH]; intros ys; simpl.
  - split; [intros [= <-]; constructor|by inversion 1].
  - unfold mbind, Res_bind. destruct (f x) as [y| |] eqn:Hx.
    + destruct (mapR f l) as [ys'| |] eqn:Hl.
      * split.
        -- intros [= <-]. constructor; [done|]. by apply IH.
        -- inversion 1 as [|? y' ? ys'' Hy Hys]; subst.
           apply IH in Hys. congruence.
      * split; [done|]. inversion 1 as [|? y' ? ys'' Hy Hys]; subst.
        apply IH in Hys. done.
      * split; [done|]. inversion 1 as [|? y' ? ys'' Hy Hys]; subst.
        apply IH in Hys. done.
    + split; [done|]. inversion 1; congruence.
    + split; [done|]. inversion 1; congruence.
Qed.

Lemma mapR_total {A B} (f : A → Res B) (l : list A) :
  (∀ x, x ∈ l → ∃ y, f x = Ok y) → ∃ ys, mapR f l = Ok ys.
Proof.
  induction l as [|x l IH]; intros H; simpl; [by eexists|].
  destruct (H x) as [y Hy]; [left|]. rewrite Hy.
  destruct IH as [ys Hys]; [intros; apply H; by right|].
  unfold mbind, Res_bind. rewrite Hys. by eexists.
Qed.

Lemma treeOk_S (n : nat) (h : Heap) (db g : Ptr) :
  treeOk (S n) h db g = true ↔
  ∃ G, h_groups h !! g = Some G
       ∧ g_db G = Some db
       ∧ (∀ e, e ∈ g_entries G →
               ∃ E, h_entries h !! e = Some E ∧ e_group E = Some g)
       ∧ (∀ c, c ∈ g_children G →
               (∃ C, h_groups h !! c = Some C ∧ g_parent C = Some g)
               ∧ treeOk n h db c = true).
Proof.
  simpl. destruct (h_groups h !! g) as [G|]; [|by split; [|intros (? & ? & _)]].
  rewrite !andb_true_iff, bool_decide_eq_true, !forallb_forall.
  split.
  - intros [[Hdb He] Hc]. exists G. repeat split; try done.
    + intros e Hin. apply list_elem_of_In, He in Hin. unfold entryOk in Hin.
      destruct (h_entries h !! e) as [E|]; [|done].
      apply bool_decide_eq_true in Hin. by exists E.
    + apply list_elem_of_In, Hc, andb_true_iff in H as [H _].
      unfold childOk in H. destruct (h_groups h !! c) as [C|]; [|done].
      apply bool_decide_eq_true in H. by exists C.
    + by apply list_elem_of_In, Hc, andb_true_iff in H as [_ H].
  - intros (G' & [= <-] & Hdb & He & Hc). repeat split; try done.
    + intros e Hin. apply list_elem_of_In, He in Hin as (E & HE & Hg).
      unfold entryOk. rewrite HE. by apply bool_decide_eq_true.
    + intros c Hin. apply list_elem_of_In, Hc in Hin as [(C & HC & Hp) Hok].
      apply andb_true_iff. split; [|done].
      unfold childOk. rewrite HC. by apply bool_decide_eq_true.
Qed.

Lemma treeOk_mono (n : nat) (h : Heap) (db g : Ptr) :
  treeOk n h db g = true → treeOk (S n) h db g = true.
Proof.
  revert g. induction n as [|n IH]; intros g; [done|].
  rewrite (treeOk_S n), (treeOk_S (S n)).
  intros (G & HG & Hdb & He & Hc). exists G. repeat split; try done.
  - by apply Hc.
  - apply IH. by apply Hc.
Qed.

Lemma treeOk_le (n m : nat) (h : Heap) (db g : Ptr) :
  (n ≤ m)%nat → treeOk n h db g = true → treeOk m h db g = true.
Proof. induction 1; [done|]. intros. by apply treeOk_mono, IHle. Qed.

Lemma elem_of_concat_Forall2 {A B} (R : A → list B → Prop) (l : list A)
    (ys : list (list B)) (x : B) :
  Forall2 R l ys → x ∈ concat ys → ∃ c y, c ∈ l ∧ R c y ∧ x ∈ y.
Proof.
  induction 1 as [|c y l ys Hc Hl IH]; simpl; [by inversion 1|].
  rewrite elem_of_app. intros [Hx|Hx].
  - exists c, y. split; [left|done].
  - destruct (IH Hx) as (c' & y' & Hin & HR & Hy).
    exists c', y'. split; [by right|done].
Qed.

Lemma elem_of_concat_Forall2_2 {A B} (R : A → list B → Prop) (l : list A)
    (ys : list (list B)) (c : A) :
  Forall2 R l ys → c ∈ l → ∃ y, R c y ∧ ∀ x, x ∈ y → x ∈ concat ys.
Proof.
  induction 1 as [|c' y l ys Hc Hl IH]; simpl; [by inversion 1|].
  inversion 1 as [|? ? ? Hin]; subst.
  - exists y. split; [done|]. intros x Hx. apply elem_of_app. by left.
  - destruct (IH Hin) as (y' & HR & Hy). exists y'. split; [done|].
    intros x Hx. apply elem_of_app. right. by apply Hy.
Qed.

Section Tree.

Variables (h : Heap) (db : Ptr).

Lemma lookupGroup_Ok (g : Ptr) (G : Group) :
  h_groups h !! g = Some G → lookupGroup h g = Ok G.
Proof. intros H. unfold lookupGroup. by rewrite H. Qed.

Lemma groupsRecursive_S (n : nat) (b : bool) (g : Ptr) (l : list Ptr) :
  groupsRecursive (S n) h b g = Ok l ↔
  ∃ G rest, h_groups h !! g = Some G
            ∧ Forall2 (λ c lc, groupsRecursive n h true c = Ok lc) (g_children G) rest
            ∧ l = (if b then [g] else []) ++ concat rest.
Proof.
  simpl. unfold lookupGroup. destruct (h_groups h !! g) as [G|]; simpl;
    [|by split; [|intros (? & ? & ? & _)]].
  destruct (mapR _ _) as [rest| |] eqn:Hrest; simpl.
  - apply mapR_Ok in Hrest. split.
    + intros [= <-]. by exists G, rest.
    + intros (G' & rest' & [= <-] & Hrest' & ->).
      apply mapR_Ok in Hrest, Hrest'. congruence.
  - split; [done|]. intros (G' & rest' & [= <-] & Hrest' & ->).
    apply mapR_Ok in Hrest'. congruence.
  - split; [done|]. intros (G' & rest' & [= <-] & Hrest' & ->).
    apply mapR_Ok in Hrest'. congruence.
Qed.

Lemma entriesRecursive_S (n : nat) (g : Ptr) (l : list Ptr) :
  entriesRecursive (S n) h g = Ok l ↔
  ∃ G rest, h_groups h !! g = Some G
            ∧ Forall2 (λ c lc, entriesRecursive n h c = Ok lc) (g_children G) rest
            ∧ l = g_entries G ++ concat rest.
Proof.
  simpl. unfold lookupGroup. destruct (h_groups h !! g) as [G|]; simpl;
    [|by split; [|intros (? & ? & ? & _)]].
  destruct (mapR _ _) as [rest| |] eqn:Hrest; simpl.
  - apply mapR_Ok in Hrest. split.
    + intros [= <-]. by exists G, rest.
    + intros (G' & rest' & [= <-] & Hrest' & ->).
      apply mapR_Ok in Hrest, Hrest'. congruence.
  - split; [done|]. intros (G' & rest' & [= <-] & Hrest' & ->).
    apply mapR_Ok in Hrest'. congruence.
  - split; [done|]. intros (G' & rest' & [= <-] & Hrest' & ->).
    apply mapR_Ok in Hrest'. congruence.
Qed.

Lemma groupsRecursive_total (n : nat) (b : bool) (g : Ptr) :
  treeOk n h db g = true → ∃ l, groupsRecursive n h b g = Ok l.
Proof.
  revert b g. induction n as [|n IH]; intros b g; [done|].
  rewrite treeOk_S. intros (G & HG & _ & _ & Hc).
  destruct (mapR_total (groupsRecursive n h true) (g_children G)) as [rest Hrest].
  { intros c Hin. apply IH. by apply Hc. }
  eexists. apply groupsRecursive_S. exists G, rest.
  split; [done|]. split; [by apply mapR_Ok|done].
Qed.

Lemma entriesRecursive_total (n : nat) (g : Ptr) :
  treeOk n h db g = true → ∃ l, entriesRecursive n h g = Ok l.
Proof.
  revert g. induction n as [|n IH]; intros g; [done|].
  rewrite treeOk_S. intros (G & HG & _ & _ & Hc).
  destruct (mapR_total (entriesRecursive n h) (g_children G)) as [rest Hrest].
  { intros c Hin. apply IH. by apply Hc. }
  eexists. apply entriesRecursive_S. exists G, rest.
  split; [done|]. split; [by apply mapR_Ok|done].
Qed.

(** The groups a traversal lists are well formed, and each is the start of
    the traversal or a listed child of a well-formed group. *)
Lemma groupsRecursive_elem (n : nat) (b : bool) (g : Ptr) (l : list Ptr) (x : Ptr) :
  treeOk n h db g = true → groupsRecursive n h b g = Ok l → x ∈ l →
  treeOk n h db x = true
  ∧ (x = g ∨ ∃ p P, treeOk n h db p = true ∧ h_groups h !! p = Some P
                    ∧ x ∈ g_children P).
Proof.
  revert b g l x. induction n as [|n IH]; intros b g l x Hok; [done|].
  pose proof Hok as Hok'. apply treeOk_S in Hok' as (G & HG & _ & _ & Hc).
  rewrite groupsRecursive_S. intros (G' & rest & HG' & Hrest & ->).
  assert (G' = G) as -> by congruence.
  rewrite elem_of_app. intros [Hx|Hx].
  - destruct b; [|by inversion Hx]. apply list_elem_of_singleton in Hx as ->.
    split; [done|by left].
  - destruct (elem_of_concat_Forall2 _ _ _ _ Hrest Hx) as (c & lc & Hin & Hlc & Hxc).
    destruct (Hc c Hin) as [_ Hokc].
    destruct (IH true c lc x Hokc Hlc Hxc) as [Hokx [->|(p & P & Hp & HP & Hxp)]].
    + split; [by apply treeOk_mono|]. right. by exists g, G.
    + split; [by apply treeOk_mono|]. right. exists p, P.
      split; [by apply treeOk_mono|done].
Qed.

Lemma groupsRecursive_self (n : nat) (g : Ptr) (l : list Ptr) :
  groupsRecursive n h true g = Ok l → g ∈ l.
Proof.
  destruct n; [done|]. rewrite groupsRecursive_S.
  intros (G & rest & _ & _ & ->). by left.
Qed.

(** The entries a traversal lists exist and are listed by a well-formed
    group, which they name as their parent. *)
Lemma entriesRecursive_elem (n : nat) (g : Ptr) (l : list Ptr) (e : Ptr) :
  treeOk n h db g = true → entriesRecursive n h g = Ok l → e ∈ l →
  ∃ E p P, h_entries h !! e = Some E ∧ e_group E = Some p
           ∧ treeOk n h db p = true ∧ h_groups h !! p = Some P
           ∧ e ∈ g_entries P.
Proof.
  revert g l e. induction n as [|n IH]; intros g l e Hok; [done|].
  pose proof Hok as Hok'. apply treeOk_S in Hok' as (G & HG & _ & He & Hc).
  rewrite entriesRecursive_S. intros (G' & rest & HG' & Hrest & ->).
  assert (G' = G) as -> by congruence.
  rewrite elem_of_app. intros [Hx|Hx].
  - destruct (He e Hx) as (E & HE & Hg). by exists E, g, G.
  - destruct (elem_of_concat_Forall2 _ _ _ _ Hrest Hx) as (c & lc & Hin & Hlc & Hxc).
    destruct (Hc c Hin) as [_ Hokc].
    destruct (IH c lc e Hokc Hlc Hxc) as (E & p & P & HE & Hg & Hp & HP & Hin').
    exists E, p, P. repeat split; try done. by apply treeOk_mono.
Qed.

Lemma firstEntryWithUuid_total (id : Uuid) (l : list Ptr) :
  (∀ e, e ∈ l → is_Some (h_entries h !! e)) →
  ∃ r, firstEntryWithUuid h id l = Ok r.
Proof.
  induction l as [|e l IH]; intros H; simpl; [by eexists|].
  destruct (H e) as [E HE]; [left|]. unfold lookupEntry. rewrite HE. simpl.
  case_decide; [by eexists|]. apply IH. intros. apply H. by right.
Qed.

Lemma firstEntryWithUuid_Some (id : Uuid) (l : list Ptr) (e : Ptr) :
  firstEntryWithUuid h id l = Ok (Some e) →
  e ∈ l ∧ ∃ E, h_entries h !! e = Some E ∧ e_uuid E = id.
Proof.
  induction l as [|e' l IH]; simpl; [done|].
  unfold lookupEntry. destruct (h_entries h !! e') as [E|] eqn:HE; [|done]. simpl.
  case_decide.
  - intros [= <-]. split; [left|by exists E].
  - intros Hl. destruct (IH Hl) as [Hin HE']. split; [by right|done].
Qed.

Lemma firstGroupWithUuid_total (id : Uuid) (l : list Ptr) :
  (∀ g, g ∈ l → is_Some (h_groups h !! g)) →
  ∃ r, firstGroupWithUuid h id l = Ok r.
Proof.
  induction l as [|g l IH]; intros H; simpl; [by eexists|].
  destruct (H g) as [G HG]; [left|]. unfold lookupGroup. rewrite HG. simpl.
  case_decide; [by eexists|]. apply IH. intros. apply H. by right.
Qed.

Lemma firstGroupWithUuid_Some (id : Uuid) (l : list Ptr) (g : Ptr) :
  firstGroupWithUuid h id l = Ok (Some g) →
  g ∈ l ∧ ∃ G, h_groups h !! g = Some G ∧ g_uuid G = id.
Proof.
  induction l as [|g' l IH]; simpl; [done|].
  unfold lookupGroup. destruct (h_groups h !! g') as [G|] eqn:HG; [|done]. simpl.
  case_decide.
  - intros [= <-]. split; [left|by exists G].
  - intros Hl. destruct (IH Hl) as [Hin HG']. split; [by right|done].
Qed.

Lemma treeOk_group (n : nat) (g : Ptr) :
  treeOk n h db g = true → ∃ G, h_groups h !! g = Some G ∧ g_db G = Some db.
Proof.
  destruct n; [done|]. rewrite treeOk_S. intros (G & ? & ? & _). by exists G.
Qed.

Lemma findEntryByUuid_total (n : nat) (root : Ptr) (id : Uuid) :
  treeOk n h db root = true → ∃ r, findEntryByUuid n h root id = Ok r.
Proof.
  intros Hok. unfold findEntryByUuid.
  destruct (entriesRecursive_total n root Hok) as [l Hl]. rewrite Hl. simpl.
  apply firstEntryWithUuid_total. intros e Hin.
  destruct (entriesRecursive_elem n root l e Hok Hl Hin) as (E & _ & _ & HE & _).
  by exists E.
Qed.

Lemma findGroupByUuid_total (n : nat) (root : Ptr) (id : Uuid) :
  treeOk n h db root = true → ∃ r, findGroupByUuid n h root id = Ok r.
Proof.
  intros Hok. unfold findGroupByUuid.
  destruct (groupsRecursive_total n true root Hok) as [l Hl]. rewrite Hl. simpl.
  apply firstGroupWithUuid_total. intros g Hin.
  destruct (groupsRecursive_elem n true root l g Hok Hl Hin) as [Hg _].
  destruct (treeOk_group n g Hg) as (G & HG & _). by exists G.
Qed.

Lemma findEntryByUuid_Some (n : nat) (root : Ptr) (id : Uuid) (e : Ptr) :
  treeOk n h db root = true → findEntryByUuid n h root id = Ok (Some e) →
  ∃ l E p P, entriesRecursive n h root = Ok l ∧ e ∈ l
             ∧ h_entries h !! e = Some E ∧ e_uuid E = id ∧ e_group E = Some p
             ∧ treeOk n h db p = true ∧ h_groups h !! p = Some P
             ∧ e ∈ g_entries P.
Proof.
  intros Hok. unfold findEntryByUuid.
  destruct (entriesRecursive n h root) as [l| |] eqn:Hl; [|done..]. simpl.
  intros Hfirst. apply firstEntryWithUuid_Some in Hfirst as [Hin (E & HE & Hid)].
  destruct (entriesRecursive_elem n root l e Hok Hl Hin)
    as (E' & p & P & HE' & Hg & Hp & HP & Hin').
  assert (E' = E) as -> by congruence. by exists l, E, p, P.
Qed.

Lemma findGroupByUuid_Some (n : nat) (root : Ptr) (id : Uuid) (g : Ptr) :
  treeOk n h db root = true → findGroupByUuid n h root id = Ok (Some g) →
  ∃ l G, groupsRecursive n h true root = Ok l ∧ g ∈ l
         ∧ h_groups h !! g = Some G ∧ g_uuid G = id
         ∧ treeOk n h db g = true.
Proof.
  intros Hok. unfold findGroupByUuid.
  destruct (groupsRecursive n h true root) as [l| |] eqn:Hl; [|done..]. simpl.
  intros Hfirst. apply firstGroupWithUuid_Some in Hfirst as [Hin (G & HG & Hid)].
  destruct (groupsRecursive_elem n true root l g Hok Hl Hin) as [Hg _].
  by exists l, G.
Qed.

End Tree.

(** ** The heap after erasures *)

Lemma filter_all {A} (P : A → Prop) `{∀ x, Decision (P x)} (l : list A) :
  (∀ x, x ∈ l → P x) → filter P l = l.
Proof.
  induction l as [|x l IH]; intros HP; [done|].
  rewrite filter_cons_True by (apply HP; left).
  f_equal. apply IH. intros. apply HP. by right.
Qed.

Lemma filter_none {A} (P : A → Prop) `{∀ x, Decision (P x)} (l : list A) :
  (∀ x, x ∈ l → ¬ P x) → filter P l = [].
Proof.
  induction l as [|x l IH]; intros HP; [done|].
  rewrite filter_cons_False by (apply HP; left).
  apply IH. intros. apply HP. by right.
Qed.

Lemma pruned_empty (G : Group) : pruned ∅ ∅ G = G.
Proof.
  unfold pruned. rewrite !filter_all by set_solver. by destruct G.
Qed.

Lemma Erased_init (n : nat) (db : Ptr) (h : Heap) : Erased n db h h ∅ ∅.
Proof.
  split; try set_solver.
  intros p _. rewrite decide_False by set_solver.
  destruct (h_groups h !! p); simpl; [|done]. by rewrite pruned_empty.
Qed.

Section Erased.

Variables (n : nat) (db : Ptr) (h hk : Heap) (D DG : gset Ptr).
Hypothesis Her : Erased n db h hk D DG.

Lemma Erased_entry (e : Ptr) (E : Entry) :
  h_entries h !! e = Some E → e ∉ D → h_entries hk !! e = Some E.
Proof. intros HE Hin. by rewrite (er_entries _ _ _ _ _ _ Her), decide_False. Qed.

Lemma Erased_group (g : Ptr) (G : Group) :
  treeOk n h db g = true → h_groups h !! g = Some G → g ∉ DG →
  h_groups hk !! g = Some (pruned D DG G).
Proof.
  intros Hok HG Hin.
  by rewrite (er_groups _ _ _ _ _ _ Her) by done; rewrite decide_False, HG.
Qed.

(** Everything below an erased group is erased. *)
Lemma Erased_below_entries (m : nat) (g : Ptr) (l : list Ptr) :
  g ∈ DG → entriesRecursive m h g = Ok l → ∀ e, e ∈ l → e ∈ D.
Proof.
  revert g l. induction m as [|m IH]; intros g l Hg; [done|].
  rewrite entriesRecursive_S. intros (G & rest & HG & Hrest & ->) e.
  rewrite elem_of_app. intros [He|He].
  - by eapply (er_closed_entries _ _ _ _ _ _ Her).
  - destruct (elem_of_concat_Forall2 _ _ _ _ Hrest He) as (c & lc & Hin & Hlc & Hxc).
    eapply (IH c lc); [|done..].
    by eapply (er_closed_children _ _ _ _ _ _ Her).
Qed.

Lemma Erased_below_groups (m : nat) (b : bool) (g : Ptr) (l : list Ptr) :
  g ∈ DG → groupsRecursive m h b g = Ok l → ∀ x, x ∈ l → x ∈ DG.
Proof.
  revert b g l. induction m as [|m IH]; intros b g l Hg; [done|].
  rewrite groupsRecursive_S. intros (G & rest & HG & Hrest & ->) x.
  rewrite elem_of_app. intros [Hx|Hx].
  - destruct b; [|by inversion Hx]. by apply list_elem_of_singleton in Hx as ->.
  - destruct (elem_of_concat_Forall2 _ _ _ _ Hrest Hx) as (c & lc & Hin & Hlc & Hxc).
    eapply (IH true c lc); [|done..].
    by eapply (er_closed_children _ _ _ _ _ _ Her).
Qed.

(** The traversals of the heap after the erasures list what the traversals
    of the initial heap list, without the erased objects. *)
Lemma entriesRecursive_Erased (m : nat) (g : Ptr) (l : list Ptr) :
  (m ≤ n)%nat → treeOk m h db g = true → g ∉ DG →
  entriesRecursive m h g = Ok l →
  entriesRecursive m hk g = Ok (filter (λ e, e ∉ D) l).
Proof.
  revert g l. induction m as [|m IH]; intros g l Hle Hok Hg; [done|].
  pose proof Hok as Hok'. apply treeOk_S in Hok' as (G & HG & _ & _ & Hc).
  rewrite !entriesRecursive_S. intros (G' & rest & HG' & Hrest & ->).
  assert (G' = G) as -> by congruence.
  exists (pruned D DG G).
  assert (∃ rest',
    Forall2 (λ c lc, entriesRecursive m hk c = Ok lc)
            (filter (λ c, c ∉ DG) (g_children G)) rest'
    ∧ concat rest' = filter (λ e, e ∉ D) (concat rest)) as (rest' & Hrest' & Heq).
  { clear HG HG'. revert Hc. induction Hrest as [|c lc cs rest Hlc Hcs IHcs];
      intros Hc; simpl.
    - exists []. by split.
    - destruct IHcs as (rest' & Hrest' & Heq).
      { intros c' Hin. apply Hc. by right. }
      rewrite list.filter_app. destruct (decide (c ∈ DG)) as [Hin|Hin].
      + rewrite filter_cons_False by (by intros ?).
        exists rest'. split; [done|].
        rewrite (filter_none (λ e, e ∉ D) lc); [done|].
        intros e He. pose proof (Erased_below_entries m c lc Hin Hlc e He).
        by intros ?.
      + rewrite filter_cons_True by done.
        exists (filter (λ e, e ∉ D) lc :: rest'). split.
        * constructor; [|done]. apply IH; [lia| |done..].
          apply Hc. left.
        * simpl. by rewrite Heq. }
  exists rest'. split.
  { apply Erased_group; [|done..]. eapply treeOk_le; [|done]. lia. }
  split; [by destruct G|].
  rewrite list.filter_app, Heq. by destruct G.
Qed.

Lemma groupsRecursive_Erased (m : nat) (b : bool) (g : Ptr) (l : list Ptr) :
  (m ≤ n)%nat → treeOk m h db g = true → g ∉ DG →
  groupsRecursive m h b g = Ok l →
  groupsRecursive m hk b g = Ok (filter (λ c, c ∉ DG) l).
Proof.
  revert b g l. induction m as [|m IH]; intros b g l Hle Hok Hg; [done|].
  pose proof Hok as Hok'. apply treeOk_S in Hok' as (G & HG & _ & _ & Hc).
  rewrite !groupsRecursive_S. intros (G' & rest & HG' & Hrest & ->).
  assert (G' = G) as -> by congruence.
  exists (pruned D DG G).
  assert (∃ rest',
    Forall2 (λ c lc, groupsRecursive m hk true c = Ok lc)
            (filter (λ c, c ∉ DG) (g_children G)) rest'
    ∧ concat rest' = filter (λ c, c ∉ DG) (concat rest)) as (rest' & Hrest' & Heq).
  { clear HG HG'. revert Hc. induction Hrest as [|c lc cs rest Hlc Hcs IHcs];
      intros Hc; simpl.
    - exists []. by split.
    - destruct IHcs as (rest' & Hrest' & Heq).
      { intros c' Hin. apply Hc. by right. }
      rewrite list.filter_app. destruct (decide (c ∈ DG)) as [Hin|Hin].
      + rewrite filter_cons_False by (by intros ?).
        exists rest'. split; [done|].
        rewrite (filter_none (λ c, c ∉ DG) lc); [done|].
        intros x Hx. pose proof (Erased_below_groups m true c lc Hin Hlc x Hx).
        by intros ?.
      + rewrite filter_cons_True by done.
        exists (filter (λ c, c ∉ DG) lc :: rest'). split.
        * constructor; [|done]. apply IH; [lia| |done..].
          apply Hc. left.
        * simpl. by rewrite Heq. }
  exists rest'. split.
  { apply Erased_group; [|done..]. eapply treeOk_le; [|done]. lia. }
  split; [by destruct G|].
  rewrite list.filter_app, Heq. f_equal.
  destruct b; [|done]. by rewrite filter_cons_True, filter_nil.
Qed.

End Erased.


Lemma Heap_withDbs_id (h : Heap) (p : Ptr) (d : Database) :
  h_dbs h !! p = Some d → Heap_withDbs (<[p:=d]> (h_dbs h)) h = h.
Proof. intros H. rewrite insert_id by done. by destruct h. Qed.

Lemma Group_withUpdateTimeinfo_restore_children (G : Group) (l : list Ptr) :
  Group_withUpdateTimeinfo (g_updateTimeinfo G)
    (Group_withChildren l (Group_withUpdateTimeinfo false G))
  = Group_withChildren l G.
Proof. by destruct G. Qed.

(** [delete group] for a group without entries and child groups, when the
    parent's timestamp bookkeeping is suspended. *)
Lemma Group_delete_empty (f : nat) (h : Heap) (x d : Ptr) (X : Group) (D : Database) :
  h_groups h !! x = Some X → g_entries X = [] → g_children X = [] →
  g_db X = Some d → h_dbs h !! d = Some D →
  match g_parent X with
  | None =>
      Group_delete (S f) x h
      = Ok (tt, Heap_withGroups (delete x (h_groups h)) h)
  | Some p =>
      ∀ P, h_groups h !! p = Some P → g_updateTimeinfo P = false →
           Group_delete (S f) x h
           = Ok (tt, mkHeap (h_entries h)
                       (delete x
                          (<[p := Group_withChildren
                                    (filter (λ c, c ≠ x) (g_children P)) P]>
                             (h_groups h)))
                       (<[d := Database_withDeletedObjects
                                 (db_deletedObjects D
                                  ++ [mkDeletedObject (g_uuid X) (h_now h)]) D]>
                          (h_dbs h))
                       (h_next h) (h_now h) (h_uuidSeed h))
  end.
Proof.
  intros HX He Hc Hd HD. simpl.
  destruct (g_parent X) as [p|] eqn:Hp.
  - intros P HP Hflag. mstep getGroup_Ok. rewrite He, Hc, Hd, Hp. simpl.
    rewrite (bind_Ok _ _ _ _ _ (mret_Ok _ _)).
    rewrite (bind_Ok _ _ _ _ _ (mret_Ok _ _)).
    erewrite bind_Ok; [|by apply Database_addDeletedObject_Ok].
    erewrite bind_Ok; cycle 1.
    { mstep modifyGroup_Ok.
      erewrite Group_touch_suspended; [done|lookup_solve|by destruct P]. }
    done.
  - mstep getGroup_Ok. rewrite He, Hc, Hd, Hp. simpl.
    rewrite (bind_Ok _ _ _ _ _ (mret_Ok _ _)).
    rewrite (bind_Ok _ _ _ _ _ (mret_Ok _ _)).
    rewrite (bind_Ok _ _ _ _ _ (mret_Ok _ _)).
    by rewrite (bind_Ok _ _ _ _ _ (mret_Ok _ _)).
Qed.

Lemma eraseGroup_empty_Ok (f : nat) (h : Heap) (x d : Ptr) (X : Group) (D : Database)
    (parent : option (Ptr * Group)) :
  h_groups h !! x = Some X → g_entries X = [] → g_children X = [] →
  g_db X = Some d → h_dbs h !! d = Some D →
  match parent with
  | None => g_parent X = None
  | Some (p, P) => g_parent X = Some p ∧ h_groups h !! p = Some P ∧ p ≠ x
  end →
  eraseGroup (S f) x h = Ok (tt, heapWithoutGroup x parent h).
Proof.
  intros HX He Hc Hd HD Hparent. unfold eraseGroup.
  mstep Group_database_Ok. rewrite Hd.
  rewrite (bind_Ok _ _ _ _ _ (deref_Some _ _)).
  mstep Database_deletedObjects_Ok. mstep getGroup_Ok.
  pose proof (Group_delete_empty f) as Hdel.
  destruct parent as [[p P]|].
  - destruct Hparent as (Hp & HP & Hne). rewrite Hp.
    mstep Group_canUpdateTimeinfo_Ok.
    unfold Group_setUpdateTimeinfo. mstep modifyGroup_Ok.
    match goal with
    | |- context [(Group_delete _ _ ≫= _) ?h0] =>
        specialize (Hdel h0 x d X D)
    end.
    simpl in Hdel. rewrite lookup_insert_ne in Hdel by done.
    specialize (Hdel HX He Hc Hd HD). rewrite Hp in Hdel.
    erewrite bind_Ok;
      [|eapply Hdel; [apply lookup_insert_eq|by destruct P]].
    mstep modifyGroup_Ok.
    unfold Database_setDeletedObjects. erewrite modifyDb_Ok by lookup_solve.
    unfold heapWithoutGroup, Heap_withDbs, Heap_withGroups; simpl.
    rewrite Database_withDeletedObjects_restore, (insert_insert_eq (h_dbs h)).
    rewrite (insert_id _ _ _ HD).
    rewrite <-(delete_insert_ne _ x p) by done.
    by rewrite !insert_insert_eq, Group_withUpdateTimeinfo_restore_children.
  - rewrite Hparent. rewrite (bind_Ok _ _ _ _ _ (mret_Ok _ _)).
    rewrite (bind_Ok _ _ _ _ _ (mret_Ok _ _)).
    specialize (Hdel h x d X D HX He Hc Hd HD). rewrite Hparent in Hdel.
    rewrite (bind_Ok _ _ _ _ _ Hdel).
    rewrite (bind_Ok _ _ _ _ _ (mret_Ok _ _)).
    unfold Database_setDeletedObjects. erewrite modifyDb_Ok by lookup_solve.
    unfold heapWithoutGroup, Heap_withDbs, Heap_withGroups; simpl.
    rewrite (insert_id (h_dbs h)); [done|]. rewrite HD. by destruct D.
Qed.

(** ** One erasure preserves the relation with the initial heap *)

Lemma filter_ext_elem {A} (P1 P2 : A → Prop) `{∀ x, Decision (P1 x)}
    `{∀ x, Decision (P2 x)} (l : list A) :
  (∀ x, x ∈ l → P1 x ↔ P2 x) → filter P1 l = filter P2 l.
Proof.
  induction l as [|x l IH]; intros HP; [done|].
  rewrite !filter_cons. rewrite IH by (intros; apply HP; by right).
  assert (P1 x ↔ P2 x) as Hx by (apply HP; left).
  destruct (decide (P1 x)) as [H1|H1], (decide (P2 x)) as [H2|H2]; tauto.
Qed.

Section EraseSteps.

Variables (n : nat) (db : Ptr) (h hk : Heap) (D DG : gset Ptr) (TD : Database).
Hypothesis Her : Erased n db h hk D DG.
Hypothesis Hdb : h_dbs hk !! db = Some TD.

Lemma eraseEntry_Erased (e g : Ptr) (E : Entry) (G : Group) :
  h_entries h !! e = Some E → e ∉ D → e_group E = Some g →
  treeOk n h db g = true → h_groups h !! g = Some G → e ∈ g_entries G →
  ∃ hk', eraseEntry e hk = Ok (tt, hk')
         ∧ Erased n db h hk' (D ∪ {[e]}) DG
         ∧ h_dbs hk' = h_dbs hk.
Proof.
  intros HE HeD Hg Hok HG Hin.
  assert (g ∉ DG) as HgDG.
  { intros HgDG. apply HeD. by eapply (er_closed_entries _ _ _ _ _ _ Her). }
  destruct (treeOk_group _ _ _ _ Hok) as (G' & HG' & HGdb).
  assert (G' = G) as -> by congruence.
  exists (heapWithoutEntry e g (pruned D DG G) hk). split.
  { eapply eraseEntry_Ok; [by eapply Erased_entry|done| |by destruct G|done].
    by eapply Erased_group. }
  split; [|done]. split.
  - intros p. simpl. destruct (decide (p = e)) as [->|Hne].
    + rewrite lookup_delete_eq, decide_True by set_solver. done.
    + rewrite lookup_delete_ne by done. rewrite (er_entries _ _ _ _ _ _ Her).
      destruct (decide (p ∈ D)).
      * by rewrite decide_True by set_solver.
      * rewrite decide_False; [done|].
        rewrite elem_of_union, elem_of_singleton. by intros [?|?].
  - intros p Hp. simpl. destruct (decide (p = g)) as [->|Hne].
    + rewrite lookup_insert_eq, decide_False, HG by done. simpl. f_equal.
      destruct G; unfold pruned, Group_withEntries, Group_withChildren; simpl.
      f_equal. rewrite list_filter_filter. apply list_filter_iff.
      intros x. rewrite elem_of_union, elem_of_singleton. split.
      * intros [Hx HxD] [?|?]; [by apply HxD|by apply Hx].
      * intros Hx. split; intros ?; apply Hx; [by right|by left].
    + rewrite lookup_insert_ne by done. rewrite (er_groups _ _ _ _ _ _ Her) by done.
      case_decide; [done|].
      destruct (h_groups h !! p) as [P|] eqn:HP; simpl; [|done]. f_equal.
      unfold pruned. do 2 f_equal. apply filter_ext_elem. intros e' He'.
      rewrite not_elem_of_union, not_elem_of_singleton.
      split; [|by intros [? _]]. intros He'D. split; [done|]. intros ->.
      destruct n as [|n']; [done|].
      apply treeOk_S in Hp as (P' & HP' & _ & Hentries & _).
      assert (P' = P) as -> by congruence.
      destruct (Hentries e He') as (E' & HE' & Hg'). congruence.
  - intros p P e' Hp HP He'. apply elem_of_union. left.
    by eapply (er_closed_entries _ _ _ _ _ _ Her).
  - apply (er_closed_children _ _ _ _ _ _ Her).
Qed.

Lemma eraseGroup_Erased (x : Ptr) (X : Group) (parent : option (Ptr * Group)) :
  (1 ≤ n)%nat →
  treeOk n h db x = true → x ∉ DG → h_groups h !! x = Some X →
  (∀ e, e ∈ g_entries X → e ∈ D) →
  (∀ c, c ∈ g_children X → c ∈ DG) →
  match parent with
  | None => g_parent X = None
  | Some (pp, PP) =>
      g_parent X = Some pp ∧ treeOk n h db pp = true
      ∧ h_groups h !! pp = Some PP ∧ x ∈ g_children PP
  end →
  ∃ hk', eraseGroup n x hk = Ok (tt, hk')
         ∧ Erased n db h hk' D (DG ∪ {[x]})
         ∧ h_dbs hk' = h_dbs hk.
Proof.
  intros Hn Hok HxDG HX HeD HcDG Hparent.
  destruct n as [|f]; [lia|].
  destruct (treeOk_group _ _ _ _ Hok) as (X' & HX' & HXdb).
  assert (X' = X) as -> by congruence.
  assert (h_groups hk !! x = Some (pruned D DG X)) as HXk by by eapply Erased_group.
  assert (g_entries (pruned D DG X) = []) as Hempty1.
  { destruct X; simpl in *. apply filter_none. naive_solver. }
  assert (g_children (pruned D DG X) = []) as Hempty2.
  { destruct X; simpl in *. apply filter_none. naive_solver. }
  assert (match parent with
          | None => True
          | Some (pp, PP) => (pp ∉ DG) ∧ pp ≠ x
          end) as Hpp.
  { destruct parent as [[pp PP]|]; [|done].
    destruct Hparent as (Hp & Hokp & HPP & Hin). split.
    - intros HppDG. apply HxDG.
      by eapply (er_closed_children _ _ _ _ _ _ Her).
    - intros ->. apply HxDG, HcDG. congruence. }
  exists (heapWithoutGroup x
            match parent with
            | None => None
            | Some (pp, PP) => Some (pp, pruned D DG PP)
            end hk).
  split.
  { eapply eraseGroup_empty_Ok; [done|done|done|by destruct X|done|].
    destruct parent as [[pp PP]|]; [|by destruct X].
    destruct Hparent as (Hp & Hokp & HPP & Hin). destruct Hpp as [HppDG Hne].
    split; [by destruct X|]. split; [|done]. by eapply Erased_group. }
  split; [|by destruct parent as [[??]|]]. split.
  - intros p. destruct parent as [[??]|]; apply (er_entries _ _ _ _ _ _ Her).
  - intros p Hp.
    assert (h_groups (heapWithoutGroup x
              match parent with
              | None => None
              | Some (pp, PP) => Some (pp, pruned D DG PP)
              end hk) !! p
            = if decide (p = x) then None
              else match parent with
                   | Some (pp, PP) =>
                       if decide (p = pp)
                       then Some (Group_withChildren
                                    (filter (λ c, c ≠ x)
                                            (g_children (pruned D DG PP)))
                                    (pruned D DG PP))
                       else h_groups hk !! p
                   | None => h_groups hk !! p
                   end) as ->.
    { simpl. case_decide as Hpx; [subst; by rewrite lookup_delete_eq|].
      rewrite lookup_delete_ne by done. destruct parent as [[pp PP]|]; [|done].
      case_decide; [subst; by rewrite lookup_insert_eq|].
      by rewrite lookup_insert_ne. }
    destruct (decide (p = x)) as [->|Hpx].
    { by rewrite decide_True by (apply elem_of_union; right; by apply elem_of_singleton). }
    assert (∀ P, h_groups h !! p = Some P →
                 g_parent X ≠ Some p →
                 pruned D (DG ∪ {[x]}) P = pruned D DG P) as Hsame.
    { intros P HP Hnp. unfold pruned. f_equal. apply filter_ext_elem.
      intros c Hc. rewrite not_elem_of_union, not_elem_of_singleton.
      split; [by intros [? _]|]. intros HcDG'. split; [done|]. intros ->.
      apply treeOk_S in Hp as (P' & HP' & _ & _ & Hchildren).
      assert (P' = P) as -> by congruence.
      destruct (Hchildren x Hc) as [(X' & HX'' & Hpar) _]. congruence. }
    destruct parent as [[pp PP]|].
    + destruct Hparent as (Hpar & Hokp & HPP & Hin). destruct Hpp as [HppDG Hne].
      destruct (decide (p = pp)) as [->|Hppp].
      * rewrite decide_False, HPP.
        2:{ rewrite not_elem_of_union, not_elem_of_singleton. done. }
        simpl. f_equal.
        destruct PP; unfold pruned, Group_withEntries, Group_withChildren; simpl.
        f_equal. rewrite list_filter_filter. apply list_filter_iff. intros c.
        rewrite not_elem_of_union, not_elem_of_singleton. tauto.
      * rewrite (er_groups _ _ _ _ _ _ Her) by done.
        destruct (decide (p ∈ DG)) as [HpDG|HpDG].
        -- by rewrite decide_True by (apply elem_of_union; by left).
        -- rewrite decide_False.
           2:{ rewrite not_elem_of_union, not_elem_of_singleton. done. }
           destruct (h_groups h !! p) as [P|] eqn:HP; [|done]. simpl.
           rewrite Hsame; [done..|]. congruence.
    + rewrite (er_groups _ _ _ _ _ _ Her) by done.
      destruct (decide (p ∈ DG)) as [HpDG|HpDG].
      * by rewrite decide_True by (apply elem_of_union; by left).
      * rewrite decide_False.
        2:{ rewrite not_elem_of_union, not_elem_of_singleton. done. }
        destruct (h_groups h !! p) as [P|] eqn:HP; [|done]. simpl.
        rewrite Hsame; [done..|]. congruence.
  - intros p P e Hp HP He. apply elem_of_union in Hp as [Hp|Hp].
    + by eapply (er_closed_entries _ _ _ _ _ _ Her).
    + apply elem_of_singleton in Hp as ->. apply HeD. congruence.
  - intros p P c Hp HP Hc. apply elem_of_union. apply elem_of_union in Hp as [Hp|Hp].
    + left. by eapply (er_closed_children _ _ _ _ _ _ Her).
    + apply elem_of_singleton in Hp as ->. left. apply HcDG. congruence.
Qed.

End EraseSteps.

(** ** The first loop of the deletion pass *)

Lemma earliestDeletion_snoc (id : Uuid) (l : list DeletedObject) (o : DeletedObject) :
  earliestDeletion id (l ++ [o])
  = if decide (uuid o = id)
    then Some (match earliestDeletion id l with
               | None => deletionTime o
               | Some t => Z.min t (deletionTime o)
               end)
    else earliestDeletion id l.
Proof. unfold earliestDeletion. by rewrite foldl_snoc. Qed.

Lemma earliestDeletion_None (id : Uuid) (l : list DeletedObject) :
  earliestDeletion id l = None ↔ ∀ o, o ∈ l → uuid o ≠ id.
Proof.
  induction l as [|o l IH] using rev_ind.
  - split; [by inversion 2|done].
  - rewrite earliestDeletion_snoc. case_decide as Ho.
    + split; [done|]. intros H. exfalso. apply (H o); [|done].
      apply elem_of_app. right. left.
    + rewrite IH. split.
      * intros H o' [Hin|Hin]%elem_of_app; [by apply H|].
        by apply list_elem_of_singleton in Hin as ->.
      * intros H o' Hin. apply H, elem_of_app. by left.
Qed.

Lemma earliestDeletion_Some (id : Uuid) (l : list DeletedObject) :
  is_Some (earliestDeletion id l) ↔ ∃ o, o ∈ l ∧ uuid o = id.
Proof.
  induction l as [|o l IH] using rev_ind.
  - split; [by intros [? ?]|]. intros (o & Hin & _). by inversion Hin.
  - rewrite earliestDeletion_snoc. case_decide as Ho.
    + split; [|by eexists]. intros _. exists o. split; [|done].
      apply elem_of_app. right. left.
    + rewrite IH. split.
      * intros (o' & Hin & Ho'). exists o'. split; [|done].
        apply elem_of_app. by left.
      * intros (o' & [Hin|Hin]%elem_of_app & Ho'); [by exists o'|].
        by apply list_elem_of_singleton in Hin as ->.
Qed.

Section Collect.

Variables (fuel : nat) (h : Heap) (db root : Ptr).
Hypothesis Hroot : treeOk fuel h db root = true.

Lemma Collected_nil : Collected fuel h root [] (mkDeletionQueues ∅ [] [] []).
Proof.
  split; simpl.
  - intros u. rewrite lookup_empty. split; [by intros [? ?]|].
    intros (o & Hin & _). by inversion Hin.
  - intros u o. by rewrite lookup_empty.
  - intros e. split; [by inversion 1|]. intros (o & Hin & _). by inversion Hin.
  - constructor.
  - intros g. split; [by inversion 1|]. intros (o & Hin & _). by inversion Hin.
  - constructor.
  - intros o. by inversion 1.
Qed.

Lemma collectDeletion_Collected (objects : list DeletedObject) (q : DeletionQueues)
    (o : DeletedObject) :
  Collected fuel h root objects q →
  ∃ q', collectDeletion fuel h (Some root) q o = Ok q'
        ∧ Collected fuel h root (objects ++ [o]) q'.
Proof.
  intros Hq. unfold collectDeletion.
  assert (∀ o', o' ∈ objects ++ [o] ↔ o' ∈ objects ∨ o' = o) as Hsnoc.
  { intros o'. rewrite elem_of_app, list_elem_of_singleton. done. }
  case_bool_decide as Hnew.
  - (* the first tombstone of this UUID *)
    assert (∀ o', o' ∈ objects → uuid o' ≠ uuid o) as Hfresh.
    { intros o' Hin Heq.
      assert (is_Some (mergedDeletions q !! uuid o)) as [? ?]; [|congruence].
      apply (co_dom _ _ _ _ _ Hq). by exists o'. }
    assert (∀ u, is_Some (<[uuid o:=o]> (mergedDeletions q) !! u)
                 ↔ ∃ o', o' ∈ objects ++ [o] ∧ uuid o' = u) as Hdom.
    { intros u. rewrite lookup_insert_is_Some, (co_dom _ _ _ _ _ Hq). split.
      - intros [<-|[_ (o' & Hin & Ho')]].
        + exists o. split; [|done]. apply Hsnoc. by right.
        + exists o'. split; [|done]. apply Hsnoc. by left.
      - intros (o' & [Hin| ->]%Hsnoc & Ho'); [|by left].
        destruct (decide (uuid o = u)); [by left|right].
        split; [done|]. by exists o'. }
    assert (∀ u o', <[uuid o:=o]> (mergedDeletions q) !! u = Some o' →
                    uuid o' = u
                    ∧ earliestDeletion u (objects ++ [o]) = Some (deletionTime o'))
      as Hmerged.
    { intros u o'. rewrite earliestDeletion_snoc.
      destruct (decide (uuid o = u)) as [<-|Hne].
      - rewrite lookup_insert_eq. intros [= <-]. split; [done|].
        apply earliestDeletion_None in Hfresh. by rewrite Hfresh.
      - rewrite lookup_insert_ne by done. apply (co_merged _ _ _ _ _ Hq). }
    destruct (findEntryByUuid_total h db fuel root (uuid o) Hroot) as [[e|] Hfind];
      rewrite Hfind; simpl.
    + eexists. split; [done|]. split; simpl; try done.
      * intros e'. rewrite elem_of_app, list_elem_of_singleton.
        rewrite (co_entries _ _ _ _ _ Hq). split.
        -- intros [(o' & Hin & Ho')| ->].
           ++ exists o'. split; [|done]. apply Hsnoc. by left.
           ++ exists o. split; [|done]. apply Hsnoc. by right.
        -- intros (o' & [Hin| ->]%Hsnoc & Ho'); [left; by exists o'|right].
           congruence.
      * apply list.NoDup_app. split; [apply (co_entries_NoDup _ _ _ _ _ Hq)|].
        split; [|apply list.NoDup_singleton].
        intros e' Hin ->%list_elem_of_singleton.
        apply (co_entries _ _ _ _ _ Hq) in Hin as (o' & Hin & Ho').
        apply (findEntryByUuid_Some h db) in Ho' as (? & E & ? & ? & _ & _ & HE & Hid & _);
          [|done].
        apply (findEntryByUuid_Some h db) in Hfind
          as (? & E' & ? & ? & _ & _ & HE' & Hid' & _); [|done].
        apply (Hfresh o' Hin). congruence.
      * intros g. rewrite (co_groups _ _ _ _ _ Hq). split.
        -- intros (o' & Hin & Ho'). exists o'. split; [|done]. apply Hsnoc. by left.
        -- intros (o' & [Hin| ->]%Hsnoc & Ho' & Hg'); [by exists o'|congruence].
      * apply (co_groups_NoDup _ _ _ _ _ Hq).
      * apply (co_deletions _ _ _ _ _ Hq).
    + destruct (findGroupByUuid_total h db fuel root (uuid o) Hroot)
        as [[g|] Hfindg]; rewrite Hfindg; simpl.
      * eexists. split; [done|]. split; simpl; try done.
        -- intros e'. rewrite (co_entries _ _ _ _ _ Hq). split.
           ++ intros (o' & Hin & Ho'). exists o'. split; [|done].
              apply Hsnoc. by left.
           ++ intros (o' & [Hin| ->]%Hsnoc & Ho'); [by exists o'|congruence].
        -- apply (co_entries_NoDup _ _ _ _ _ Hq).
        -- intros g'. rewrite elem_of_app, list_elem_of_singleton.
           rewrite (co_groups _ _ _ _ _ Hq). split.
           ++ intros [(o' & Hin & Ho')| ->].
              ** exists o'. split; [|done]. apply Hsnoc. by left.
              ** exists o. split; [|done]. apply Hsnoc. by right.
           ++ intros (o' & [Hin| ->]%Hsnoc & Ho' & Hg'); [left; by exists o'|right].
              congruence.
        -- apply list.NoDup_app. split; [apply (co_groups_NoDup _ _ _ _ _ Hq)|].
           split; [|apply list.NoDup_singleton].
           intros g' Hin ->%list_elem_of_singleton.
           apply (co_groups _ _ _ _ _ Hq) in Hin as (o' & Hin & _ & Ho').
           apply (findGroupByUuid_Some h db) in Ho' as (? & G & _ & _ & HG & Hid & _);
             [|done].
           apply (findGroupByUuid_Some h db) in Hfindg
             as (? & G' & _ & _ & HG' & Hid' & _); [|done].
           apply (Hfresh o' Hin). congruence.
        -- apply (co_deletions _ _ _ _ _ Hq).
      * eexists. split; [done|]. split; simpl; try done.
        -- intros e'. rewrite (co_entries _ _ _ _ _ Hq). split.
           ++ intros (o' & Hin & Ho'). exists o'. split; [|done].
              apply Hsnoc. by left.
           ++ intros (o' & [Hin| ->]%Hsnoc & Ho'); [by exists o'|congruence].
        -- apply (co_entries_NoDup _ _ _ _ _ Hq).
        -- intros g. rewrite (co_groups _ _ _ _ _ Hq). split.
           ++ intros (o' & Hin & Ho'). exists o'. split; [|done].
              apply Hsnoc. by left.
           ++ intros (o' & [Hin| ->]%Hsnoc & Ho' & Hg'); [by exists o'|congruence].
        -- apply (co_groups_NoDup _ _ _ _ _ Hq).
        -- intros o' [Hin| ->%list_elem_of_singleton]%elem_of_app; [|done].
           by apply (co_deletions _ _ _ _ _ Hq).
  - (* a further tombstone of a UUID already seen *)
    apply not_eq_None_Some in Hnew as [stored Hstored].
    destruct (co_merged _ _ _ _ _ Hq _ _ Hstored) as [Huuid Hearliest].
    assert (∃ o', o' ∈ objects ∧ uuid o' = uuid o) as (o0 & Hin0 & Ho0).
    { apply (co_dom _ _ _ _ _ Hq). by exists stored. }
    assert (∀ e, (∃ o', o' ∈ objects ++ [o]
                        ∧ findEntryByUuid fuel h root (uuid o') = Ok (Some e))
                 ↔ ∃ o', o' ∈ objects
                        ∧ findEntryByUuid fuel h root (uuid o') = Ok (Some e))
      as Hentries.
    { intros e. split.
      - intros (o' & [Hin| ->]%Hsnoc & Ho'); [by exists o'|].
        exists o0. split; [done|]. by rewrite Ho0.
      - intros (o' & Hin & Ho'). exists o'. split; [|done]. apply Hsnoc. by left. }
    assert (∀ g, (∃ o', o' ∈ objects ++ [o]
                        ∧ findEntryByUuid fuel h root (uuid o') = Ok None
                        ∧ findGroupByUuid fuel h root (uuid o') = Ok (Some g))
                 ↔ ∃ o', o' ∈ objects
                        ∧ findEntryByUuid fuel h root (uuid o') = Ok None
                        ∧ findGroupByUuid fuel h root (uuid o') = Ok (Some g))
      as Hgroups.
    { intros g. split.
      - intros (o' & [Hin| ->]%Hsnoc & Ho'); [by exists o'|].
        exists o0. split; [done|]. by rewrite Ho0.
      - intros (o' & Hin & Ho'). exists o'. split; [|done]. apply Hsnoc. by left. }
    assert (∀ u, (∃ o', o' ∈ objects ++ [o] ∧ uuid o' = u)
                 ↔ ∃ o', o' ∈ objects ∧ uuid o' = u) as Hdom.
    { intros u. split.
      - intros (o' & [Hin| ->]%Hsnoc & Ho'); [by exists o'|].
        exists o0. split; [done|]. congruence.
      - intros (o' & Hin & Ho'). exists o'. split; [|done]. apply Hsnoc. by left. }
    unfold QMap_at. rewrite Hstored. simpl.
    destruct (deletionTime stored >? deletionTime o) eqn:Hcmp.
    + eexists. split; [done|]. split; simpl.
      * intros u. rewrite lookup_insert_is_Some, Hdom, (co_dom _ _ _ _ _ Hq).
        split; [intros [<-|[_ ?]]; [by exists o0|done]|].
        intros Hu. destruct (decide (uuid o = u)); [by left|by right].
      * intros u o'. rewrite earliestDeletion_snoc.
        destruct (decide (uuid o = u)) as [<-|Hne].
        -- rewrite lookup_insert_eq. intros [= <-]. split; [done|].
           rewrite Hearliest. f_equal. lia.
        -- rewrite lookup_insert_ne by done. apply (co_merged _ _ _ _ _ Hq).
      * intros e. rewrite Hentries. apply (co_entries _ _ _ _ _ Hq).
      * apply (co_entries_NoDup _ _ _ _ _ Hq).
      * intros g. rewrite Hgroups. apply (co_groups _ _ _ _ _ Hq).
      * apply (co_groups_NoDup _ _ _ _ _ Hq).
      * apply (co_deletions _ _ _ _ _ Hq).
    + exists q. split; [done|]. split.
      * intros u. rewrite Hdom. apply (co_dom _ _ _ _ _ Hq).
      * intros u o' Ho'. rewrite earliestDeletion_snoc.
        destruct (co_merged _ _ _ _ _ Hq _ _ Ho') as [Hu He]. split; [done|].
        case_decide as Hd; [|done]. rewrite He. f_equal.
        assert (o' = stored) as -> by congruence. lia.
      * intros e. rewrite Hentries. apply (co_entries _ _ _ _ _ Hq).
      * apply (co_entries_NoDup _ _ _ _ _ Hq).
      * intros g. rewrite Hgroups. apply (co_groups _ _ _ _ _ Hq).
      * apply (co_groups_NoDup _ _ _ _ _ Hq).
      * apply (co_deletions _ _ _ _ _ Hq).
Qed.

Lemma collectDeletions_Collected (objects : list DeletedObject) :
  ∃ q, collectDeletions fuel h (Some root) objects = Ok q
       ∧ Collected fuel h root objects q.
Proof.
  unfold collectDeletions.
  assert (∀ todo done q,
    Collected fuel h root done q →
    ∃ q', foldlR (collectDeletion fuel h (Some root)) todo q = Ok q'
          ∧ Collected fuel h root (done ++ todo) q') as Hfold.
  { induction todo as [|o todo IH]; intros done q Hq; simpl.
    - exists q. by rewrite app_nil_r.
    - destruct (collectDeletion_Collected done q o Hq) as (q' & Hstep & Hq').
      rewrite Hstep. simpl.
      destruct (IH _ _ Hq') as (q'' & Hrest & Hq'').
      exists q''. split; [done|]. by rewrite <-app_assoc in Hq''. }
  apply (Hfold objects [] _ Collected_nil).
Qed.

End Collect.

(** ** The loop over the queued entries *)

Section DeleteEntries.

Variables (n : nat) (db : Ptr) (h : Heap) (TD : Database)
          (merged : gmap Uuid DeletedObject) (DG : gset Ptr).

Lemma deleteEntries_Erased (queue : list Ptr) :
  ∀ (hk : Heap) (D : gset Ptr) (deletions : list DeletedObject) (changes : ChangeList),
    Erased n db h hk D DG →
    h_dbs hk !! db = Some TD →
    NoDup queue →
    (∀ e, e ∈ queue → (e ∉ D) ∧ entryAttached n db h e) →
    ∃ changes' hk',
      deleteEntries merged queue deletions changes hk
      = Ok ((deletions
             ++ map (entryTombstone h merged)
                    (filter (λ e, entryOutdated h merged e = true) queue),
             changes'), hk')
      ∧ Erased n db h hk'
               (D ∪ list_to_set (filter (λ e, entryOutdated h merged e = true) queue))
               DG
      ∧ h_dbs hk' = h_dbs hk.
Proof.
  induction queue as [|e queue IH]; intros hk D deletions changes Her Hdb Hnd Hq.
  - exists changes, hk. simpl.
    rewrite app_nil_r, union_empty_r_L. done.
  - apply NoDup_cons in Hnd as [Hnin Hnd].
    destruct (Hq e) as [HeD (E & g & G & HE & Hg & Hok & HG & Hin)]; [left|].
    simpl. rewrite (bind_Ok _ _ _ _ _ (getEntry_Ok _ _ _ (Erased_entry _ _ _ _ _ _ Her _ _ HE HeD))).
    assert (entryOutdated h merged e
            = negb (lastModificationTime (e_timeInfo E) High
                    >? deletionTime (QMap_at merged (e_uuid E)))) as Hout.
    { unfold entryOutdated. by rewrite HE. }
    assert (entryTombstone h merged e = QMap_at merged (e_uuid E)) as Htomb.
    { unfold entryTombstone. by rewrite HE. }
    rewrite filter_cons.
    change (lastModificationTime (e_timeInfo E) High)
      with (m_lastModificationTime (e_timeInfo E)) in *.
    destruct (m_lastModificationTime (e_timeInfo E) >? _) eqn:Hcmp; simpl.
    + (* modified after the deletion: the entry is kept *)
      rewrite decide_False by (rewrite Hout; done).
      apply IH; try done. intros e' He'. apply Hq. by right.
    + rewrite decide_True by (rewrite Hout; done).
      destruct (eraseEntry_Erased n db h hk D DG TD Her Hdb e g E G)
        as (hk1 & Herase & Her1 & Hdb1); try done.
      rewrite (bind_Ok _ _ _ _ _ Herase).
      edestruct (IH hk1 (D ∪ {[e]})) as (changes' & hk' & Hrun & Her' & Hdb');
        [done|by rewrite Hdb1|done| |].
      { intros e' He'. destruct (Hq e') as [? ?]; [by right|]. split; [|done].
        rewrite not_elem_of_union, not_elem_of_singleton. split; [done|].
        by intros ->. }
      exists changes', hk'. rewrite Hrun. split; [|split].
      * simpl. rewrite Htomb, <-app_assoc. done.
      * rewrite list_to_set_cons, (assoc_L (∪)). done.
      * by rewrite Hdb'.
Qed.

End DeleteEntries.

(** ** The loop over the queued groups *)

Lemma readHeap_Ok {A} (f : Heap → Res A) (h : Heap) (a : A) :
  f h = Ok a → readHeap f h = Ok (a, h).
Proof. intros H. unfold readHeap. by rewrite H. Qed.

Lemma groupsRecursive_children (h : Heap) (m : nat) (b : bool) (g : Ptr) (G : Group)
    (l : list Ptr) :
  groupsRecursive m h b g = Ok l → h_groups h !! g = Some G →
  ∀ c, c ∈ g_children G → c ∈ l.
Proof.
  destruct m; [done|]. rewrite groupsRecursive_S.
  intros (G' & rest & HG' & Hrest & ->) HG c Hc.
  assert (G' = G) as -> by congruence.
  destruct (elem_of_concat_Forall2_2 _ _ _ _ Hrest Hc) as (lc & Hlc & Hsub).
  apply elem_of_app. right. apply Hsub. by eapply groupsRecursive_self.
Qed.

Lemma entriesRecursive_entries (h : Heap) (m : nat) (g : Ptr) (G : Group)
    (l : list Ptr) :
  entriesRecursive m h g = Ok l → h_groups h !! g = Some G →
  ∀ e, e ∈ g_entries G → e ∈ l.
Proof.
  destruct m; [done|]. rewrite entriesRecursive_S.
  intros (G' & rest & HG' & Hrest & ->) HG e He.
  assert (G' = G) as -> by congruence. apply elem_of_app. by left.
Qed.

Lemma rotate_elem {A} (a y x : A) (pre post : list A) :
  x ∈ pre ++ y :: post ++ [a] ↔ x ∈ a :: pre ++ y :: post.
Proof.
  rewrite !elem_of_cons, !elem_of_app, !elem_of_cons, elem_of_app,
    list_elem_of_singleton.
  tauto.
Qed.

Section DeleteGroups.

Variables (n : nat) (db : Ptr) (h : Heap) (TD : Database)
          (merged : gmap Uuid DeletedObject) (D : gset Ptr).
Hypothesis Hn : (1 ≤ n)%nat.

Lemma deleteGroups_nil (steps : nat) (hk : Heap) (DG : gset Ptr)
    (deletions : list DeletedObject) (changes : ChangeList) :
  GroupsLoopInv n db h TD D [] hk DG →
  GroupsLoopOk n db h merged D steps [] hk DG deletions changes.
Proof.
  intros (Her & _). exists [], changes, hk.
  split; [destruct steps; simpl; by rewrite app_nil_r|].
  split; [simpl; by rewrite union_empty_r_L|]. split; [done|].
  intros x Hx. by inversion Hx.
Qed.

(** A group at the head of the queue that has no child in the rest of the
    queue leaves the queue, kept or erased. *)
Lemma deleteGroups_head (k : nat) (a : Ptr) (rest : list Ptr) (A : Group)
    (hk : Heap) (DG : gset Ptr) (deletions : list DeletedObject)
    (changes : ChangeList) :
  GroupsLoopInv n db h TD D (a :: rest) hk DG →
  h_groups h !! a = Some A →
  existsb (λ c, bool_decide (c ∈ rest)) (g_children (pruned D DG A)) = false →
  (∀ hk' DG' deletions' changes',
     GroupsLoopInv n db h TD D rest hk' DG' →
     GroupsLoopOk n db h merged D k rest hk' DG' deletions' changes') →
  GroupsLoopOk n db h merged D (S k) (a :: rest) hk DG deletions changes.
Proof.
  intros (Her & Hdb & Hnd & Hq) HA Hfree Hcont.
  apply NoDup_cons in Hnd as [Hnin Hnd].
  destruct (Hq a) as [HaDG [Hok (A' & HA' & Hparent)]]; [left|].
  assert (A' = A) as -> by congruence.
  assert (GroupsLoopInv n db h TD D rest hk DG) as Hinv.
  { split; [done|]. split; [done|]. split; [done|].
    intros x Hx. apply Hq. by right. }
  assert (∀ deletions' changes',
    GroupsLoopOk n db h merged D k rest hk DG deletions' changes' →
    ∀ run, run = deleteGroups n k merged rest deletions' changes' hk →
    ∃ erased changes'' hk',
      run = Ok ((deletions' ++ map (groupTombstone h merged) erased, changes''), hk')
      ∧ Erased n db h hk' D (DG ∪ list_to_set erased)
      ∧ h_dbs hk' = h_dbs hk
      ∧ ∀ x, x ∈ erased → x ∈ a :: rest ∧ groupOutdated h merged x = true)
    as Hkeep.
  { intros deletions' changes' (erased & changes'' & hk' & Hrun & Her' & Hdb' & Hout)
           run ->.
    exists erased, changes'', hk'. split; [done|]. split; [done|].
    split; [done|]. intros x Hx. split; [right|]; by apply Hout. }
  unfold GroupsLoopOk. simpl.
  rewrite (bind_Ok _ _ _ _ _ (getGroup_Ok _ _ _ (Erased_group _ _ _ _ _ _ Her _ _ Hok HA HaDG))).
  rewrite Hfree.
  assert (groupOutdated h merged a
          = negb (m_lastModificationTime (g_timeInfo A)
                  >? deletionTime (QMap_at merged (g_uuid A)))) as Hout.
  { unfold groupOutdated. by rewrite HA. }
  assert (groupTombstone h merged a = QMap_at merged (g_uuid A)) as Htomb.
  { unfold groupTombstone. by rewrite HA. }
  change (g_timeInfo (pruned D DG A)) with (g_timeInfo A).
  change (g_uuid (pruned D DG A)) with (g_uuid A).
  change (g_name (pruned D DG A)) with (g_name A).
  change (g_parent (pruned D DG A)) with (g_parent A).
  unfold lastModificationTime, atPrecision.
  destruct (m_lastModificationTime (g_timeInfo A) >? _) eqn:Hcmp.
  { eapply Hkeep; [|done]. by apply Hcont. }
  destruct (entriesRecursive_total h db n a Hok) as [es Hes].
  destruct (groupsRecursive_total h db n false a Hok) as [gs Hgs].
  rewrite (bind_Ok _ _ _ _ _ (readHeap_Ok _ _ _
             (entriesRecursive_Erased n db h hk D DG Her n a es (le_n _) Hok HaDG Hes))).
  rewrite (bind_Ok _ _ _ _ _ (readHeap_Ok _ _ _
             (groupsRecursive_Erased n db h hk D DG Her n false a gs (le_n _) Hok HaDG Hgs))).
  destruct (filter (λ e, e ∉ D) es) as [|? ?] eqn:Hfes;
    [|eapply Hkeep; [|done]; by apply Hcont].
  destruct (filter (λ c, c ∉ DG) gs) as [|? ?] eqn:Hfgs;
    [|eapply Hkeep; [|done]; by apply Hcont].
  (* the group is empty: it is erased *)
  assert (∀ e, e ∈ g_entries A → e ∈ D) as HeD.
  { intros e He. apply dec_stable. intros HneD.
    eapply (filter_nil_not_elem_of _ _ e Hfes); [done|].
    by eapply entriesRecursive_entries. }
  assert (∀ c, c ∈ g_children A → c ∈ DG) as HcDG.
  { intros c Hc. apply dec_stable. intros HnDG.
    eapply (filter_nil_not_elem_of _ _ c Hfgs); [done|].
    by eapply groupsRecursive_children. }
  destruct (eraseGroup_Erased n db h hk D DG TD Her Hdb a A
              match g_parent A with
              | None => None
              | Some pp => (λ PP, (pp, PP)) <$> h_groups h !! pp
              end Hn Hok HaDG HA HeD HcDG) as (hk1 & Herase & Her1 & Hdb1).
  { destruct Hparent as [->|(pp & PP & -> & Hokp & HPP & Hin)]; [done|].
    rewrite HPP. simpl. done. }
  rewrite (bind_Ok _ _ _ _ _ Herase).
  destruct (Hcont hk1 (DG ∪ {[a]})
                  (deletions ++ [QMap_at merged (g_uuid A)])
                  (changes ++ [match g_parent A with
                               | Some _ => DeletingChild (g_name A) (g_uuid A)
                               | None => DeletingOrphan (g_name A) (g_uuid A)
                               end]))
    as (erased & changes'' & hk' & Hrun & Her' & Hdb' & Hout').
  { split; [done|]. split; [by rewrite Hdb1|]. split; [done|].
    intros x Hx. split; [|by apply Hq; right].
    rewrite not_elem_of_union, not_elem_of_singleton. split.
    - apply Hq. by right.
    - by intros ->. }
  exists (a :: erased), changes'', hk'. split; [|split; [|split]].
  - rewrite Hrun. simpl. by rewrite Htomb, <-app_assoc.
  - by rewrite list_to_set_cons, (assoc_L (∪)).
  - by rewrite Hdb'.
  - intros x [->|Hx]%elem_of_cons.
    + split; [left|]. by rewrite Hout.
    + split; [right|]; by apply Hout'.
Qed.

(** A non-empty queue of well-formed groups holds a group none of whose
    children is queued. *)
Lemma exists_unblocked (queue : list Ptr) (m : nat) (x : Ptr) :
  x ∈ queue → treeOk m h db x = true →
  ∃ y Y, y ∈ queue ∧ h_groups h !! y = Some Y
         ∧ ∀ c, c ∈ g_children Y → c ∉ queue.
Proof.
  revert x. induction m as [|m IH]; intros x Hx Hok; [done|].
  apply treeOk_S in Hok as (X & HX & _ & _ & Hc).
  destruct (decide (Exists (λ c, c ∈ queue) (g_children X))) as [Hex|Hnex].
  - apply Exists_exists in Hex as (c & Hin & Hcq).
    apply (IH c Hcq). by apply Hc.
  - exists x, X. split; [done|]. split; [done|]. intros c Hin Hcq.
    apply Hnex, Exists_exists. by exists c.
Qed.

Lemma existsb_children_false (queue : list Ptr) (DG : gset Ptr) (Y : Group) :
  (∀ c, c ∈ g_children Y → c ∉ queue) →
  existsb (λ c, bool_decide (c ∈ queue)) (g_children (pruned D DG Y)) = false.
Proof.
  intros Hfree. apply not_true_is_false. intros Hex.
  apply existsb_exists in Hex as (c & Hin & Hc).
  apply bool_decide_eq_true in Hc. apply list_elem_of_In in Hin.
  destruct Y; simpl in *. apply list_elem_of_filter in Hin as [_ Hin].
  by apply (Hfree c).
Qed.

(** The loop ends within the square of the queue's length. *)
Lemma deleteGroups_total (len : nat) :
  ∀ (queue : list Ptr) (steps : nat) (hk : Heap) (DG : gset Ptr)
    (deletions : list DeletedObject) (changes : ChangeList),
    length queue = len →
    (len * len ≤ steps)%nat →
    GroupsLoopInv n db h TD D queue hk DG →
    GroupsLoopOk n db h merged D steps queue hk DG deletions changes.
Proof.
  induction len as [len IHlen] using lt_wf_ind.
  intros queue steps hk DG deletions changes Hlen Hsteps Hinv.
  destruct queue as [|x0 queue0]; [by apply deleteGroups_nil|].
  remember (x0 :: queue0) as queue eqn:Hqueue.
  assert (∃ y Y pre post, queue = pre ++ y :: post
                          ∧ h_groups h !! y = Some Y
                          ∧ ∀ c, c ∈ g_children Y → c ∉ queue)
    as (y & Y & pre & post & Hsplit & HY & Hfree).
  { destruct Hinv as (_ & _ & _ & Hq).
    destruct (Hq x0) as [_ [Hok _]]; [subst; left|].
    destruct (exists_unblocked queue n x0) as (y & Y & Hin & HY & Hfree);
      [subst; left|done|].
    apply list_elem_of_split in Hin as (pre & post & Hsplit).
    by exists y, Y, pre, post. }
  assert ((length pre + 1 + (len - 1) * (len - 1) ≤ steps)%nat) as Hsteps'.
  { rewrite Hsplit, length_app in Hlen. simpl in Hlen. nia. }
  clear Hsteps Hqueue. subst queue.
  revert post steps hk DG deletions changes Hlen Hfree Hsteps' Hinv.
  induction pre as [|a pre IHpre];
    intros post steps hk DG deletions changes Hlen Hfree Hsteps Hinv.
  - simpl in *. destruct steps as [|k]; [by inversion Hsteps|].
    apply le_S_n in Hsteps.
    eapply deleteGroups_head; [done|done| |].
    + apply existsb_children_false. intros c Hc Hin. apply (Hfree c Hc). by right.
    + intros hk' DG' deletions' changes' Hinv'.
      apply (IHlen (len - 1)%nat); [lia|lia|nia|done].
  - simpl in Hlen, Hsteps. destruct steps as [|k]; [by inversion Hsteps|].
    apply le_S_n in Hsteps.
    pose proof Hinv as (Her & Hdb & Hnd & Hq).
    destruct (Hq a) as [HaDG [Hok (A & HA & Hparent)]]; [left|].
    destruct (existsb (λ c, bool_decide (c ∈ pre ++ y :: post))
                      (g_children (pruned D DG A))) eqn:Hblocked.
    + (* a child is queued: the group goes to the tail *)
      destruct (IHpre (post ++ [a]) k hk DG deletions changes)
        as (erased & changes' & hk' & Hrun & Her' & Hdb' & Hout).
      * rewrite length_app in *. simpl in *. rewrite length_app. simpl. lia.
      * intros c Hc Hin. apply (Hfree c Hc). by apply rotate_elem.
      * lia.
      * split; [done|]. split; [done|]. split.
        -- replace (pre ++ y :: post ++ [a]) with ((pre ++ y :: post) ++ [a])
             by (by rewrite <-app_assoc).
           by rewrite <-Permutation_cons_append.
        -- intros x Hx. apply Hq. by apply rotate_elem.
      * exists erased, changes', hk'. split; [|split; [done|split; [done|]]].
        -- simpl.
           rewrite (bind_Ok _ _ _ _ _ (getGroup_Ok _ _ _
                      (Erased_group _ _ _ _ _ _ Her _ _ Hok HA HaDG))).
           rewrite Hblocked. rewrite <-Hrun. by rewrite <-app_assoc.
        -- intros x Hx. destruct (Hout x Hx) as [Hin ?]. split; [|done].
           by apply rotate_elem.
    + eapply deleteGroups_head; [done|done|done|].
      intros hk' DG' deletions' changes' Hinv'.
      apply (IHlen (len - 1)%nat); [lia| |nia|done].
      rewrite length_app in *. simpl in *. lia.
Qed.

End DeleteGroups.

(** ** The deletion pass as a whole *)

Lemma Erased_same_objects (n : nat) (db : Ptr) (h hk hk' : Heap) (D DG : gset Ptr) :
  Erased n db h hk D DG →
  h_entries hk' = h_entries hk → h_groups hk' = h_groups hk →
  Erased n db h hk' D DG.
Proof.
  intros [He Hg Hce Hcc] Hentries Hgroups. split; [| |done..].
  - intros p. rewrite Hentries. apply He.
  - intros p Hp. rewrite Hgroups. by apply Hg.
Qed.

Section MergeDeletions.

Variables (fuel : nat) (h : Heap) (context : MergeContext) (tdb sdb root : Ptr)
          (TD SD : Database) (Root : Group).
Hypothesis Htdb : m_targetDb context = Some tdb.
Hypothesis Hsdb : m_sourceDb context = Some sdb.
Hypothesis Hroot : m_targetRootGroup context = Some root.
Hypothesis HTD : h_dbs h !! tdb = Some TD.
Hypothesis HSD : h_dbs h !! sdb = Some SD.
Hypothesis Hok : treeOk fuel h tdb root = true.
Hypothesis HRoot : h_groups h !! root = Some Root.
Hypothesis Hparent : g_parent Root = None.

Lemma found_entry_attached (id : Uuid) (e : Ptr) :
  findEntryByUuid fuel h root id = Ok (Some e) → entryAttached fuel tdb h e.
Proof.
  intros Hfind.
  apply (findEntryByUuid_Some h tdb) in Hfind
    as (l & E & p & P & _ & _ & HE & _ & Hg & Hp & HP & Hin); [|done].
  by exists E, p, P.
Qed.

Lemma found_group_attached (id : Uuid) (x : Ptr) :
  findGroupByUuid fuel h root id = Ok (Some x) → groupAttached fuel tdb h x.
Proof.
  intros Hfind.
  apply (findGroupByUuid_Some h tdb) in Hfind
    as (l & X & Hl & Hin & HX & _ & Hx); [|done].
  split; [done|]. exists X. split; [done|].
  destruct (groupsRecursive_elem h tdb fuel true root l x Hok Hl Hin)
    as [_ [->|(p & P & Hp & HP & Hc)]].
  - left. congruence.
  - right. exists p, P. split; [|done].
    destruct fuel as [|f]; [done|].
    apply treeOk_S in Hp as (P' & HP' & _ & _ & Hchildren).
    assert (P' = P) as -> by congruence.
    destruct (Hchildren x Hc) as [(X' & HX' & Hpar) _]. congruence.
Qed.

(** The deletion pass returns.  It erases the queued entries that were last
    modified no later than their tombstone says and some of the queued
    groups with that property, and leaves in the target database the
    tombstones without live object, followed by those of the erased entries
    and of the erased groups. *)
Lemma mergeDeletions_Erased :
  ∃ (q : DeletionQueues) (erased : list Ptr) (changes : ChangeList) (h' : Heap),
    Collected fuel h root (db_deletedObjects TD ++ db_deletedObjects SD) q
    ∧ mergeDeletions fuel context h = Ok (changes, h')
    ∧ Erased fuel tdb h h'
        (list_to_set (filter (λ e, entryOutdated h (mergedDeletions q) e = true)
                             (entries q)))
        (list_to_set erased)
    ∧ (∀ x, x ∈ erased →
            x ∈ groups q ∧ groupOutdated h (mergedDeletions q) x = true)
    ∧ h_dbs h' !! tdb
      = Some (Database_withDeletedObjects
                (deletions q
                 ++ map (entryTombstone h (mergedDeletions q))
                        (filter (λ e, entryOutdated h (mergedDeletions q) e = true)
                                (entries q))
                 ++ map (groupTombstone h (mergedDeletions q)) erased)
                TD).
Proof.
  destruct (collectDeletions_Collected fuel h tdb root Hok
              (db_deletedObjects TD ++ db_deletedObjects SD)) as (q & Hcollect & Hq).
  assert ((1 ≤ fuel)%nat) as Hfuel by (destruct fuel; [done|lia]).
  destruct (deleteEntries_Erased fuel tdb h TD (mergedDeletions q) ∅ (entries q)
              h ∅ (deletions q) [])
    as (changes1 & hk1 & Hrun1 & Her1 & Hdb1).
  { apply Erased_init. }
  { done. }
  { apply (co_entries_NoDup _ _ _ _ _ Hq). }
  { intros e He. split; [set_solver|].
    apply (co_entries _ _ _ _ _ Hq) in He as (o & _ & Hfind).
    by eapply found_entry_attached. }
  rewrite union_empty_l_L in Her1.
  destruct (deleteGroups_total fuel tdb h TD (mergedDeletions q)
              (list_to_set (filter (λ e, entryOutdated h (mergedDeletions q) e = true)
                                   (entries q))) Hfuel
              (length (groups q)) (groups q)
              (deleteGroups_steps (length (groups q))) hk1 ∅
              (deletions q
               ++ map (entryTombstone h (mergedDeletions q))
                      (filter (λ e, entryOutdated h (mergedDeletions q) e = true)
                              (entries q)))
              changes1)
    as (erased & changes2 & hk2 & Hrun2 & Her2 & Hdb2 & Hout); [done|done| |].
  { split; [done|]. split; [by rewrite Hdb1|].
    split; [apply (co_groups_NoDup _ _ _ _ _ Hq)|].
    intros x Hx. split; [set_solver|].
    apply (co_groups _ _ _ _ _ Hq) in Hx as (o & _ & _ & Hfind).
    by eapply found_group_attached. }
  rewrite union_empty_l_L in Her2.
  assert (h_dbs hk2 !! tdb = Some TD) as HTD2 by (by rewrite Hdb2, Hdb1).
  eexists q, erased, _, _. split; [done|].
  split; [|split; [|split; [done|]]].
  - unfold mergeDeletions. rewrite Htdb, Hsdb, Hroot.
    rewrite (bind_Ok _ _ _ _ _ (deref_Some _ _)).
    mstep Database_deletedObjects_Ok.
    rewrite (bind_Ok _ _ _ _ _ (deref_Some _ _)).
    mstep Database_deletedObjects_Ok.
    rewrite (bind_Ok _ _ _ _ _ (readHeap_Ok _ _ _ Hcollect)).
    rewrite (bind_Ok _ _ _ _ _ Hrun1). cbv beta iota.
    rewrite (bind_Ok _ _ _ _ _ Hrun2). cbv beta iota.
    mstep Database_deletedObjects_Ok.
    unfold Database_setDeletedObjects.
    erewrite bind_Ok; [|by apply modifyDb_Ok].
    done.
  - eapply Erased_same_objects; done.
  - simpl. rewrite lookup_insert_eq. by rewrite <-app_assoc.
Qed.

End MergeDeletions.

Lemma firstEntryWithUuid_Erased (n : nat) (db : Ptr) (h hk : Heap) (D DG : gset Ptr)
    (id : Uuid) (l : list Ptr) (e : Ptr) :
  Erased n db h hk D DG →
  firstEntryWithUuid h id l = Ok (Some e) → e ∉ D →
  firstEntryWithUuid hk id (filter (λ p, p ∉ D) l) = Ok (Some e).
Proof.
  intros Her. induction l as [|p l IH]; simpl; [done|].
  unfold lookupEntry at 1. destruct (h_entries h !! p) as [P|] eqn:HP; [|done].
  simpl. intros Hfirst HeD. rewrite filter_cons.
  destruct (decide (e_uuid P = id)) as [Hid|Hid].
  - injection Hfirst as ->. rewrite decide_True by done. simpl.
    unfold lookupEntry. rewrite (Erased_entry _ _ _ _ _ _ Her _ _ HP HeD). simpl.
    by rewrite decide_True.
  - destruct (decide (p ∉ D)) as [HpD|HpD]; [|by apply IH].
    simpl. unfold lookupEntry at 1.
    rewrite (Erased_entry _ _ _ _ _ _ Her _ _ HP HpD). simpl.
    rewrite decide_False by done. by apply IH.
Qed.

Lemma findEntryByUuid_exists (n : nat) (h : Heap) (root : Ptr) (id : Uuid) (e : Ptr) :
  findEntryByUuid n h root id = Ok (Some e) → is_Some (h_entries h !! e).
Proof.
  unfold findEntryByUuid. destruct (entriesRecursive n h root); [|done..]. simpl.
  intros Hfirst. apply firstEntryWithUuid_Some in Hfirst as [_ (E & HE & _)].
  by exists E.
Qed.

Lemma DeletedObject_eta (o : DeletedObject) :
  o = mkDeletedObject (uuid o) (deletionTime o).
Proof. by destruct o. Qed.

(** ** The deletion pass on tombstoned entries and groups *)

(** C1: let a UUID have a tombstone in the union of the target's and the
    source's tombstones, [t] being the earliest deletion time recorded for
    it, and a live entry in the target.  The deletion pass returns, and
    afterwards: if the entry's last modification is strictly greater than
    [t], the entry is in the heap as it was, it is still the entry that the
    lookup by UUID from the target root finds, and the target holds no
    tombstone of that UUID; otherwise the entry is gone from the heap, the
    lookup no longer finds it and the target holds the tombstone of that
    UUID with the time [t]. *)
Theorem mergeDeletions_entry
    (fuel : nat) (h : Heap) (context : MergeContext) (tdb sdb root : Ptr)
    (TD SD : Database) (Root : Group) (id : Uuid) (t : QDateTime)
    (entry : Ptr) (E : Entry) :
  m_targetDb context = Some tdb →
  m_sourceDb context = Some sdb →
  m_targetRootGroup context = Some root →
  h_dbs h !! tdb = Some TD →
  h_dbs h !! sdb = Some SD →
  treeOk fuel h tdb root = true →
  h_groups h !! root = Some Root →
  g_parent Root = None →
  earliestDeletion id (db_deletedObjects TD ++ db_deletedObjects SD) = Some t →
  findEntryByUuid fuel h root id = Ok (Some entry) →
  h_entries h !! entry = Some E →
  ∃ (changes : ChangeList) (h' : Heap) (TD' : Database),
    mergeDeletions fuel context h = Ok (changes, h')
    ∧ h_dbs h' !! tdb = Some TD'
    ∧ if m_lastModificationTime (e_timeInfo E) >? t
      then h_entries h' !! entry = Some E
           ∧ findEntryByUuid fuel h' root id = Ok (Some entry)
           ∧ ∀ o, o ∈ db_deletedObjects TD' → uuid o ≠ id
      else h_entries h' !! entry = None
           ∧ findEntryByUuid fuel h' root id ≠ Ok (Some entry)
           ∧ mkDeletedObject id t ∈ db_deletedObjects TD'.
Proof.
  intros Htdb Hsdb Hroot HTD HSD Hok HRoot Hparent Hearliest Hfind HE.
  destruct (mergeDeletions_Erased fuel h context tdb sdb root TD SD Root)
    as (q & erased & changes & h' & Hq & Hrun & Her & Hout & Hdbs); try done.
  set (objects := db_deletedObjects TD ++ db_deletedObjects SD) in *.
  set (merged := mergedDeletions q) in *.
  (* the merged tombstone of the UUID *)
  assert (∃ o, o ∈ objects ∧ uuid o = id) as (o0 & Hin0 & Hid0).
  { apply earliestDeletion_Some. by rewrite Hearliest. }
  assert (merged !! id = Some (mkDeletedObject id t)) as Hmerged.
  { destruct (proj2 (co_dom _ _ _ _ _ Hq id)) as [om Hom]; [by exists o0|].
    destruct (co_merged _ _ _ _ _ Hq _ _ Hom) as [Hu Ht].
    unfold merged. rewrite Hom, (DeletedObject_eta om). do 2 f_equal; congruence. }
  pose proof (findEntryByUuid_Some h tdb fuel root id entry Hok Hfind)
    as (l & E' & p & P & Hl & Hinl & HE' & HidE & Hg & Hp & HP & HinP).
  assert (E' = E) as -> by congruence.
  assert (entry ∈ entries q) as Hqueued.
  { apply (co_entries _ _ _ _ _ Hq). exists o0. by rewrite Hid0. }
  assert (entryOutdated h merged entry
          = negb (m_lastModificationTime (e_timeInfo E) >? t)) as Houtdated.
  { unfold entryOutdated, QMap_at. by rewrite HE, HidE, Hmerged. }
  assert (entryTombstone h merged entry = mkDeletedObject id t) as Htomb.
  { unfold entryTombstone, QMap_at. by rewrite HE, HidE, Hmerged. }
  (* the tombstones of queued entries and groups carry their UUIDs *)
  assert (∀ e, e ∈ entries q →
               ∃ u, uuid (entryTombstone h merged e) = u
                    ∧ findEntryByUuid fuel h root u = Ok (Some e)) as HtombE.
  { intros e He. apply (co_entries _ _ _ _ _ Hq) in He as (o & Hin & Hfe).
    exists (uuid o). split; [|done].
    apply (findEntryByUuid_Some h tdb) in Hfe
      as (_ & Ee & _ & _ & _ & _ & HEe & Hide & _); [|done].
    destruct (proj2 (co_dom _ _ _ _ _ Hq (uuid o))) as [om Hom]; [by exists o|].
    destruct (co_merged _ _ _ _ _ Hq _ _ Hom) as [Hu _].
    unfold entryTombstone, QMap_at. rewrite HEe, Hide. fold merged.
    unfold merged. by rewrite Hom. }
  assert (∀ x, x ∈ groups q →
               ∃ u, uuid (groupTombstone h merged x) = u
                    ∧ findEntryByUuid fuel h root u = Ok None) as HtombG.
  { intros x Hx. apply (co_groups _ _ _ _ _ Hq) in Hx as (o & Hin & Hfe & Hfg).
    exists (uuid o). split; [|done].
    apply (findGroupByUuid_Some h tdb) in Hfg
      as (_ & X & _ & _ & HX & Hidx & _); [|done].
    destruct (proj2 (co_dom _ _ _ _ _ Hq (uuid o))) as [om Hom]; [by exists o|].
    destruct (co_merged _ _ _ _ _ Hq _ _ Hom) as [Hu _].
    unfold groupTombstone, QMap_at. rewrite HX, Hidx.
    unfold merged. by rewrite Hom. }
  eexists changes, h', _. split; [done|]. split; [done|].
  destruct (m_lastModificationTime (e_timeInfo E) >? t) eqn:Hcmp.
  - (* modified after the deletion: the entry is revived *)
    assert (entry ∉ (list_to_set
              (filter (λ e, entryOutdated h merged e = true) (entries q))
              : gset Ptr)) as HnD.
    { rewrite elem_of_list_to_set, list_elem_of_filter, Houtdated. by intros [? _]. }
    split; [by eapply Erased_entry|]. split.
    + assert (root ∉ (list_to_set erased : gset Ptr)) as HrootDG.
      { intros HrootDG. apply HnD.
        by eapply (Erased_below_entries _ _ _ _ _ _ Her fuel root l). }
      unfold findEntryByUuid in *.
      rewrite (entriesRecursive_Erased _ _ _ _ _ _ Her fuel root l (le_n _) Hok
                 HrootDG Hl). simpl.
      rewrite Hl in Hfind. simpl in Hfind.
      by eapply firstEntryWithUuid_Erased.
    + simpl. intros o Ho Huo.
      apply elem_of_app in Ho as [Ho|Ho].
      { apply (co_deletions _ _ _ _ _ Hq) in Ho as [Ho _]. congruence. }
      apply elem_of_app in Ho as [Ho|Ho].
      * apply list_elem_of_fmap in Ho as (e & -> & He).
        apply list_elem_of_filter in He as [Heout He].
        destruct (HtombE e He) as (u & Hu & Hfe).
        assert (e = entry) as -> by congruence.
        rewrite Houtdated in Heout. done.
      * apply list_elem_of_fmap in Ho as (x & -> & Hx).
        destruct (HtombG x (proj1 (Hout x Hx))) as (u & Hu & Hfe). congruence.
  - (* not modified after the deletion: the entry is erased *)
    assert (entry ∈ filter (λ e, entryOutdated h merged e = true) (entries q))
      as HinD.
    { apply list_elem_of_filter. by rewrite Houtdated. }
    assert (h_entries h' !! entry = None) as Hgone.
    { rewrite (er_entries _ _ _ _ _ _ Her), decide_True; [done|].
      by apply elem_of_list_to_set. }
    split; [done|]. split.
    + intros Hfind'. apply findEntryByUuid_exists in Hfind' as [? ?]. congruence.
    + simpl. apply elem_of_app. right. apply elem_of_app. left.
      apply list_elem_of_fmap. by exists entry.
Qed.

Lemma mergeDeletions_entry_witness :
  (∃ (changes : ChangeList) (h' : Heap) (TD' : Database),
     mergeDeletions 5 (m_context twoDatabasesMerger) deletedGroupHeap
     = Ok (changes, h')
     ∧ h_dbs h' !! 2%positive = Some TD'
     ∧ h_entries h' !! 40%positive = None
     ∧ findEntryByUuid 5 h' 20 7 ≠ Ok (Some 40%positive)
     ∧ mkDeletedObject 7 5000 ∈ db_deletedObjects TD')
  ∧ (∃ (changes : ChangeList) (h' : Heap) (TD' : Database),
       mergeDeletions 5 (m_context twoDatabasesMerger) deletedGroupHeap
       = Ok (changes, h')
       ∧ h_dbs h' !! 2%positive = Some TD'
       ∧ h_entries h' !! 41%positive = Some (plainEntry 8 "e2" 9000 0 21)
       ∧ findEntryByUuid 5 h' 20 8 = Ok (Some 41%positive)
       ∧ ∀ o, o ∈ db_deletedObjects TD' → uuid o ≠ 8%N).
Proof.
  split.
  - exact (mergeDeletions_entry 5 deletedGroupHeap (m_context twoDatabasesMerger)
             2 1 20
             (mkDatabase 20 [] (mkMetadata "target" 10 ∅) false)
             (mkDatabase 10
                [mkDeletedObject 101 5000; mkDeletedObject 7 5000;
                 mkDeletedObject 8 5000; mkDeletedObject 102 5000;
                 mkDeletedObject 103 5000] (mkMetadata "source" 10 ∅) false)
             (plainGroup 200 "root" 0 None (Some 2%positive) []
                         [21%positive; 22%positive])
             7%N 5000 40 (plainEntry 7 "e1" 1000 0 21)
             eq_refl eq_refl eq_refl eq_refl eq_refl eq_refl eq_refl eq_refl
             eq_refl eq_refl eq_refl).
  - exact (mergeDeletions_entry 5 deletedGroupHeap (m_context twoDatabasesMerger)
             2 1 20
             (mkDatabase 20 [] (mkMetadata "target" 10 ∅) false)
             (mkDatabase 10
                [mkDeletedObject 101 5000; mkDeletedObject 7 5000;
                 mkDeletedObject 8 5000; mkDeletedObject 102 5000;
                 mkDeletedObject 103 5000] (mkMetadata "source" 10 ∅) false)
             (plainGroup 200 "root" 0 None (Some 2%positive) []
                         [21%positive; 22%positive])
             8%N 5000 41 (plainEntry 8 "e2" 9000 0 21)
             eq_refl eq_refl eq_refl eq_refl eq_refl eq_refl eq_refl eq_refl
             eq_refl eq_refl eq_refl).
Defined.

Section DeletedObjects.

Variables (fuel : nat) (h : Heap) (tdb root : Ptr)
          (objects : list DeletedObject) (q : DeletionQueues).
Hypothesis Hok : treeOk fuel h tdb root = true.
Hypothesis Hq : Collected fuel h root objects q.



End DeletedObjects.



(** ** [TimeInfo::equals] *)

Lemma compareGeneric_0 (x y : Z) : compareGeneric x y = 0 ↔ x = y.
Proof. unfold compareGeneric. destruct (Z.eqb_spec x y), (x <? y); lia. Qed.

Lemma compare_QDateTime_0 (x y : QDateTime) (options : CompareOptions) :
  compare_QDateTime x y options = 0 ↔
  (testFlag options CompareRepresentsStatistic
   && testFlag options CompareItemIgnoreStatistics = true)
  ∨ (if testFlag options CompareItemIgnoreMilliseconds
     then Clock_serialized x = Clock_serialized y else x = y).
Proof.
  unfold compare_QDateTime.
  destruct (testFlag options CompareRepresentsStatistic
            && testFlag options CompareItemIgnoreStatistics).
  - split; [by left|done].
  - destruct (testFlag options CompareItemIgnoreMilliseconds);
      rewrite compareGeneric_0; split; [by right|by intros [?|?]|by right|by intros [?|?]].
Qed.

Lemma compare_int_0 (x y : Z) (options : CompareOptions) :
  compare_int x y options = 0 ↔
  (testFlag options CompareRepresentsStatistic
   && testFlag options CompareItemIgnoreStatistics = true)
  ∨ x = y.
Proof.
  unfold compare_int.
  destruct (testFlag options CompareRepresentsStatistic
            && testFlag options CompareItemIgnoreStatistics).
  - split; [by left|done].
  - rewrite compareGeneric_0. split; [by right|by intros [?|?]].
Qed.

Lemma compare_enabled_0 (e : bool) (x : QDateTime) (e' : bool) (y : QDateTime)
    (options : CompareOptions) :
  compare_enabled e x e' y options = 0 ↔
  e = e' ∧ (e = true → compare_QDateTime x y options = 0).
Proof. destruct e, e'; simpl; split; try done; try tauto; by intros [? ?]. Qed.

(** What [TimeInfo::equals] decides, field by field. *)
Lemma TimeInfo_equals_true (a b : TimeInfo) (options : CompareOptions) :
  TimeInfo_equals a b options = true ↔
  compare_QDateTime (m_lastModificationTime a) (m_lastModificationTime b) options = 0
  ∧ compare_QDateTime (m_creationTime a) (m_creationTime b) options = 0
  ∧ compare_QDateTime (m_lastAccessTime a) (m_lastAccessTime b)
      (Z.lor options CompareRepresentsStatistic) = 0
  ∧ m_expires a = m_expires b
  ∧ (m_expires a = true →
     compare_QDateTime (m_expiryTime a) (m_expiryTime b) options = 0)
  ∧ compare_int (m_usageCount a) (m_usageCount b)
      (Z.lor options CompareRepresentsStatistic) = 0
  ∧ compare_QDateTime (m_locationChanged a) (m_locationChanged b) options = 0.
Proof.
  unfold TimeInfo_equals, expiryTime, atPrecision.
  pose proof (compare_enabled_0 (m_expires a) (m_expiryTime a) (m_expires b)
                (m_expiryTime b) options) as Henabled.
  repeat match goal with
         | |- context [negb (?x =? 0)] => destruct (Z.eqb_spec x 0); simpl
         end; split; try done; try tauto; intros (? & ? & ? & ? & ? & ? & ?); tauto.
Qed.

(** X25: [operator==] compares at native precision and ignores nothing.  When it
    holds, the two values agree on the last modification, creation, last
    access and location change times and on the usage count; and on two
    values that both expire it holds exactly when the values are equal,
    field by field, the expiry time included. *)
Theorem TimeInfo_eqb_fields (a b : TimeInfo) :
  (TimeInfo_eqb a b = true →
   m_lastModificationTime a = m_lastModificationTime b
   ∧ m_creationTime a = m_creationTime b
   ∧ m_lastAccessTime a = m_lastAccessTime b
   ∧ m_usageCount a = m_usageCount b
   ∧ m_locationChanged a = m_locationChanged b)
  ∧ (m_expires a = true → m_expires b = true →
     (TimeInfo_eqb a b = true ↔ a = b)).
Proof.
  unfold TimeInfo_eqb. rewrite TimeInfo_equals_true.
  rewrite !compare_QDateTime_0, compare_int_0. unfold CompareDefault.
  change (testFlag 0 _) with false.
  change (testFlag (Z.lor 0 CompareRepresentsStatistic) CompareItemIgnoreStatistics)
    with false.
  change (testFlag (Z.lor 0 CompareRepresentsStatistic) CompareItemIgnoreMilliseconds)
    with false.
  rewrite !andb_false_r. cbn [andb]. split.
  - intros ([?|?] & [?|?] & [?|?] & _ & _ & [?|?] & [?|?]); done.
  - intros Ha Hb. split.
    + intros ([?|?] & [?|?] & [?|?] & _ & Hexpiry & [?|?] & [?|?]); try done.
      destruct (Hexpiry Ha) as [?|?]; [done|].
      destruct a, b; simpl in *; congruence.
    + intros <-. rewrite Ha. by repeat split; try right.
Qed.

Lemma TimeInfo_eqb_fields_witness :
  TimeInfo_eqb (mkTimeInfo 1000 0 0 7000 true 3 0) (mkTimeInfo 1000 0 0 7250 true 3 0)
  ≠ true.
Proof.
  intros Heq.
  apply (proj2 (TimeInfo_eqb_fields (mkTimeInfo 1000 0 0 7000 true 3 0)
                  (mkTimeInfo 1000 0 0 7250 true 3 0)) eq_refl eq_refl) in Heq.
  discriminate.
Defined.

Lemma compare_QDateTime_sym (x y : QDateTime) (options : CompareOptions) :
  compare_QDateTime x y options = 0 → compare_QDateTime y x options = 0.
Proof.
  rewrite !compare_QDateTime_0.
  destruct (testFlag options CompareItemIgnoreMilliseconds); intros [?|?]; auto.
Qed.

Lemma compare_QDateTime_trans (x y z : QDateTime) (options : CompareOptions) :
  compare_QDateTime x y options = 0 → compare_QDateTime y z options = 0 →
  compare_QDateTime x z options = 0.
Proof.
  rewrite !compare_QDateTime_0.
  destruct (testFlag options CompareItemIgnoreMilliseconds);
    intros [?|?] [?|?]; auto; right; congruence.
Qed.

Lemma compare_int_sym (x y : Z) (options : CompareOptions) :
  compare_int x y options = 0 → compare_int y x options = 0.
Proof. rewrite !compare_int_0. intros [?|?]; auto. Qed.

Lemma compare_int_trans (x y z : Z) (options : CompareOptions) :
  compare_int x y options = 0 → compare_int y z options = 0 →
  compare_int x z options = 0.
Proof. rewrite !compare_int_0. intros [?|?] [?|?]; auto; right; congruence. Qed.

(** X26: [TimeInfo::equals] is symmetric and transitive under every set of
    options. *)
Theorem TimeInfo_equals_sym_trans (a b c : TimeInfo) (options : CompareOptions) :
  TimeInfo_equals a b options = TimeInfo_equals b a options
  ∧ (TimeInfo_equals a b options = true → TimeInfo_equals b c options = true →
     TimeInfo_equals a c options = true).
Proof.
  assert (∀ x y : TimeInfo,
            TimeInfo_equals x y options = true → TimeInfo_equals y x options = true)
    as Hsym.
  { intros x y. rewrite !TimeInfo_equals_true.
    intros (H1 & H2 & H3 & H4 & H5 & H6 & H7).
    repeat split; try (by apply compare_QDateTime_sym); try done.
    - intros Hy. apply compare_QDateTime_sym, H5. congruence.
    - by apply compare_int_sym. }
  split.
  - destruct (TimeInfo_equals a b options) eqn:Hab.
    + symmetry. by apply Hsym.
    + destruct (TimeInfo_equals b a options) eqn:Hba; [|done].
      apply Hsym in Hba. congruence.
  - rewrite !TimeInfo_equals_true.
    intros (H1 & H2 & H3 & H4 & H5 & H6 & H7) (K1 & K2 & K3 & K4 & K5 & K6 & K7).
    repeat split; try (by eapply compare_QDateTime_trans); try congruence.
    + intros Ha. eapply compare_QDateTime_trans; [by apply H5|].
      apply K5. congruence.
    + by eapply compare_int_trans.
Qed.

Lemma TimeInfo_equals_sym_trans_witness :
  TimeInfo_equals (stamps 1000 0) (stamps 1400 0) CompareItemIgnoreMilliseconds
  = TimeInfo_equals (stamps 1400 0) (stamps 1000 0) CompareItemIgnoreMilliseconds
  ∧ TimeInfo_equals (stamps 1000 0) (stamps 1900 0) CompareItemIgnoreMilliseconds
    = true.
Proof.
  split.
  - exact (proj1 (TimeInfo_equals_sym_trans (stamps 1000 0) (stamps 1400 0)
                    (stamps 1900 0) CompareItemIgnoreMilliseconds)).
  - exact (proj2 (TimeInfo_equals_sym_trans (stamps 1000 0) (stamps 1400 0)
                    (stamps 1900 0) CompareItemIgnoreMilliseconds)
             eq_refl eq_refl).
Defined.




(** X28: with [CompareItemIgnoreMilliseconds] alone, [TimeInfo::equals] compares
    the times cut to the second.  When it holds, the two values agree to the
    second on the last modification, creation, last access and location
    change times, and have the same usage count; and on two values that
    both expire it holds exactly when they agree to the second on the five
    times, the expiry time included, and have the same usage count. *)
Theorem TimeInfo_equals_ignores_milliseconds (a b : TimeInfo) :
  (TimeInfo_equals a b CompareItemIgnoreMilliseconds = true →
   Clock_serialized (m_lastModificationTime a)
   = Clock_serialized (m_lastModificationTime b)
   ∧ Clock_serialized (m_creationTime a) = Clock_serialized (m_creationTime b)
   ∧ Clock_serialized (m_lastAccessTime a) = Clock_serialized (m_lastAccessTime b)
   ∧ m_usageCount a = m_usageCount b
   ∧ Clock_serialized (m_locationChanged a)
     = Clock_serialized (m_locationChanged b))
  ∧ (m_expires a = true → m_expires b = true →
     (TimeInfo_equals a b CompareItemIgnoreMilliseconds = true ↔
      Clock_serialized (m_lastModificationTime a)
      = Clock_serialized (m_lastModificationTime b)
      ∧ Clock_serialized (m_creationTime a) = Clock_serialized (m_creationTime b)
      ∧ Clock_serialized (m_lastAccessTime a)
        = Clock_serialized (m_lastAccessTime b)
      ∧ Clock_serialized (m_expiryTime a) = Clock_serialized (m_expiryTime b)
      ∧ m_usageCount a = m_usageCount b
      ∧ Clock_serialized (m_locationChanged a)
        = Clock_serialized (m_locationChanged b))).
Proof.
  rewrite TimeInfo_equals_true, !compare_QDateTime_0, compare_int_0.
  change (testFlag CompareItemIgnoreMilliseconds CompareItemIgnoreMilliseconds)
    with true.
  change (testFlag CompareItemIgnoreMilliseconds CompareRepresentsStatistic)
    with false.
  change (testFlag (Z.lor CompareItemIgnoreMilliseconds CompareRepresentsStatistic)
            CompareItemIgnoreStatistics) with false.
  change (testFlag (Z.lor CompareItemIgnoreMilliseconds CompareRepresentsStatistic)
            CompareItemIgnoreMilliseconds) with true.
  rewrite !andb_false_r. cbn [andb]. split.
  - intros ([?|?] & [?|?] & [?|?] & _ & _ & [?|?] & [?|?]); done.
  - intros Ha Hb. split.
    + intros ([?|?] & [?|?] & [?|?] & _ & Hexpiry & [?|?] & [?|?]); try done.
      by destruct (Hexpiry Ha) as [?|?].
    + intros (? & ? & ? & ? & ? & ?). rewrite Ha, Hb.
      by repeat split; try right.
Qed.

Lemma TimeInfo_equals_ignores_milliseconds_witness :
  TimeInfo_equals (mkTimeInfo 1400 0 90 7250 true 3 250)
                  (mkTimeInfo 1000 0 0 7000 true 3 0)
                  CompareItemIgnoreMilliseconds
  = true.
Proof.
  apply (proj2 (TimeInfo_equals_ignores_milliseconds
                  (mkTimeInfo 1400 0 90 7250 true 3 250)
                  (mkTimeInfo 1000 0 0 7000 true 3 0)) eq_refl eq_refl).
  repeat split; reflexivity.
Defined.

(** ** The map of [mergeHistory] *)

Lemma QMap_contains_keys {V} (k : QDateTime) (m : list (QDateTime * V)) :
  QMap_contains k m = true ↔ k ∈ QMap_keys m.
Proof.
  unfold QMap_contains, QMap_keys. rewrite existsb_exists, list_elem_of_fmap.
  split.
  - intros ([k' v] & Hin & Heq). apply Z.eqb_eq in Heq. simpl in Heq. subst.
    exists (k, v). split; [done|]. by apply list_elem_of_In.
  - intros ([k' v] & -> & Hin). exists (k', v). split.
    + by apply list_elem_of_In.
    + simpl. apply Z.eqb_refl.
Qed.

Lemma QMap_insert_keys {V} (k : QDateTime) (v : V) (m : list (QDateTime * V))
    (k' : QDateTime) :
  k' ∈ QMap_keys (QMap_insert k v m) ↔ k' = k ∨ k' ∈ QMap_keys m.
Proof.
  unfold QMap_keys. induction m as [|[k0 v0] m IH]; simpl.
  - rewrite list_elem_of_singleton. split; [by left|]. intros [?|H]; [done|].
    by inversion H.
  - destruct (Z.ltb_spec k k0); simpl.
    + rewrite !elem_of_cons. tauto.
    + destruct (Z.eqb_spec k k0); simpl.
      * subst. rewrite !elem_of_cons. tauto.
      * rewrite !elem_of_cons, IH. tauto.
Qed.

Lemma QMap_insert_elem {V} (k : QDateTime) (v : V) (m : list (QDateTime * V))
    (kv : QDateTime * V) :
  kv ∈ QMap_insert k v m → kv = (k, v) ∨ kv ∈ m.
Proof.
  induction m as [|[k0 v0] m IH]; simpl.
  - rewrite list_elem_of_singleton. by left.
  - destruct (k <? k0); [|destruct (k =? k0)]; rewrite !elem_of_cons; tauto.
Qed.

Lemma QMap_insert_sorted {V} (k : QDateTime) (v : V) (m : list (QDateTime * V)) :
  StronglySorted Z.lt (QMap_keys m) →
  StronglySorted Z.lt (QMap_keys (QMap_insert k v m)).
Proof.
  unfold QMap_keys. induction m as [|[k0 v0] m IH]; simpl; intros Hs.
  - repeat constructor.
  - apply StronglySorted_inv in Hs as [Hs Hall].
    destruct (Z.ltb_spec k k0); simpl.
    + constructor; [by constructor|]. constructor; [done|].
      eapply Forall_impl; [done|]. simpl. lia.
    + destruct (Z.eqb_spec k k0); simpl.
      * subst. by constructor.
      * constructor; [by apply IH|].
        apply Forall_forall. intros k' Hk'.
        apply (QMap_insert_keys k v m k') in Hk' as [->|Hk']; [lia|].
        by eapply Forall_forall in Hall.
Qed.

Lemma fold_left_invariant {A B} (P : A → Prop) (f : A → B → A) (l : list B) (a : A) :
  P a → (∀ a x, x ∈ l → P a → P (f a x)) → P (fold_left f l a).
Proof.
  revert a. induction l as [|x l IH]; intros a Ha Hstep; simpl; [done|].
  apply IH.
  - apply (Hstep a x); [by left|done].
  - intros a' x' Hx'. apply (Hstep a' x'). by right.
Qed.

Lemma QMap_insert_absent {V} (k : QDateTime) (v : V) (m : list (QDateTime * V))
    (kv : QDateTime * V) :
  k ∉ QMap_keys m → kv ∈ m → kv ∈ QMap_insert k v m.
Proof.
  unfold QMap_keys. induction m as [|[k0 v0] m IH]; simpl.
  { intros _ Hin. by inversion Hin. }
  rewrite not_elem_of_cons. intros [Hne Hnin].
  destruct (k <? k0); [by intros ?; right|].
  destruct (Z.eqb_spec k k0); [done|].
  rewrite !elem_of_cons. intros [->|Hin]; [by left|]. right. by apply IH.
Qed.

Section MergedHistory.

Variables (SE TE : Entry).

Lemma wellKeyed_insert (m : list (QDateTime * HistoryItem)) (v : HistoryItem) :
  historyWellKeyed SE TE m → historyCandidate SE TE v →
  historyWellKeyed SE TE (QMap_insert (historyKey v) v m).
Proof.
  intros [Hs Hm] Hv. split; [by apply QMap_insert_sorted|].
  intros k' v' Hin. apply QMap_insert_elem in Hin as [[= -> ->]|Hin]; [done|].
  by apply Hm.
Qed.

Lemma mergedHistory_wellKeyed : historyWellKeyed SE TE (mergedHistory SE TE).
Proof.
  unfold mergedHistory.
  set (m1 := fold_left _ (e_history TE) []).
  set (m2 := fold_left _ (e_history SE) m1).
  assert (historyWellKeyed SE TE m1) as H1.
  { apply fold_left_invariant.
    - split; [constructor|]. intros k v Hin. by inversion Hin.
    - intros m item Hitem Hm. apply (wellKeyed_insert m item Hm). by left. }
  assert (historyWellKeyed SE TE m2) as H2.
  { apply fold_left_invariant; [done|].
    intros m item Hitem Hm. destruct (negb _); [|done].
    apply (wellKeyed_insert m item Hm). right. by left. }
  destruct (_ && _).
  - apply (wellKeyed_insert m2 (Entry_snapshot TE) H2). right. right. by left.
  - destruct (_ && _); [|done].
    apply (wellKeyed_insert m2 (Entry_snapshot SE) H2). right. right. by right.
Qed.

End MergedHistory.

(** X14: the history that [mergeHistory] builds is in strictly ascending order of
    modification time cut to the second, so no two of its items fall in the
    same second; and each item is a history item of the target, a history
    item of the source, or one of the two entries. *)
Theorem mergedHistory_sorted (SE TE : Entry) :
  StronglySorted Z.lt (map historyKey (QMap_values (mergedHistory SE TE)))
  ∧ ∀ v, v ∈ QMap_values (mergedHistory SE TE) →
         v ∈ e_history TE ∨ v ∈ e_history SE
         ∨ v = Entry_snapshot TE ∨ v = Entry_snapshot SE.
Proof.
  destruct (mergedHistory_wellKeyed SE TE) as [Hs Hm]. split.
  - assert (map historyKey (QMap_values (mergedHistory SE TE))
            = QMap_keys (mergedHistory SE TE)) as ->; [|done].
    unfold QMap_values, QMap_keys. rewrite map_map.
    apply map_ext_in. intros [k v] Hin. simpl. symmetry.
    by apply Hm, list_elem_of_In.
  - intros v Hv. unfold QMap_values in Hv.
    apply list_elem_of_fmap in Hv as ([k v'] & -> & Hin). by apply (Hm k v').
Qed.

Lemma mergedHistory_sorted_witness :
  map historyKey (QMap_values (mergedHistory historySourceEntry historyTargetEntry))
  = [1000; 3000; 5000; 6000]
  ∧ StronglySorted Z.lt
      (map historyKey
         (QMap_values (mergedHistory historySourceEntry historyTargetEntry)))
  ∧ ∀ v, v ∈ QMap_values (mergedHistory historySourceEntry historyTargetEntry) →
         v ∈ e_history historyTargetEntry ∨ v ∈ e_history historySourceEntry
         ∨ v = Entry_snapshot historyTargetEntry
         ∨ v = Entry_snapshot historySourceEntry.
Proof.
  split; [reflexivity|].
  exact (mergedHistory_sorted historySourceEntry historyTargetEntry).
Defined.

Section MergedHistoryCoverage.

Variables (SE TE : Entry).

Lemma insertMissing_keys (m : list (QDateTime * HistoryItem)) (item : HistoryItem)
    (k : QDateTime) :
  k ∈ QMap_keys (historyInsertMissing m item) ↔ k = historyKey item ∨ k ∈ QMap_keys m.
Proof.
  unfold historyInsertMissing.
  destruct (QMap_contains (historyKey item) m) eqn:Hc; simpl.
  - apply QMap_contains_keys in Hc. split; [by right|]. by intros [->|?].
  - apply QMap_insert_keys.
Qed.

Lemma fold_insertAlways_keys (l : list HistoryItem) :
  ∀ (m : list (QDateTime * HistoryItem)) (k : QDateTime),
    k ∈ QMap_keys (fold_left historyInsertAlways l m)
    ↔ k ∈ QMap_keys m ∨ k ∈ map historyKey l.
Proof.
  induction l as [|item l IH]; intros m k; simpl.
  - split; [by left|]. intros [?|H]; [done|by inversion H].
  - rewrite IH. unfold historyInsertAlways. rewrite QMap_insert_keys, elem_of_cons.
    tauto.
Qed.

Lemma fold_insertMissing_keys (l : list HistoryItem) :
  ∀ (m : list (QDateTime * HistoryItem)) (k : QDateTime),
    k ∈ QMap_keys (fold_left historyInsertMissing l m)
    ↔ k ∈ QMap_keys m ∨ k ∈ map historyKey l.
Proof.
  induction l as [|item l IH]; intros m k; simpl.
  - split; [by left|]. intros [?|H]; [done|by inversion H].
  - rewrite IH, insertMissing_keys, elem_of_cons. tauto.
Qed.

Lemma targetFirst_insert (m : list (QDateTime * HistoryItem)) (k : QDateTime)
    (v : HistoryItem) :
  historyTargetFirst TE m → k ∉ QMap_keys m →
  historyTargetFirst TE (QMap_insert k v m).
Proof.
  intros [Hkeys Hvalues] Hk. split.
  - intros k' Hk'. apply QMap_insert_keys. right. by apply Hkeys.
  - intros k' v' Hin Hk'. apply QMap_insert_elem in Hin as [[= -> ->]|Hin].
    + destruct Hk. by apply Hkeys.
    + by eapply Hvalues.
Qed.

Lemma mergedHistory_targetFirst : historyTargetFirst TE (mergedHistory SE TE).
Proof.
  unfold mergedHistory.
  change (fold_left _ (e_history TE) []) with (fold_left historyInsertAlways (e_history TE) []).
  set (m1 := fold_left historyInsertAlways (e_history TE) []).
  change (fold_left _ (e_history SE) m1) with (fold_left historyInsertMissing (e_history SE) m1).
  set (m2 := fold_left historyInsertMissing (e_history SE) m1).
  assert (historyTargetFirst TE m1) as H1.
  { split.
    - intros k Hk. apply fold_insertAlways_keys. by right.
    - intros k v Hin _. revert k v Hin.
      apply (fold_left_invariant
               (λ m, ∀ k v, (k, v) ∈ m → v ∈ e_history TE) historyInsertAlways).
      + intros k v Hin. by inversion Hin.
      + intros m item Hitem Hm k v Hin.
        apply QMap_insert_elem in Hin as [[= -> ->]|Hin]; [done|]. by eapply Hm. }
  assert (historyTargetFirst TE m2) as H2.
  { apply fold_left_invariant; [done|].
    intros m item Hitem Hm. unfold historyInsertMissing.
    destruct (QMap_contains (historyKey item) m) eqn:Hc; simpl; [done|].
    apply targetFirst_insert; [done|].
    rewrite <-QMap_contains_keys, Hc. done. }
  assert (∀ (c : bool) k v,
            historyTargetFirst TE (if c && negb (QMap_contains k m2)
                         then QMap_insert k v m2 else m2)) as Hguard.
  { intros c k v. destruct c; simpl; [|done].
    destruct (QMap_contains k m2) eqn:Hc; simpl; [done|].
    apply targetFirst_insert; [done|]. rewrite <-QMap_contains_keys, Hc. done. }
  match goal with
  | |- historyTargetFirst TE
         (if ?c1 && negb (QMap_contains ?k1 _) then QMap_insert _ ?v1 _
                    else if ?c2 && negb (QMap_contains ?k2 _)
                         then QMap_insert _ ?v2 _ else _) =>
      pose proof (Hguard c1 k1 v1) as A1; pose proof (Hguard c2 k2 v2) as A2;
      destruct (c1 && negb (QMap_contains k1 m2)); [exact A1|exact A2]
  end.
Qed.

Lemma mergedHistory_keys (k : QDateTime) :
  k ∈ map historyKey (e_history TE) ∨ k ∈ map historyKey (e_history SE) →
  k ∈ QMap_keys (mergedHistory SE TE).
Proof.
  intros Hk. unfold mergedHistory.
  change (fold_left _ (e_history TE) []) with (fold_left historyInsertAlways (e_history TE) []).
  set (m1 := fold_left historyInsertAlways (e_history TE) []).
  change (fold_left _ (e_history SE) m1) with (fold_left historyInsertMissing (e_history SE) m1).
  set (m2 := fold_left historyInsertMissing (e_history SE) m1).
  assert (k ∈ QMap_keys m2) as H2.
  { apply fold_insertMissing_keys. destruct Hk as [Hk|Hk]; [|by right].
    left. apply fold_insertAlways_keys. by right. }
  destruct (_ && _); [by apply QMap_insert_keys; right|].
  destruct (_ && _); [by apply QMap_insert_keys; right|done].
Qed.

Lemma mergedHistory_older :
  let tT := Clock_serialized (lastModificationTime (e_timeInfo TE) High) in
  let tS := Clock_serialized (lastModificationTime (e_timeInfo SE) High) in
  tT ≠ tS → Z.min tT tS ∈ QMap_keys (mergedHistory SE TE).
Proof.
  intros tT tS Hne. unfold mergedHistory. fold tT tS.
  set (m2 := fold_left _ (e_history SE) _).
  destruct (Z.ltb_spec tT tS) as [Hlt|Hge]; simpl.
  - rewrite Z.min_l by lia.
    destruct (QMap_contains tT m2) eqn:Hc; simpl.
    + apply QMap_contains_keys in Hc.
      destruct (_ && _); [by apply QMap_insert_keys; right|done].
    + apply QMap_insert_keys. by left.
  - rewrite Z.min_r by lia.
    assert ((tT >? tS) = true) as -> by lia. simpl.
    destruct (QMap_contains tS m2) eqn:Hc; simpl.
    + by apply QMap_contains_keys in Hc.
    + apply QMap_insert_keys. by left.
Qed.

End MergedHistoryCoverage.

(** X15: no second of either history is lost in the map that [mergeHistory]
    builds: every history item of the target and of the source has its
    second among the keys, and so has the older of the two entries when
    their seconds differ.  Where the target's history has an item of a
    second, the map holds a history item of the target for that second: an
    item of the source never replaces it. *)
Theorem mergedHistory_covers (SE TE : Entry) :
  (∀ item, item ∈ e_history TE ∨ item ∈ e_history SE →
           historyKey item ∈ QMap_keys (mergedHistory SE TE))
  ∧ (Clock_serialized (lastModificationTime (e_timeInfo TE) High)
     ≠ Clock_serialized (lastModificationTime (e_timeInfo SE) High) →
     Z.min (Clock_serialized (lastModificationTime (e_timeInfo TE) High))
           (Clock_serialized (lastModificationTime (e_timeInfo SE) High))
     ∈ QMap_keys (mergedHistory SE TE))
  ∧ (∀ item v, item ∈ e_history TE →
               (historyKey item, v) ∈ mergedHistory SE TE → v ∈ e_history TE).
Proof.
  split; [|split].
  - intros item Hitem. apply mergedHistory_keys.
    destruct Hitem as [H|H]; [left|right]; apply list_elem_of_fmap; by exists item.
  - apply mergedHistory_older.
  - intros item v Hitem Hin.
    destruct (mergedHistory_targetFirst SE TE) as [_ Hfirst].
    apply (Hfirst (historyKey item) v Hin).
    apply list_elem_of_fmap. by exists item.
Qed.

Lemma mergedHistory_covers_witness :
  mergedHistory historySourceEntry historyTargetEntry
  = [(1000, revision 7 "e" 1000); (3000, revision 7 "e1" 3200);
     (5000, revision 7 "e2" 5000); (6000, Entry_snapshot historyTargetEntry)]
  ∧ 3000 ∈ QMap_keys (mergedHistory historySourceEntry historyTargetEntry)
  ∧ 6000 ∈ QMap_keys (mergedHistory historySourceEntry historyTargetEntry)
  ∧ ∀ v, (3000, v) ∈ mergedHistory historySourceEntry historyTargetEntry →
         v ∈ e_history historyTargetEntry.
Proof.
  destruct (mergedHistory_covers historySourceEntry historyTargetEntry)
    as (Hitems & Holder & Hfirst).
  split; [reflexivity|]. split; [|split].
  - apply (Hitems (revision 7 "x" 3700)). right.
    refine (bool_decide_unpack _ _). vm_compute. exact I.
  - apply Holder. vm_compute. discriminate.
  - intros v. apply (Hfirst (revision 7 "e1" 3200)).
    refine (bool_decide_unpack _ _). vm_compute. exact I.
Defined.

(** ** The scan of [mergeHistory] for a change *)

Lemma QList_value_length {A} (l : list A) : QList_value l (Z.of_nat (length l) - 0) = None.
Proof.
  unfold QList_value. rewrite Z.sub_0_r.
  destruct (0 <=? _); simpl; [|done]. by rewrite Z.ltb_irrefl.
Qed.

Lemma historyChanged_small (maxItems : Z) (old new : list HistoryItem) :
  maxItems ≤ 1 → historyChanged (Z.to_nat maxItems) 0 old new = false.
Proof.
  intros Hmax.
  destruct (Z.to_nat maxItems) as [|[|n]] eqn:Hn; [done| |lia].
  simpl. by rewrite !QList_value_length.
Qed.

(** X16: the scan starts at the position one past the end of both lists, where
    both lists have no item, and runs for [historyMaxItems] positions: with
    a limit of one item or less (the limit [-1] among them) it finds no
    difference, and [mergeHistory] returns false without touching the heap,
    whatever the two histories are. *)
Theorem mergeHistory_small_limit
    (h : Heap) (sourceEntry targetEntry g d : Ptr) (SE TE : Entry) (G : Group)
    (D : Database) :
  h_entries h !! sourceEntry = Some SE →
  h_entries h !! targetEntry = Some TE →
  e_group TE = Some g →
  h_groups h !! g = Some G →
  g_db G = Some d →
  h_dbs h !! d = Some D →
  md_historyMaxItems (db_metadata D) ≤ 1 →
  mergeHistory sourceEntry targetEntry h = Ok (false, h).
Proof.
  intros HSE HTE Hg HG Hd HD Hmax. unfold mergeHistory.
  mstep getEntry_Ok. mstep getEntry_Ok.
  mstep Entry_database_Ok. rewrite Hd.
  rewrite (bind_Ok _ _ _ _ _ (deref_Some _ _)).
  mstep Database_metadata_Ok.
  by rewrite historyChanged_small.
Qed.

Lemma mergeHistory_small_limit_witness :
  mergeHistory 30 40 singleRevisionHeap = Ok (false, singleRevisionHeap).
Proof.
  exact (mergeHistory_small_limit singleRevisionHeap 30 40 21 2 newerSourceEntry
           (plainEntry 7 "e" 1000 0 21)
           (plainGroup 101 "a" 0 (Some 20%positive) (Some 2%positive) [40%positive] [])
           (mkDatabase 20 [] (mkMetadata "target" 1 ∅) false)
           eq_refl eq_refl eq_refl eq_refl eq_refl eq_refl
           ltac:(simpl; lia)).
Defined.

(** ** Custom icons: [mergeMetadata] *)

Section MergeMetadata.

Variables (tdb : Ptr) (sourceMetadata : Metadata).

Lemma withIcons_id (D : Database) : Database_withIcons (md_customIcons (db_metadata D)) D = D.
Proof. by destruct D as [? ? [? ? ?] ?]. Qed.

(** The loop over the identifiers of the source's icons. *)
Lemma mergeMetadata_loop (l : list Uuid) :
  NoDup l →
  (∀ id, id ∈ l → is_Some (md_customIcons sourceMetadata !! id)) →
  ∀ (h : Heap) (D : Database),
    h_dbs h !! tdb = Some D →
    ∃ icons,
      concatMapM (addMissingIcon tdb sourceMetadata) l h
      = Ok (map AddingMissingIcon
                (filter (λ id, md_customIcons (db_metadata D) !! id = None) l),
            Heap_withDbs (<[tdb := Database_withIcons icons D]> (h_dbs h)) h)
      ∧ ∀ id, icons !! id
              = match md_customIcons (db_metadata D) !! id with
                | Some icon => Some icon
                | None => if decide (id ∈ l)
                          then md_customIcons sourceMetadata !! id else None
                end.
Proof.
  induction l as [|k l IH]; intros Hnd Hsrc h D HD.
  - exists (md_customIcons (db_metadata D)). split.
    + simpl. rewrite withIcons_id, Heap_withDbs_id by done. done.
    + intros id. destruct (_ !! id); [done|]. by rewrite decide_False by by inversion 1.
  - apply NoDup_cons in Hnd as [Hk Hnd].
    destruct (Hsrc k) as [icon Hicon]; [by left|].
    simpl. rewrite filter_cons.
    destruct (md_customIcons (db_metadata D) !! k) as [old|] eqn:Hold.
    + (* the target has an icon of that identifier *)
      assert (addMissingIcon tdb sourceMetadata k h = Ok ([], h)) as Hstep.
      { unfold addMissingIcon. mstep Database_metadata_Ok.
        unfold Metadata_containsCustomIcon. rewrite Hold.
        by rewrite bool_decide_true by by eexists. }
      rewrite (bind_Ok _ _ _ _ _ Hstep).
      rewrite decide_False by done.
      destruct (IH Hnd (λ id Hid, Hsrc id (list_elem_of_further _ _ _ Hid)) h D HD)
        as (icons & Hrun & Hicons).
      exists icons. split.
      * by rewrite (bind_Ok _ _ _ _ _ Hrun).
      * intros id. rewrite Hicons. destruct (_ !! id) eqn:Hid; [done|].
        destruct (decide (id = k)) as [->|Hne]; [congruence|].
        destruct (decide (id ∈ l)).
        -- by rewrite decide_True by by right.
        -- rewrite decide_False; [done|]. by intros [?|?]%elem_of_cons.
    + (* the icon is missing in the target *)
      set (D1 := Database_withMetadata
                   (Metadata_addCustomIcon k (Metadata_customIcon sourceMetadata k)
                                           (db_metadata D)) D).
      assert (addMissingIcon tdb sourceMetadata k h
              = Ok ([AddingMissingIcon k],
                    Heap_withDbs (<[tdb := D1]> (h_dbs h)) h)) as Hstep.
      { unfold addMissingIcon. mstep Database_metadata_Ok.
        unfold Metadata_containsCustomIcon. rewrite Hold.
        rewrite bool_decide_false by (by intros [? ?]). simpl.
        by erewrite bind_Ok; [|by apply modifyDb_Ok]. }
      rewrite (bind_Ok _ _ _ _ _ Hstep).
      rewrite decide_True by done.
      edestruct (IH Hnd (λ id Hid, Hsrc id (list_elem_of_further _ _ _ Hid))
                   (Heap_withDbs (<[tdb := D1]> (h_dbs h)) h) D1)
        as (icons & Hrun & Hicons); [apply lookup_insert_eq|].
      exists icons. split.
      * rewrite (bind_Ok _ _ _ _ _ Hrun), mret_Ok. simpl. do 2 f_equal.
        -- rewrite (filter_ext_elem _ (λ id, md_customIcons (db_metadata D) !! id = None)).
           { done. }
           intros id Hid. rewrite lookup_insert_ne; [done|]. by intros ->.
        -- unfold Heap_withDbs. simpl. rewrite insert_insert_eq. by do 2 f_equal.
      * intros id. rewrite Hicons. unfold D1, Metadata_addCustomIcon,
          Metadata_customIcon. simpl. rewrite Hicon. simpl.
        destruct (decide (id = k)) as [->|Hne].
        -- rewrite lookup_insert_eq, Hold. by rewrite decide_True by by left.
        -- rewrite lookup_insert_ne by done.
           destruct (_ !! id) eqn:Hid; [done|].
           destruct (decide (id ∈ l)).
           ++ by rewrite decide_True by by right.
           ++ rewrite decide_False; [done|]. by intros [?|?]%elem_of_cons.
Qed.

End MergeMetadata.

(** [mergeMetadata] on two databases of the heap. *)
Lemma mergeMetadata_Ok
    (h : Heap) (context : MergeContext) (sdb tdb : Ptr) (SD TD : Database) :
  m_sourceDb context = Some sdb →
  m_targetDb context = Some tdb →
  h_dbs h !! sdb = Some SD →
  h_dbs h !! tdb = Some TD →
  mergeMetadata context h
  = Ok (map AddingMissingIcon
            (filter (λ id, md_customIcons (db_metadata TD) !! id = None)
                    (map fst (map_to_list (md_customIcons (db_metadata SD))))),
        Heap_withDbs
          (<[tdb := Database_withMetadata
                      (mkMetadata (md_name (db_metadata TD))
                                  (md_historyMaxItems (db_metadata TD))
                                  (md_customIcons (db_metadata TD)
                                   ∪ md_customIcons (db_metadata SD)))
                      TD]> (h_dbs h))
          h).
Proof.
  intros Hsdb Htdb HSD HTD. unfold mergeMetadata. rewrite Hsdb, Htdb.
  rewrite (bind_Ok _ _ _ _ _ (deref_Some _ _)).
  mstep Database_metadata_Ok.
  rewrite (bind_Ok _ _ _ _ _ (deref_Some _ _)).
  mstep Database_metadata_Ok.
  destruct (mergeMetadata_loop tdb (db_metadata SD)
              (map fst (map_to_list (md_customIcons (db_metadata SD)))))
    with (h := h) (D := TD) as (icons & Hrun & Hicons); [| |done|].
  { apply NoDup_fst_map_to_list. }
  { intros id Hid. apply list_elem_of_fmap in Hid as ([id' icon] & -> & Hin).
    apply elem_of_map_to_list in Hin. by exists icon. }
  etrans; [exact Hrun|]. unfold Database_withIcons.
  do 5 f_equal. f_equal. apply map_eq. intros id.
  rewrite Hicons, lookup_union.
  destruct (md_customIcons (db_metadata TD) !! id) as [icon|] eqn:Hid.
  - by destruct (md_customIcons (db_metadata SD) !! id).
  - destruct (decide _) as [Hin|Hin].
    + by destruct (md_customIcons (db_metadata SD) !! id).
    + destruct (md_customIcons (db_metadata SD) !! id) as [icon|] eqn:Hs; [|done].
      destruct Hin. apply list_elem_of_fmap. exists (id, icon).
      split; [done|]. by apply elem_of_map_to_list.
Qed.

(** X22: [mergeMetadata] returns; the target's icon table becomes the union of
    the two tables in which an icon of the target is never replaced, and
    nothing else in the heap changes.  The change list holds one line for
    each identifier of the source that the target did not have, no line
    twice and no other line; the lines come in the order in which the
    identifiers are enumerated, of which nothing is stated. *)
Theorem mergeMetadata_union
    (h : Heap) (context : MergeContext) (sdb tdb : Ptr) (SD TD : Database) :
  m_sourceDb context = Some sdb →
  m_targetDb context = Some tdb →
  h_dbs h !! sdb = Some SD →
  h_dbs h !! tdb = Some TD →
  ∃ changes : ChangeList,
    mergeMetadata context h
    = Ok (changes,
          Heap_withDbs
            (<[tdb := Database_withMetadata
                        (mkMetadata (md_name (db_metadata TD))
                                    (md_historyMaxItems (db_metadata TD))
                                    (md_customIcons (db_metadata TD)
                                     ∪ md_customIcons (db_metadata SD)))
                        TD]> (h_dbs h))
            h)
    ∧ NoDup changes
    ∧ ∀ line, line ∈ changes ↔
              ∃ id, line = AddingMissingIcon id
                    ∧ is_Some (md_customIcons (db_metadata SD) !! id)
                    ∧ md_customIcons (db_metadata TD) !! id = None.
Proof.
  intros Hsdb Htdb HSD HTD. eexists. split; [by eapply mergeMetadata_Ok|]. split.
  - apply NoDup_fmap_2; [by intros ? ? [= ->]|].
    apply NoDup_filter, NoDup_fst_map_to_list.
  - intros line. rewrite list_elem_of_fmap. split.
    + intros (id & -> & Hid). exists id. split; [done|].
      apply list_elem_of_filter in Hid as [Hnone Hin]. split; [|done].
      apply list_elem_of_fmap in Hin as ([id' icon] & -> & Hin).
      apply elem_of_map_to_list in Hin. by exists icon.
    + intros (id & -> & [icon Hicon] & Hnone). exists id. split; [done|].
      apply list_elem_of_filter. split; [done|].
      apply list_elem_of_fmap. exists (id, icon). split; [done|].
      by apply elem_of_map_to_list.
Qed.

Lemma mergeMetadata_union_witness :
  ∃ changes : ChangeList,
    mergeMetadata (m_context twoDatabasesMerger) missingIconsHeap
    = Ok (changes,
          Heap_withDbs
            (<[2%positive :=
                 mkDatabase 20 []
                   (mkMetadata "target" 10
                      (<[6%N := [9]]> ∅
                       ∪ <[5%N := [1; 2]]> (<[6%N := [3]]> (<[8%N := [4]]> ∅))))
                   false]> (h_dbs missingIconsHeap))
            missingIconsHeap)
    ∧ NoDup changes
    ∧ AddingMissingIcon 5 ∈ changes
    ∧ AddingMissingIcon 8 ∈ changes
    ∧ AddingMissingIcon 6 ∉ changes.
Proof.
  destruct (mergeMetadata_union missingIconsHeap (m_context twoDatabasesMerger) 1 2
              (mkDatabase 10 []
                 (mkMetadata "source" 10
                    (<[5%N := [1; 2]]> (<[6%N := [3]]> (<[8%N := [4]]> ∅)))) false)
              (mkDatabase 20 [] (mkMetadata "target" 10 (<[6%N := [9]]> ∅)) false)
              eq_refl eq_refl eq_refl eq_refl)
    as (changes & Hrun & Hnodup & Hlines).
  exists changes. split; [exact Hrun|]. split; [exact Hnodup|].
  split; [|split].
  - apply Hlines. exists 5%N. split; [reflexivity|]. split; [|reflexivity].
    exists [1; 2]. reflexivity.
  - apply Hlines. exists 8%N. split; [reflexivity|]. split; [|reflexivity].
    exists [4]. reflexivity.
  - intros Hin. apply Hlines in Hin as (id & [= <-] & _ & Hnone).
    vm_compute in Hnone. discriminate.
Defined.

(** X23: a second [mergeMetadata] right after the first reports nothing and
    leaves the heap as the first left it. *)
Theorem mergeMetadata_twice
    (h : Heap) (context : MergeContext) (sdb tdb : Ptr) (SD TD : Database) :
  m_sourceDb context = Some sdb →
  m_targetDb context = Some tdb →
  h_dbs h !! sdb = Some SD →
  h_dbs h !! tdb = Some TD →
  ∃ (changes : ChangeList) (h' : Heap),
    mergeMetadata context h = Ok (changes, h')
    ∧ mergeMetadata context h' = Ok ([], h').
Proof.
  intros Hsdb Htdb HSD HTD.
  eexists _, _. split; [by eapply mergeMetadata_Ok|].
  set (TD' := Database_withMetadata _ TD).
  set (h' := Heap_withDbs _ h).
  assert (h_dbs h' !! tdb = Some TD') as HTD' by apply lookup_insert_eq.
  assert (∃ SD', h_dbs h' !! sdb = Some SD'
                 ∧ ∀ id, is_Some (md_customIcons (db_metadata SD') !! id) →
                         is_Some (md_customIcons (db_metadata TD') !! id))
    as (SD' & HSD' & Hsub).
  { destruct (decide (sdb = tdb)) as [->|Hne].
    - by exists TD'.
    - exists SD. split; [by unfold h'; simpl; rewrite lookup_insert_ne|].
      intros id [icon Hicon]. unfold TD'. simpl. rewrite lookup_union, Hicon.
      destruct (md_customIcons (db_metadata TD) !! id); by eexists. }
  rewrite (mergeMetadata_Ok h' context sdb tdb SD' TD' Hsdb Htdb HSD' HTD').
  f_equal. f_equal.
  - rewrite filter_none; [done|].
    intros id Hid Hnone.
    apply list_elem_of_fmap in Hid as ([id' icon] & -> & Hin).
    apply elem_of_map_to_list in Hin.
    destruct (Hsub id') as [x Hx]; [by exists icon|].
    change ((id', icon).1) with id' in Hnone. by rewrite Hx in Hnone.
  - assert (md_customIcons (db_metadata TD') ∪ md_customIcons (db_metadata SD')
            = md_customIcons (db_metadata TD')) as ->.
    { apply map_eq. intros id. rewrite lookup_union.
      destruct (md_customIcons (db_metadata TD') !! id) eqn:Ht.
      - by destruct (md_customIcons (db_metadata SD') !! id).
      - destruct (md_customIcons (db_metadata SD') !! id) eqn:Hs; [|done].
        destruct (Hsub id) as [? ?]; [by eexists|]. congruence. }
    apply Heap_withDbs_id. by rewrite HTD'.
Qed.

Lemma mergeMetadata_twice_witness :
  ∃ (changes : ChangeList) (h' : Heap),
    mergeMetadata (m_context twoDatabasesMerger) iconHeap = Ok (changes, h')
    ∧ mergeMetadata (m_context twoDatabasesMerger) h' = Ok ([], h').
Proof.
  exact (mergeMetadata_twice iconHeap (m_context twoDatabasesMerger) 1 2
           (mkDatabase 10 []
              (mkMetadata "source" 10 (<[5%N := [1; 2]]> (<[6%N := [3]]> ∅))) false)
           (mkDatabase 20 [] (mkMetadata "target" 10 (<[6%N := [9]]> ∅)) false)
           eq_refl eq_refl eq_refl eq_refl).
Defined.

(** ** A merge that reports no change has changed nothing *)

Lemma mret_inv {A} (a b : A) (h h' : Heap) :
  (mret a : M A) h = Ok (b, h') → a = b ∧ h' = h.
Proof. by intros [= -> ->]. Qed.

Lemma deref_inv {A} (p : option A) (a : A) (h h' : Heap) :
  deref p h = Ok (a, h') → p = Some a ∧ h' = h.
Proof. destruct p; simpl; [by intros [= -> ->]|done]. Qed.

Lemma readHeap_inv {A} (f : Heap → Res A) (a : A) (h h' : Heap) :
  readHeap f h = Ok (a, h') → f h = Ok a ∧ h' = h.
Proof. unfold readHeap. destruct (f h); [by intros [= -> ->]|done..]. Qed.

Lemma getDb_inv (h h' : Heap) (p : Ptr) (D : Database) :
  getDb p h = Ok (D, h') → h_dbs h !! p = Some D ∧ h' = h.
Proof.
  unfold getDb, readHeap, lookupDb.
  destruct (h_dbs h !! p); [by intros [= -> ->]|done].
Qed.

Lemma Database_metadata_inv (h h' : Heap) (d : Ptr) (md : Metadata) :
  Database_metadata d h = Ok (md, h') →
  (∃ D, h_dbs h !! d = Some D ∧ md = db_metadata D) ∧ h' = h.
Proof.
  intros H. apply bind_Ok_inv in H as (D & h1 & HD & H).
  apply getDb_inv in HD as [HD ->]. apply mret_inv in H as [<- ->].
  split; [by exists D|done].
Qed.

Lemma Database_deletedObjects_inv (h h' : Heap) (d : Ptr) (l : list DeletedObject) :
  Database_deletedObjects d h = Ok (l, h') →
  (∃ D, h_dbs h !! d = Some D ∧ l = db_deletedObjects D) ∧ h' = h.
Proof.
  intros H. apply bind_Ok_inv in H as (D & h1 & HD & H).
  apply getDb_inv in HD as [HD ->]. apply mret_inv in H as [<- ->].
  split; [by exists D|done].
Qed.

Lemma Group_database_inv (h h' : Heap) (g : Ptr) (db : option Ptr) :
  Group_database g h = Ok (db, h') → h' = h.
Proof.
  intros H. apply bind_Ok_inv in H as (G & h1 & HG & H).
  apply getGroup_inv in HG as [HG ->]. by apply mret_inv in H as [_ ->].
Qed.

Lemma Entry_database_inv (h h' : Heap) (e : Ptr) (db : option Ptr) :
  Entry_database e h = Ok (db, h') → h' = h.
Proof.
  intros H. apply bind_Ok_inv in H as (E & h1 & HE & H).
  apply getEntry_inv in HE as [HE ->].
  destruct (e_group E); [by eapply Group_database_inv|by apply mret_inv in H as [_ ->]].
Qed.

Lemma effectiveMergeMode_inv (fuel : nat) (mode : option MergeMode)
    (context : MergeContext) (m : MergeMode) (h h' : Heap) :
  effectiveMergeMode fuel mode context h = Ok (m, h') → h' = h.
Proof.
  destruct mode; simpl; [by intros [= _ ->]|].
  intros H. apply bind_Ok_inv in H as (g & h1 & Hg & H).
  apply deref_inv in Hg as [_ ->]. by apply readHeap_inv in H as [_ ->].
Qed.

(** Peel the binds of a computation that returned, keeping what each step
    returned. *)
Ltac peel H :=
  repeat match type of H with
         | (_ ≫= _) _ = Ok _ =>
             let a := fresh "a" in
             let h1 := fresh "h" in
             let H1 := fresh "Hstep" in
             apply bind_Ok_inv in H as (a & h1 & H1 & H)
         end.

(** [mergeHistory] returns false only from its early exit. *)
Lemma mergeHistory_false (sourceEntry targetEntry : Ptr) (h h' : Heap) :
  mergeHistory sourceEntry targetEntry h = Ok (false, h') → h' = h.
Proof.
  unfold mergeHistory. intros H.
  apply bind_Ok_inv in H as (TE & h1 & HTE & H). apply getEntry_inv in HTE as [HTE ->].
  apply bind_Ok_inv in H as (SE & h1 & HSE & H). apply getEntry_inv in HSE as [HSE ->].
  apply bind_Ok_inv in H as (db & h1 & Hdb & H). apply Entry_database_inv in Hdb as ->.
  apply bind_Ok_inv in H as (d & h1 & Hd & H). apply deref_inv in Hd as [-> ->].
  apply bind_Ok_inv in H as (md & h1 & Hmd & H).
  apply Database_metadata_inv in Hmd as [_ ->].
  destruct (negb _).
  - by apply mret_inv in H as [_ ->].
  - peel H. by apply mret_inv in H as [? _].
Qed.

Ltac peel_nil H :=
  peel H; apply mret_inv in H as [? _]; done.

Lemma resolveEntryConflict_nil (fuel : nat) (mode : option MergeMode)
    (context : MergeContext) (sourceEntry targetEntry : Ptr) (h h' : Heap) :
  resolveEntryConflict fuel mode context sourceEntry targetEntry h = Ok ([], h') →
  h' = h.
Proof.
  unfold resolveEntryConflict. intros H.
  apply bind_Ok_inv in H as (TE & h1 & HTE & H). apply getEntry_inv in HTE as [HTE ->].
  apply bind_Ok_inv in H as (SE & h1 & HSE & H). apply getEntry_inv in HSE as [HSE ->].
  apply bind_Ok_inv in H as (m & h1 & Hm & H). apply effectiveMergeMode_inv in Hm as ->.
  destruct m.
  - by apply mret_inv in H as [_ ->].
  - destruct (_ >? _); [peel_nil H|].
    destruct (_ <? _); [peel_nil H|]. by apply mret_inv in H as [_ ->].
  - destruct (_ <? _); [peel_nil H|]. by apply mret_inv in H as [_ ->].
  - by apply mret_inv in H as [_ ->].
  - destruct (_ <? _); [peel_nil H|].
    apply bind_Ok_inv in H as (changed & h1 & Hchanged & H).
    destruct changed; [peel_nil H|].
    apply mergeHistory_false in Hchanged as ->. by apply mret_inv in H as [_ ->].
Qed.

Lemma mergeGroup_entry_nil (fuel : nat) (mode : option MergeMode)
    (context : MergeContext) (sourceEntry : Ptr) (h h' : Heap) :
  mergeGroup_entry fuel mode context sourceEntry h = Ok ([], h') → h' = h.
Proof.
  unfold mergeGroup_entry. intros H.
  apply bind_Ok_inv in H as (SE & h1 & HSE & H). apply getEntry_inv in HSE as [HSE ->].
  apply bind_Ok_inv in H as (root & h1 & Hroot & H). apply deref_inv in Hroot as [_ ->].
  apply bind_Ok_inv in H as (found & h1 & Hfound & H).
  apply readHeap_inv in Hfound as [_ ->].
  destruct found as [targetEntry|]; [|peel_nil H].
  apply bind_Ok_inv in H as (TE & h1 & HTE & H). apply getEntry_inv in HTE as [HTE ->].
  apply bind_Ok_inv in H as (relocated & h1 & Hrel & H).
  apply bind_Ok_inv in H as (resolved & h2 & Hres & H).
  apply mret_inv in H as [Hnil ->].
  apply app_eq_nil in Hnil as [-> ->].
  apply resolveEntryConflict_nil in Hres as ->.
  destruct (_ && _); [peel_nil Hrel|]. by apply mret_inv in Hrel as [_ ->].
Qed.

Lemma resolveGroupConflict_nil (context : MergeContext)
    (sourceChildGroup targetChildGroup : Ptr) (h h' : Heap) :
  resolveGroupConflict context sourceChildGroup targetChildGroup h = Ok ([], h') →
  h' = h.
Proof.
  unfold resolveGroupConflict. intros H.
  apply bind_Ok_inv in H as (TG & h1 & HTG & H). apply getGroup_inv in HTG as [HTG ->].
  apply bind_Ok_inv in H as (SG & h1 & HSG & H). apply getGroup_inv in HSG as [HSG ->].
  destruct (_ <? _); [peel_nil H|]. by apply mret_inv in H as [_ ->].
Qed.

Lemma mergeGroup_child_nil (fuel : nat) (context : MergeContext)
    (sourceChildGroup targetChildGroup : Ptr) (h h' : Heap) :
  mergeGroup_child fuel context sourceChildGroup h = Ok (([], targetChildGroup), h') →
  h' = h.
Proof.
  unfold mergeGroup_child. intros H.
  apply bind_Ok_inv in H as (SG & h1 & HSG & H). apply getGroup_inv in HSG as [HSG ->].
  apply bind_Ok_inv in H as (root & h1 & Hroot & H). apply deref_inv in Hroot as [_ ->].
  apply bind_Ok_inv in H as (found & h1 & Hfound & H).
  apply readHeap_inv in Hfound as [_ ->].
  destruct found as [found|]; [|peel_nil H].
  apply bind_Ok_inv in H as (TG & h1 & HTG & H). apply getGroup_inv in HTG as [HTG ->].
  apply bind_Ok_inv in H as (relocated & h1 & Hrel & H).
  apply bind_Ok_inv in H as (resolved & h2 & Hres & H).
  apply mret_inv in H as [[= Hnil _] ->].
  apply app_eq_nil in Hnil as [-> ->].
  apply resolveGroupConflict_nil in Hres as ->.
  destruct (_ && _); [peel_nil Hrel|]. by apply mret_inv in Hrel as [_ ->].
Qed.

Lemma concatMapM_nil {A B} (f : A → M (list B)) (l : list A) (h h' : Heap) :
  (∀ x h1 h2, x ∈ l → f x h1 = Ok ([], h2) → h2 = h1) →
  concatMapM f l h = Ok ([], h') → h' = h.
Proof.
  revert h. induction l as [|x l IH]; intros h Hf H; simpl in H.
  - by apply mret_inv in H as [_ ->].
  - apply bind_Ok_inv in H as (ys & h1 & Hys & H).
    apply bind_Ok_inv in H as (zs & h2 & Hzs & H).
    apply mret_inv in H as [Hnil ->]. apply app_eq_nil in Hnil as [-> ->].
    apply IH in Hzs as ->; [|intros; eapply Hf; [by right|done]].
    eapply Hf; [by left|done].
Qed.

Lemma mergeGroup_nil (fuel depth : nat) (mode : option MergeMode) :
  ∀ (context : MergeContext) (h h' : Heap),
    mergeGroup fuel depth mode context h = Ok ([], h') → h' = h.
Proof.
  induction depth as [|n IH]; intros context h h' H; [done|].
  simpl in H.
  apply bind_Ok_inv in H as (sg & h1 & Hsg & H). apply deref_inv in Hsg as [_ ->].
  apply bind_Ok_inv in H as (SG & h1 & HSG & H). apply getGroup_inv in HSG as [HSG ->].
  apply bind_Ok_inv in H as (changes1 & h1 & H1 & H).
  apply bind_Ok_inv in H as (SG' & h2 & HSG' & H). apply getGroup_inv in HSG' as [HSG' ->].
  apply bind_Ok_inv in H as (changes2 & h2 & H2 & H).
  apply mret_inv in H as [Hnil ->]. apply app_eq_nil in Hnil as [-> ->].
  apply concatMapM_nil in H1 as ->; [|intros ? ? ? _; apply mergeGroup_entry_nil].
  apply concatMapM_nil in H2 as ->; [done|].
  intros child ha hb _ Hchild.
  apply bind_Ok_inv in Hchild as ([changes target] & hc & Hc & Hchild).
  apply bind_Ok_inv in Hchild as (changes' & hd & Hsub & Hchild).
  apply mret_inv in Hchild as [Hnil ->]. apply app_eq_nil in Hnil as [-> ->].
  apply IH in Hsub as ->. by apply mergeGroup_child_nil in Hc.
Qed.

Lemma deleteEntries_changes (merged : gmap Uuid DeletedObject) (queue : list Ptr) :
  ∀ (deletions deletions' : list DeletedObject) (changes changes' : ChangeList)
    (h h' : Heap),
    deleteEntries merged queue deletions changes h = Ok ((deletions', changes'), h') →
    ∃ extra, changes' = changes ++ extra
             ∧ (extra = [] → deletions' = deletions ∧ h' = h).
Proof.
  induction queue as [|e queue IH]; intros deletions deletions' changes changes' h h' H;
    simpl in H.
  - apply mret_inv in H as [[= <- <-] ->]. exists []. by rewrite app_nil_r.
  - apply bind_Ok_inv in H as (E & h1 & HE & H). apply getEntry_inv in HE as [HE ->].
    destruct (_ >? _); [by apply IH in H|].
    apply bind_Ok_inv in H as (u & h1 & _ & H).
    apply IH in H as (extra & -> & _).
    eexists (_ :: extra). split; [by rewrite <-app_assoc|done].
Qed.

Lemma deleteGroups_changes (fuel steps : nat) (merged : gmap Uuid DeletedObject) :
  ∀ (queue : list Ptr) (deletions deletions' : list DeletedObject)
    (changes changes' : ChangeList) (h h' : Heap),
    deleteGroups fuel steps merged queue deletions changes h
    = Ok ((deletions', changes'), h') →
    ∃ extra, changes' = changes ++ extra
             ∧ (extra = [] → deletions' = deletions ∧ h' = h).
Proof.
  induction steps as [|k IH];
    intros queue deletions deletions' changes changes' h h' H;
    destruct queue as [|group queue]; simpl in H.
  - apply mret_inv in H as [[= <- <-] ->]. exists []. by rewrite app_nil_r.
  - done.
  - apply mret_inv in H as [[= <- <-] ->]. exists []. by rewrite app_nil_r.
  - apply bind_Ok_inv in H as (G & h1 & HG & H). apply getGroup_inv in HG as [HG ->].
    destruct (existsb _ _); [by apply IH in H|].
    destruct (_ >? _); [by apply IH in H|].
    apply bind_Ok_inv in H as (es & h1 & Hes & H). apply readHeap_inv in Hes as [_ ->].
    apply bind_Ok_inv in H as (gs & h1 & Hgs & H). apply readHeap_inv in Hgs as [_ ->].
    destruct es, gs; try (by apply IH in H).
    apply bind_Ok_inv in H as (u & h1 & _ & H).
    apply IH in H as (extra & -> & _).
    eexists (_ :: extra). split; [by rewrite <-app_assoc|done].
Qed.

Lemma mergeDeletions_nil (fuel : nat) (context : MergeContext) (h h' : Heap) :
  mergeDeletions fuel context h = Ok ([], h') → h' = h.
Proof.
  unfold mergeDeletions. intros H.
  apply bind_Ok_inv in H as (tdb & h1 & Htdb & H). apply deref_inv in Htdb as [_ ->].
  apply bind_Ok_inv in H as (targetDeletions & h1 & Ht & H).
  apply Database_deletedObjects_inv in Ht as [_ ->].
  apply bind_Ok_inv in H as (sdb & h1 & Hsdb & H). apply deref_inv in Hsdb as [_ ->].
  apply bind_Ok_inv in H as (sourceDeletions & h1 & Hs & H).
  apply Database_deletedObjects_inv in Hs as [_ ->].
  apply bind_Ok_inv in H as (q & h1 & Hq & H). apply readHeap_inv in Hq as [_ ->].
  apply bind_Ok_inv in H as ([deletions1 changes1] & h1 & H1 & H).
  apply bind_Ok_inv in H as ([deletions2 changes2] & h2 & H2 & H).
  apply bind_Ok_inv in H as (current & h3 & Hcur & H).
  apply Database_deletedObjects_inv in Hcur as [(D & HD & ->) ->].
  apply bind_Ok_inv in H as (u & h3 & Hset & H).
  apply mret_inv in H as [Hnil ->].
  apply deleteEntries_changes in H1 as (extra1 & -> & H1).
  apply deleteGroups_changes in H2 as (extra2 & -> & H2).
  destruct (bool_decide _) eqn:Hne.
  { by apply app_eq_nil in Hnil as [_ ?]. }
  apply bool_decide_eq_false in Hne. apply dec_stable in Hne.
  simpl in Hnil. apply app_eq_nil in Hnil as [Hnil ->].
  destruct extra1; [|done]. clear Hnil.
  destruct H2 as [-> ->]; [done|]. destruct H1 as [-> ->]; [done|].
  unfold Database_setDeletedObjects in Hset.
  rewrite (modifyDb_Ok _ _ _ _ HD), Hne in Hset.
  inversion Hset; subst. apply Heap_withDbs_id. rewrite HD. by destruct D.
Qed.

Lemma mergeMetadata_nil (context : MergeContext) (h h' : Heap) :
  mergeMetadata context h = Ok ([], h') → h' = h.
Proof.
  unfold mergeMetadata. intros H.
  apply bind_Ok_inv in H as (sdb & h1 & Hsdb & H). apply deref_inv in Hsdb as [_ ->].
  apply bind_Ok_inv in H as (sm & h1 & Hsm & H).
  apply Database_metadata_inv in Hsm as [_ ->].
  apply bind_Ok_inv in H as (tdb & h1 & Htdb & H). apply deref_inv in Htdb as [_ ->].
  apply bind_Ok_inv in H as (tm & h1 & Htm & H).
  apply Database_metadata_inv in Htm as [_ ->].
  eapply concatMapM_nil; [|done].
  intros id ha hb _ Hid.
  apply bind_Ok_inv in Hid as (tm' & hc & Htm' & Hid).
  apply Database_metadata_inv in Htm' as [_ ->].
  destruct (negb _); [peel_nil Hid|]. by apply mret_inv in Hid as [_ ->].
Qed.

(** X1: [merge] returns true only after it marked the target database as
    modified, and when it returns false it has changed nothing: every
    mutation of the three passes is reported in the change list. *)
Theorem merge_reports_every_change
    (fuel : nat) (this : Merger) (h h' : Heap) (changed : bool) :
  merge fuel this h = Ok (changed, h') →
  if changed
  then ∃ tdb D, m_targetDb (m_context this) = Some tdb
                ∧ h_dbs h' !! tdb = Some D ∧ db_modified D = true
  else h' = h.
Proof.
  unfold merge. intros H.
  apply bind_Ok_inv in H as (changes1 & h1 & H1 & H).
  apply bind_Ok_inv in H as (changes2 & h2 & H2 & H).
  apply bind_Ok_inv in H as (changes3 & h3 & H3 & H).
  destruct (bool_decide _) eqn:Hnil; simpl in H.
  - apply mret_inv in H as [<- ->].
    apply bool_decide_eq_true in Hnil.
    apply app_eq_nil in Hnil as [-> Hnil]. apply app_eq_nil in Hnil as [-> ->].
    apply mergeMetadata_nil in H3 as ->. apply mergeDeletions_nil in H2 as ->.
    by apply mergeGroup_nil in H1.
  - apply bind_Ok_inv in H as (tdb & h4 & Htdb & H). apply deref_inv in Htdb as [Htdb ->].
    apply bind_Ok_inv in H as (u & h4 & Hmark & H). apply mret_inv in H as [<- ->].
    unfold Database_markAsModified in Hmark.
    apply bind_Ok_inv in Hmark as (D & h5 & HD & Hmark).
    apply getDb_inv in HD as [HD ->]. inversion Hmark; subst.
    exists tdb, (Database_withModified true D). split; [done|]. split; [|done].
    apply lookup_insert_eq.
Qed.

Lemma merge_reports_every_change_witness :
  (∃ tdb D, m_targetDb (m_context twoDatabasesMerger) = Some tdb
            ∧ h_dbs (afterMerge 5 twoDatabasesMerger deletedGroupHeap) !! tdb = Some D
            ∧ db_modified D = true)
  ∧ afterMerge 5 twoDatabasesMerger (groupPairHeap 5000) = groupPairHeap 5000.
Proof.
  split.
  - exact (merge_reports_every_change 5 twoDatabasesMerger deletedGroupHeap
             (afterMerge 5 twoDatabasesMerger deletedGroupHeap) true
             ltac:(vm_compute; reflexivity)).
  - exact (merge_reports_every_change 5 twoDatabasesMerger (groupPairHeap 5000)
             (afterMerge 5 twoDatabasesMerger (groupPairHeap 5000)) false
             ltac:(vm_compute; reflexivity)).
Defined.

(** ** The tombstones without live object *)

Lemma firstTombstone_split (objects : list DeletedObject) (x : DeletedObject) :
  firstTombstone objects x
  ↔ ∃ pre post, objects = pre ++ x :: post ∧ ∀ o, o ∈ pre → uuid o ≠ uuid x.
Proof.
  unfold firstTombstone. split.
  - induction objects as [|a objects IH]; [done|].
    rewrite filter_cons. case_decide as Ha; simpl.
    + intros [= ->]. exists [], objects. split; [done|]. by inversion 1.
    + intros (pre & post & -> & Hpre)%IH. exists (a :: pre), post.
      split; [done|]. by intros o [->|?]%elem_of_cons; [|apply Hpre].
  - intros (pre & post & -> & Hpre).
    rewrite list.filter_app, (filter_none _ pre) by done.
    by rewrite filter_cons_True.
Qed.

Lemma firstTombstone_snoc (objects : list DeletedObject) (o x : DeletedObject) :
  firstTombstone (objects ++ [o]) x
  ↔ firstTombstone objects x ∨ (x = o ∧ ∀ o', o' ∈ objects → uuid o' ≠ uuid o).
Proof.
  rewrite !firstTombstone_split. split.
  - intros (pre & post & Heq & Hpre).
    destruct post as [|p post _] using rev_ind.
    + apply (app_inj_tail objects pre o x) in Heq as [-> ->]. by right.
    + rewrite app_comm_cons, app_assoc in Heq.
      apply app_inj_tail in Heq as [-> _]. left. by exists pre, post.
  - intros [(pre & post & -> & Hpre)|[-> Hfresh]].
    + exists pre, (post ++ [o]). by rewrite <-app_assoc.
    + by exists objects, [].
Qed.

Section CollectedDeletions.

Variables (fuel : nat) (h : Heap) (root : Ptr).

Lemma collectDeletion_retained (objects : list DeletedObject)
    (q q' : DeletionQueues) (o : DeletedObject) :
  retainedTombstones fuel h root objects q →
  collectDeletion fuel h (Some root) q o = Ok q' →
  retainedTombstones fuel h root (objects ++ [o]) q'.
Proof.
  intros (Hdom & Hdel & Hnd). unfold collectDeletion.
  assert (∀ o', o' ∈ objects ++ [o] ↔ o' ∈ objects ∨ o' = o) as Hsnoc.
  { intros o'. rewrite elem_of_app, list_elem_of_singleton. done. }
  assert (∀ u, is_Some (<[uuid o:=o]> (mergedDeletions q) !! u)
               ↔ ∃ o', o' ∈ objects ++ [o] ∧ uuid o' = u) as Hdom'.
  { intros u. rewrite lookup_insert_is_Some, Hdom. split.
    - intros [<-|[_ (o' & Hin & Ho')]].
      + exists o. split; [|done]. apply Hsnoc. by right.
      + exists o'. split; [|done]. apply Hsnoc. by left.
    - intros (o' & [Hin| ->]%Hsnoc & Ho'); [|by left].
      destruct (decide (uuid o = u)); [by left|right].
      split; [done|]. by exists o'. }
  case_bool_decide as Hnew.
  - (* the first tombstone of this UUID *)
    assert (∀ o', o' ∈ objects → uuid o' ≠ uuid o) as Hfresh.
    { intros o' Hin Heq.
      assert (is_Some (mergedDeletions q !! uuid o)) as [? ?]; [|congruence].
      apply Hdom. by exists o'. }
    assert (∀ x, firstTombstone (objects ++ [o]) x ∧ noLiveObject fuel h root (uuid x)
                 ↔ x ∈ deletions q ∨ (x = o ∧ noLiveObject fuel h root (uuid o)))
      as Hfirst.
    { intros x. rewrite firstTombstone_snoc, Hdel. split.
      - intros [[?|[-> _]] ?]; [by left|by right].
      - intros [[? ?]|[-> ?]]; [by split; [left|]|]. split; [by right|done]. }
    destruct (findEntryByUuid fuel h root (uuid o)) as [[e|]| |] eqn:Hfe;
      simpl; [| |done..].
    { intros [= <-]. split; [done|]. split; [|done]. simpl.
      intros x. rewrite Hfirst. split; [by left|].
      intros [?|[-> [? _]]]; [done|congruence]. }
    destruct (findGroupByUuid fuel h root (uuid o)) as [[g|]| |] eqn:Hfg;
      simpl; [| |done..].
    { intros [= <-]. split; [done|]. split; [|done]. simpl.
      intros x. rewrite Hfirst. split; [by left|].
      intros [?|[-> [_ ?]]]; [done|congruence]. }
    intros [= <-]. split; [done|]. simpl. split.
    + intros x. rewrite Hfirst, elem_of_app, list_elem_of_singleton. split.
      * intros [?| ->]; [by left|by right].
      * intros [?|[-> _]]; [by left|by right].
    + rewrite map_app. apply list.NoDup_app. split; [done|].
      split; [|apply list.NoDup_singleton].
      intros u Hu ->%list_elem_of_singleton.
      apply list_elem_of_fmap in Hu as (o' & Ho' & Hin).
      apply Hdel in Hin as [(pre & post & -> & _)%firstTombstone_split _].
      apply (Hfresh o'); [|done]. apply elem_of_app. right. left.
  - (* a further tombstone of a UUID already seen *)
    apply not_eq_None_Some in Hnew as [stored Hstored].
    assert (∃ o', o' ∈ objects ∧ uuid o' = uuid o) as (o0 & Hin0 & Ho0).
    { apply Hdom. by exists stored. }
    assert (∀ x, firstTombstone (objects ++ [o]) x ↔ firstTombstone objects x)
      as Hfirst.
    { intros x. rewrite firstTombstone_snoc. split; [|by left].
      intros [?|[_ Hfresh]]; [done|]. by destruct (Hfresh o0). }
    assert (∀ u, (∃ o', o' ∈ objects ++ [o] ∧ uuid o' = u)
                 ↔ ∃ o', o' ∈ objects ∧ uuid o' = u) as Hsame.
    { intros u. split.
      - intros (o' & [Hin| ->]%Hsnoc & Ho'); [by exists o'|].
        exists o0. split; [done|]. congruence.
      - intros (o' & Hin & Ho'). exists o'. split; [|done]. apply Hsnoc. by left. }
    destruct (_ >? _); intros [= <-]; (split; [|split; [|done]]); simpl.
    + done.
    + intros x. by rewrite Hfirst.
    + intros u. by rewrite Hsame.
    + intros x. by rewrite Hfirst.
Qed.

Lemma collectDeletions_retained (objects : list DeletedObject) (q : DeletionQueues) :
  collectDeletions fuel h (Some root) objects = Ok q →
  retainedTombstones fuel h root objects q.
Proof.
  unfold collectDeletions.
  assert (∀ todo done q0 q1,
    retainedTombstones fuel h root done q0 →
    foldlR (collectDeletion fuel h (Some root)) todo q0 = Ok q1 →
    retainedTombstones fuel h root (done ++ todo) q1) as Hfold.
  { induction todo as [|o todo IH]; intros done q0 q1 Hq0; simpl.
    - intros [= <-]. by rewrite app_nil_r.
    - destruct (collectDeletion fuel h (Some root) q0 o) as [q0'| |] eqn:Hstep;
        simpl; [|done..].
      intros Hrest. rewrite (app_assoc done [o] todo : done ++ o :: todo = _).
      eapply IH; [|done]. by eapply collectDeletion_retained. }
  apply (Hfold objects [] _ q). split; [|split].
  - intros u. simpl. rewrite lookup_empty. split; [by intros [? ?]|].
    intros (o & Hin & _). by inversion Hin.
  - intros o. simpl. split; [by inversion 1|].
    by intros [? _].
  - constructor.
Qed.

End CollectedDeletions.

Lemma earliestDeletion_elem (id : Uuid) (objects : list DeletedObject) (t : QDateTime) :
  earliestDeletion id objects = Some t → mkDeletedObject id t ∈ objects.
Proof.
  revert t. induction objects as [|o objects IH] using rev_ind; intros t; [done|].
  rewrite earliestDeletion_snoc, elem_of_app, list_elem_of_singleton.
  case_decide as Ho; [|by left; apply IH].
  destruct (earliestDeletion id objects) as [t0|] eqn:Ht0; intros [= <-].
  - destruct (Z.min_spec t0 (deletionTime o)) as [[_ ->]|[_ ->]].
    + left. by apply IH.
    + right. destruct o. simpl in *. by subst.
  - right. destruct o. simpl in *. by subst.
Qed.

Lemma NoDup_map_eq {A B} (f : A → B) (l : list A) (x y : A) :
  NoDup (map f l) → x ∈ l → y ∈ l → f x = f y → x = y.
Proof.
  induction l as [|a l IH]; simpl; [by inversion 2|].
  intros [Hnin Hnd]%NoDup_cons [->|Hx]%elem_of_cons [->|Hy]%elem_of_cons Heq.
  - done.
  - destruct Hnin. rewrite Heq. apply list_elem_of_fmap. by exists y.
  - destruct Hnin. rewrite <-Heq. apply list_elem_of_fmap. by exists x.
  - by apply IH.
Qed.

(** ** The deletion pass: what it leaves alone *)

Section MergeDeletionsRun.

Variables (fuel : nat) (h : Heap) (context : MergeContext) (tdb sdb root : Ptr)
          (TD SD : Database) (Root : Group).
Hypothesis Htdb : m_targetDb context = Some tdb.
Hypothesis Hsdb : m_sourceDb context = Some sdb.
Hypothesis Hroot : m_targetRootGroup context = Some root.
Hypothesis HTD : h_dbs h !! tdb = Some TD.
Hypothesis HSD : h_dbs h !! sdb = Some SD.
Hypothesis Hok : treeOk fuel h tdb root = true.
Hypothesis HRoot : h_groups h !! root = Some Root.
Hypothesis Hparent : g_parent Root = None.

(** The deletion pass, with the queues of its first loop and the databases
    of the heap it leaves. *)
Lemma mergeDeletions_run :
  ∃ (q : DeletionQueues) (erased : list Ptr) (changes : ChangeList) (h' : Heap),
    collectDeletions fuel h (Some root)
                     (db_deletedObjects TD ++ db_deletedObjects SD) = Ok q
    ∧ Collected fuel h root (db_deletedObjects TD ++ db_deletedObjects SD) q
    ∧ mergeDeletions fuel context h = Ok (changes, h')
    ∧ Erased fuel tdb h h'
        (list_to_set (filter (λ e, entryOutdated h (mergedDeletions q) e = true)
                             (entries q)))
        (list_to_set erased)
    ∧ (∀ x, x ∈ erased →
            x ∈ groups q ∧ groupOutdated h (mergedDeletions q) x = true)
    ∧ h_dbs h'
      = <[tdb := Database_withDeletedObjects
                   (deletions q
                    ++ map (entryTombstone h (mergedDeletions q))
                           (filter (λ e, entryOutdated h (mergedDeletions q) e = true)
                                   (entries q))
                    ++ map (groupTombstone h (mergedDeletions q)) erased)
                   TD]> (h_dbs h).
Proof.
  destruct (collectDeletions_Collected fuel h tdb root Hok
              (db_deletedObjects TD ++ db_deletedObjects SD)) as (q & Hcollect & Hq).
  assert ((1 ≤ fuel)%nat) as Hfuel by (destruct fuel; [done|lia]).
  destruct (deleteEntries_Erased fuel tdb h TD (mergedDeletions q) ∅ (entries q)
              h ∅ (deletions q) [])
    as (changes1 & hk1 & Hrun1 & Her1 & Hdb1).
  { apply Erased_init. }
  { done. }
  { apply (co_entries_NoDup _ _ _ _ _ Hq). }
  { intros e He. split; [set_solver|].
    apply (co_entries _ _ _ _ _ Hq) in He as (o & _ & Hfind).
    by eapply found_entry_attached. }
  rewrite union_empty_l_L in Her1.
  destruct (deleteGroups_total fuel tdb h TD (mergedDeletions q)
              (list_to_set (filter (λ e, entryOutdated h (mergedDeletions q) e = true)
                                   (entries q))) Hfuel
              (length (groups q)) (groups q)
              (deleteGroups_steps (length (groups q))) hk1 ∅
              (deletions q
               ++ map (entryTombstone h (mergedDeletions q))
                      (filter (λ e, entryOutdated h (mergedDeletions q) e = true)
                              (entries q)))
              changes1)
    as (erased & changes2 & hk2 & Hrun2 & Her2 & Hdb2 & Hout); [done|done| |].
  { split; [done|]. split; [by rewrite Hdb1|].
    split; [apply (co_groups_NoDup _ _ _ _ _ Hq)|].
    intros x Hx. split; [set_solver|].
    apply (co_groups _ _ _ _ _ Hq) in Hx as (o & _ & _ & Hfind).
    by eapply found_group_attached. }
  rewrite union_empty_l_L in Her2.
  assert (h_dbs hk2 !! tdb = Some TD) as HTD2 by (by rewrite Hdb2, Hdb1).
  eexists q, erased, _, _. split; [done|]. split; [done|].
  split; [|split; [|split; [done|]]].
  - unfold mergeDeletions. rewrite Htdb, Hsdb, Hroot.
    rewrite (bind_Ok _ _ _ _ _ (deref_Some _ _)).
    mstep Database_deletedObjects_Ok.
    rewrite (bind_Ok _ _ _ _ _ (deref_Some _ _)).
    mstep Database_deletedObjects_Ok.
    rewrite (bind_Ok _ _ _ _ _ (readHeap_Ok _ _ _ Hcollect)).
    rewrite (bind_Ok _ _ _ _ _ Hrun1). cbv beta iota.
    rewrite (bind_Ok _ _ _ _ _ Hrun2). cbv beta iota.
    mstep Database_deletedObjects_Ok.
    unfold Database_setDeletedObjects.
    erewrite bind_Ok; [|by apply modifyDb_Ok].
    done.
  - eapply Erased_same_objects; done.
  - simpl. rewrite Hdb2, Hdb1. by rewrite <-app_assoc.
Qed.

(** The tombstone that the merged map holds for a queued entry or group:
    that of its UUID, at the earliest time recorded. *)
Lemma queued_entry_tombstone (q : DeletionQueues) (e : Ptr) :
  Collected fuel h root (db_deletedObjects TD ++ db_deletedObjects SD) q →
  e ∈ entries q →
  ∃ E t, h_entries h !! e = Some E
         ∧ findEntryByUuid fuel h root (e_uuid E) = Ok (Some e)
         ∧ earliestDeletion (e_uuid E)
             (db_deletedObjects TD ++ db_deletedObjects SD) = Some t
         ∧ entryTombstone h (mergedDeletions q) e = mkDeletedObject (e_uuid E) t.
Proof.
  intros Hq He. apply (co_entries _ _ _ _ _ Hq) in He as (o & Hin & Hfe).
  pose proof Hfe as Hfe'.
  apply (findEntryByUuid_Some h tdb) in Hfe
    as (_ & E & _ & _ & _ & _ & HE & Hid & _); [|done].
  destruct (proj2 (co_dom _ _ _ _ _ Hq (uuid o))) as [om Hom]; [by exists o|].
  destruct (co_merged _ _ _ _ _ Hq _ _ Hom) as [Hu Ht].
  exists E, (deletionTime om). rewrite Hid. split; [done|]. split; [done|].
  split; [done|].
  unfold entryTombstone, QMap_at. rewrite HE, Hid, Hom. simpl.
  rewrite (DeletedObject_eta om). simpl. by rewrite Hu.
Qed.

Lemma queued_group_tombstone (q : DeletionQueues) (x : Ptr) :
  Collected fuel h root (db_deletedObjects TD ++ db_deletedObjects SD) q →
  x ∈ groups q →
  ∃ X t, h_groups h !! x = Some X
         ∧ findGroupByUuid fuel h root (g_uuid X) = Ok (Some x)
         ∧ earliestDeletion (g_uuid X)
             (db_deletedObjects TD ++ db_deletedObjects SD) = Some t
         ∧ groupTombstone h (mergedDeletions q) x = mkDeletedObject (g_uuid X) t.
Proof.
  intros Hq Hx. apply (co_groups _ _ _ _ _ Hq) in Hx as (o & Hin & _ & Hfg).
  pose proof Hfg as Hfg'.
  apply (findGroupByUuid_Some h tdb) in Hfg
    as (_ & X & _ & _ & HX & Hid & _); [|done].
  destruct (proj2 (co_dom _ _ _ _ _ Hq (uuid o))) as [om Hom]; [by exists o|].
  destruct (co_merged _ _ _ _ _ Hq _ _ Hom) as [Hu Ht].
  exists X, (deletionTime om). rewrite Hid. split; [done|]. split; [done|].
  split; [done|].
  unfold groupTombstone, QMap_at. rewrite HX, Hid, Hom. simpl.
  rewrite (DeletedObject_eta om). simpl. by rewrite Hu.
Qed.

End MergeDeletionsRun.

(** X17: the first loop of [mergeDeletions] returns on a well-formed target, and
    the map it builds holds for each UUID that has a tombstone in the list
    one tombstone, with the earliest deletion time recorded for that UUID,
    and nothing for the other UUIDs. *)
Theorem collectDeletions_earliest
    (fuel : nat) (h : Heap) (db root : Ptr) (objects : list DeletedObject) :
  treeOk fuel h db root = true →
  ∃ q, collectDeletions fuel h (Some root) objects = Ok q
       ∧ ∀ id, mergedDeletions q !! id
               = mkDeletedObject id <$> earliestDeletion id objects.
Proof.
  intros Hok.
  destruct (collectDeletions_Collected fuel h db root Hok objects) as (q & Hrun & Hq).
  exists q. split; [done|]. intros id.
  destruct (earliestDeletion id objects) as [t|] eqn:Ht; simpl.
  - destruct (proj2 (co_dom _ _ _ _ _ Hq id)) as [om Hom].
    { apply earliestDeletion_Some. by rewrite Ht. }
    destruct (co_merged _ _ _ _ _ Hq _ _ Hom) as [Hu Ht'].
    rewrite Hom, (DeletedObject_eta om). do 2 f_equal; congruence.
  - apply eq_None_not_Some. intros Hsome.
    apply (co_dom _ _ _ _ _ Hq) in Hsome as (o & Hin & Ho).
    by apply (proj1 (earliestDeletion_None id objects) Ht o).
Qed.

Lemma collectDeletions_earliest_witness :
  ∃ q, collectDeletions 5 tombstonePairHeap (Some 20%positive)
         [mkDeletedObject 555 7000; mkDeletedObject 555 1000] = Ok q
       ∧ ∀ id, mergedDeletions q !! id
               = mkDeletedObject id
                 <$> earliestDeletion id
                       [mkDeletedObject 555 7000; mkDeletedObject 555 1000].
Proof.
  exact (collectDeletions_earliest 5 tombstonePairHeap 2 20
           [mkDeletedObject 555 7000; mkDeletedObject 555 1000] eq_refl).
Defined.

(** X21: the deletion pass changes no entry whose UUID has no tombstone and no
    entry that is not below the target's root; it changes no database other
    than the target, and of the target only the list of tombstones. *)
Theorem mergeDeletions_untouched
    (fuel : nat) (h : Heap) (context : MergeContext) (tdb sdb root : Ptr)
    (TD SD : Database) (Root : Group) :
  m_targetDb context = Some tdb →
  m_sourceDb context = Some sdb →
  m_targetRootGroup context = Some root →
  h_dbs h !! tdb = Some TD →
  h_dbs h !! sdb = Some SD →
  treeOk fuel h tdb root = true →
  h_groups h !! root = Some Root →
  g_parent Root = None →
  ∃ (changes : ChangeList) (h' : Heap),
    mergeDeletions fuel context h = Ok (changes, h')
    ∧ (∀ e E, h_entries h !! e = Some E →
              earliestDeletion (e_uuid E)
                (db_deletedObjects TD ++ db_deletedObjects SD) = None →
              h_entries h' !! e = Some E)
    ∧ (∀ e l, entriesRecursive fuel h root = Ok l → e ∉ l →
              h_entries h' !! e = h_entries h !! e)
    ∧ (∀ d, d ≠ tdb → h_dbs h' !! d = h_dbs h !! d)
    ∧ ∃ l, h_dbs h' !! tdb = Some (Database_withDeletedObjects l TD).
Proof.
  intros Htdb Hsdb Hroot HTD HSD Hok HRoot Hparent.
  destruct (mergeDeletions_run fuel h context tdb sdb root TD SD Root)
    as (q & erased & changes & h' & _ & Hq & Hrun & Her & _ & Hdbs); try done.
  exists changes, h'. split; [done|].
  assert (∀ e, e ∈ (list_to_set
                      (filter (λ e, entryOutdated h (mergedDeletions q) e = true)
                              (entries q)) : gset Ptr) →
               ∃ E t l, h_entries h !! e = Some E
                        ∧ earliestDeletion (e_uuid E)
                            (db_deletedObjects TD ++ db_deletedObjects SD) = Some t
                        ∧ entriesRecursive fuel h root = Ok l ∧ e ∈ l) as Hqueued.
  { intros e He. apply elem_of_list_to_set, list_elem_of_filter in He as [_ He].
    destruct (queued_entry_tombstone fuel h tdb root TD SD Hok q e Hq He)
      as (E & t & HE & Hfind & Ht & _).
    apply (findEntryByUuid_Some h tdb) in Hfind
      as (l & _ & _ & _ & Hl & Hin & _); [|done].
    by exists E, t, l. }
  split; [|split; [|split]].
  - intros e E HE Hnone. eapply Erased_entry; [done..|].
    intros (E' & t & _ & HE' & Ht & _)%Hqueued. congruence.
  - intros e l Hl Hnin. rewrite (er_entries _ _ _ _ _ _ Her).
    rewrite decide_False; [done|].
    intros (_ & _ & l' & _ & _ & Hl' & Hin)%Hqueued. congruence.
  - intros d Hd. by rewrite Hdbs, lookup_insert_ne.
  - eexists. rewrite Hdbs. apply lookup_insert_eq.
Qed.

Lemma mergeDeletions_untouched_witness :
  ∃ (changes : ChangeList) (h' : Heap),
    mergeDeletions 5 (m_context twoDatabasesMerger) partlyDeletedHeap
    = Ok (changes, h')
    ∧ h_entries h' !! 41%positive = Some (plainEntry 8 "e2" 1000 0 21)
    ∧ h_entries h' !! 30%positive = Some (plainEntry 9 "e3" 1000 0 11)
    ∧ (∀ d, d ≠ 2%positive → h_dbs h' !! d = h_dbs partlyDeletedHeap !! d)
    ∧ ∃ l, h_dbs h' !! 2%positive
           = Some (Database_withDeletedObjects l
                     (mkDatabase 20 [mkDeletedObject 9 5000]
                                 (mkMetadata "target" 10 ∅) false)).
Proof.
  destruct (mergeDeletions_untouched 5 partlyDeletedHeap
              (m_context twoDatabasesMerger) 2 1 20
              (mkDatabase 20 [mkDeletedObject 9 5000] (mkMetadata "target" 10 ∅)
                          false)
              (mkDatabase 10 [mkDeletedObject 7 5000] (mkMetadata "source" 10 ∅)
                          false)
              (plainGroup 200 "root" 0 None (Some 2%positive) [] [21%positive])
              eq_refl eq_refl eq_refl eq_refl eq_refl eq_refl eq_refl eq_refl)
    as (changes & h' & Hrun & Hkept & Houtside & Hdbs & Hdb).
  exists changes, h'. split; [exact Hrun|]. split; [|split; [|split]].
  - apply Hkept; reflexivity.
  - rewrite (Houtside 30%positive [40; 41]%positive); [reflexivity|reflexivity|].
    refine (bool_decide_unpack _ _). vm_compute. exact I.
  - exact Hdbs.
  - exact Hdb.
Defined.

(** X20: every tombstone that the target holds after the deletion pass is a
    tombstone that the target or the source held before it: the tombstones
    that deleting an object records at the time of the merge do not reach
    the list. *)
Theorem mergeDeletions_tombstones_from_inputs
    (fuel : nat) (h : Heap) (context : MergeContext) (tdb sdb root : Ptr)
    (TD SD : Database) (Root : Group) :
  m_targetDb context = Some tdb →
  m_sourceDb context = Some sdb →
  m_targetRootGroup context = Some root →
  h_dbs h !! tdb = Some TD →
  h_dbs h !! sdb = Some SD →
  treeOk fuel h tdb root = true →
  h_groups h !! root = Some Root →
  g_parent Root = None →
  ∃ (changes : ChangeList) (h' : Heap) (TD' : Database),
    mergeDeletions fuel context h = Ok (changes, h')
    ∧ h_dbs h' !! tdb = Some TD'
    ∧ ∀ o, o ∈ db_deletedObjects TD' →
           o ∈ db_deletedObjects TD ++ db_deletedObjects SD.
Proof.
  intros Htdb Hsdb Hroot HTD HSD Hok HRoot Hparent.
  destruct (mergeDeletions_run fuel h context tdb sdb root TD SD Root)
    as (q & erased & changes & h' & Hcollect & Hq & Hrun & Her & Hout & Hdbs);
    try done.
  eexists changes, h', _. split; [done|].
  split; [rewrite Hdbs; apply lookup_insert_eq|].
  simpl. intros o [Ho|[Ho|Ho]%elem_of_app]%elem_of_app.
  - apply collectDeletions_retained in Hcollect as (_ & Hdel & _).
    apply Hdel in Ho as [(pre & post & Heq & _)%firstTombstone_split _].
    rewrite Heq. apply elem_of_app. right. left.
  - apply list_elem_of_fmap in Ho as (e & -> & [_ He]%list_elem_of_filter).
    destruct (queued_entry_tombstone fuel h tdb root TD SD Hok q e Hq He)
      as (E & t & _ & _ & Ht & ->).
    by apply earliestDeletion_elem.
  - apply list_elem_of_fmap in Ho as (x & -> & Hx).
    destruct (queued_group_tombstone fuel h tdb root TD SD Hok q x Hq
                (proj1 (Hout x Hx))) as (X & t & _ & _ & Ht & ->).
    by apply earliestDeletion_elem.
Qed.

Lemma mergeDeletions_tombstones_from_inputs_witness :
  ∃ (changes : ChangeList) (h' : Heap) (TD' : Database),
    mergeDeletions 5 (m_context twoDatabasesMerger) deletedGroupHeap
    = Ok (changes, h')
    ∧ h_dbs h' !! 2%positive = Some TD'
    ∧ ∀ o, o ∈ db_deletedObjects TD' →
           o ∈ [] ++ [mkDeletedObject 101 5000; mkDeletedObject 7 5000;
                      mkDeletedObject 8 5000; mkDeletedObject 102 5000;
                      mkDeletedObject 103 5000].
Proof.
  exact (mergeDeletions_tombstones_from_inputs 5 deletedGroupHeap
           (m_context twoDatabasesMerger) 2 1 20
           (mkDatabase 20 [] (mkMetadata "target" 10 ∅) false)
           (mkDatabase 10
              [mkDeletedObject 101 5000; mkDeletedObject 7 5000;
               mkDeletedObject 8 5000; mkDeletedObject 102 5000;
               mkDeletedObject 103 5000] (mkMetadata "source" 10 ∅) false)
           (plainGroup 200 "root" 0 None (Some 2%positive) []
                       [21%positive; 22%positive])
           eq_refl eq_refl eq_refl eq_refl eq_refl eq_refl eq_refl eq_refl).
Defined.

(** X18: a UUID without live object in the target keeps, of the tombstones of
    both sides, the first one in the order target, source, with the time
    that tombstone has, and keeps no other: a later tombstone of the UUID
    with an earlier time does not replace it. *)
Theorem mergeDeletions_first_tombstone
    (fuel : nat) (h : Heap) (context : MergeContext) (tdb sdb root : Ptr)
    (TD SD : Database) (Root : Group) (object : DeletedObject) :
  m_targetDb context = Some tdb →
  m_sourceDb context = Some sdb →
  m_targetRootGroup context = Some root →
  h_dbs h !! tdb = Some TD →
  h_dbs h !! sdb = Some SD →
  treeOk fuel h tdb root = true →
  h_groups h !! root = Some Root →
  g_parent Root = None →
  firstTombstone (db_deletedObjects TD ++ db_deletedObjects SD) object →
  noLiveObject fuel h root (uuid object) →
  ∃ (changes : ChangeList) (h' : Heap) (TD' : Database),
    mergeDeletions fuel context h = Ok (changes, h')
    ∧ h_dbs h' !! tdb = Some TD'
    ∧ object ∈ db_deletedObjects TD'
    ∧ ∀ o, o ∈ db_deletedObjects TD' → uuid o = uuid object → o = object.
Proof.
  intros Htdb Hsdb Hroot HTD HSD Hok HRoot Hparent Hfirst [Hfe Hfg].
  destruct (mergeDeletions_run fuel h context tdb sdb root TD SD Root)
    as (q & erased & changes & h' & Hcollect & Hq & Hrun & Her & Hout & Hdbs);
    try done.
  apply collectDeletions_retained in Hcollect as (_ & Hdel & Hnd).
  assert (object ∈ deletions q) as Hin by (by apply Hdel).
  eexists changes, h', _. split; [done|].
  split; [rewrite Hdbs; apply lookup_insert_eq|]. simpl. split.
  - apply elem_of_app. by left.
  - intros o [Ho|[Ho|Ho]%elem_of_app]%elem_of_app Hu.
    + by apply (NoDup_map_eq uuid (deletions q)).
    + apply list_elem_of_fmap in Ho as (e & -> & [_ He]%list_elem_of_filter).
      destruct (queued_entry_tombstone fuel h tdb root TD SD Hok q e Hq He)
        as (E & t & _ & Hfind & _ & Htomb).
      rewrite Htomb in Hu. simpl in Hu. congruence.
    + apply list_elem_of_fmap in Ho as (x & -> & Hx).
      destruct (queued_group_tombstone fuel h tdb root TD SD Hok q x Hq
                  (proj1 (Hout x Hx))) as (X & t & _ & Hfind & _ & Htomb).
      rewrite Htomb in Hu. simpl in Hu. congruence.
Qed.

Lemma mergeDeletions_first_tombstone_witness :
  ∃ (changes : ChangeList) (h' : Heap) (TD' : Database),
    mergeDeletions 5 (m_context twoDatabasesMerger) tombstonePairHeap
    = Ok (changes, h')
    ∧ h_dbs h' !! 2%positive = Some TD'
    ∧ mkDeletedObject 555 7000 ∈ db_deletedObjects TD'
    ∧ ∀ o, o ∈ db_deletedObjects TD' → uuid o = 555%N →
           o = mkDeletedObject 555 7000.
Proof.
  exact (mergeDeletions_first_tombstone 5 tombstonePairHeap
           (m_context twoDatabasesMerger) 2 1 20
           (mkDatabase 20 [mkDeletedObject 555 7000] (mkMetadata "target" 10 ∅) false)
           (mkDatabase 10 [mkDeletedObject 555 1000] (mkMetadata "source" 10 ∅) false)
           (plainGroup 200 "root" 0 None (Some 2%positive) [] [])
           (mkDeletedObject 555 7000)
           eq_refl eq_refl eq_refl eq_refl eq_refl eq_refl eq_refl eq_refl
           eq_refl (conj eq_refl eq_refl)).
Defined.

(** X19: after the deletion pass the target holds one deletion time per UUID: two
    tombstones of the same UUID in its list are equal. *)
Theorem mergeDeletions_one_time_per_uuid
    (fuel : nat) (h : Heap) (context : MergeContext) (tdb sdb root : Ptr)
    (TD SD : Database) (Root : Group) :
  m_targetDb context = Some tdb →
  m_sourceDb context = Some sdb →
  m_targetRootGroup context = Some root →
  h_dbs h !! tdb = Some TD →
  h_dbs h !! sdb = Some SD →
  treeOk fuel h tdb root = true →
  h_groups h !! root = Some Root →
  g_parent Root = None →
  ∃ (changes : ChangeList) (h' : Heap) (TD' : Database),
    mergeDeletions fuel context h = Ok (changes, h')
    ∧ h_dbs h' !! tdb = Some TD'
    ∧ ∀ o o', o ∈ db_deletedObjects TD' → o' ∈ db_deletedObjects TD' →
              uuid o = uuid o' → o = o'.
Proof.
  intros Htdb Hsdb Hroot HTD HSD Hok HRoot Hparent.
  destruct (mergeDeletions_run fuel h context tdb sdb root TD SD Root)
    as (q & erased & changes & h' & Hcollect & Hq & Hrun & Her & Hout & Hdbs);
    try done.
  apply collectDeletions_retained in Hcollect as (_ & Hdel & Hnd).
  eexists changes, h', _. split; [done|].
  split; [rewrite Hdbs; apply lookup_insert_eq|]. simpl.
  set (objects := db_deletedObjects TD ++ db_deletedObjects SD) in *.
  (* a tombstone of the list is retained as it was, for a UUID without live
     object, or is that of a deleted object, at the earliest time *)
  assert (∀ o, o ∈ deletions q
                   ++ map (entryTombstone h (mergedDeletions q))
                          (filter (λ e, entryOutdated h (mergedDeletions q) e = true)
                                  (entries q))
                   ++ map (groupTombstone h (mergedDeletions q)) erased →
               (o ∈ deletions q ∧ noLiveObject fuel h root (uuid o))
               ∨ (∃ t, earliestDeletion (uuid o) objects = Some t
                       ∧ o = mkDeletedObject (uuid o) t
                       ∧ ¬ noLiveObject fuel h root (uuid o))) as Hkind.
  { intros o [Ho|[Ho|Ho]%elem_of_app]%elem_of_app.
    - left. split; [done|]. by apply Hdel.
    - right. apply list_elem_of_fmap in Ho as (e & -> & [_ He]%list_elem_of_filter).
      destruct (queued_entry_tombstone fuel h tdb root TD SD Hok q e Hq He)
        as (E & t & _ & Hfind & Ht & ->).
      exists t. simpl. split; [done|]. split; [done|]. intros [? _]. congruence.
    - right. apply list_elem_of_fmap in Ho as (x & -> & Hx).
      destruct (queued_group_tombstone fuel h tdb root TD SD Hok q x Hq
                  (proj1 (Hout x Hx))) as (X & t & _ & Hfind & Ht & ->).
      exists t. simpl. split; [done|]. split; [done|]. intros [_ ?]. congruence. }
  intros o o' Ho Ho' Hu.
  destruct (Hkind o Ho) as [[Hin Hno]|(t & Ht & Heq & Hlive)],
           (Hkind o' Ho') as [[Hin' Hno']|(t' & Ht' & Heq' & Hlive')].
  - by apply (NoDup_map_eq uuid (deletions q)).
  - destruct Hlive'. by rewrite <-Hu.
  - destruct Hlive. by rewrite Hu.
  - rewrite Heq, Heq'. rewrite Hu in Ht |- *. congruence.
Qed.

Lemma mergeDeletions_one_time_per_uuid_witness :
  ∃ (changes : ChangeList) (h' : Heap) (TD' : Database),
    mergeDeletions 5 (m_context twoDatabasesMerger) tombstonePairHeap
    = Ok (changes, h')
    ∧ h_dbs h' !! 2%positive = Some TD'
    ∧ ∀ o o', o ∈ db_deletedObjects TD' → o' ∈ db_deletedObjects TD' →
              uuid o = uuid o' → o = o'.
Proof.
  exact (mergeDeletions_one_time_per_uuid 5 tombstonePairHeap
           (m_context twoDatabasesMerger) 2 1 20
           (mkDatabase 20 [mkDeletedObject 555 7000] (mkMetadata "target" 10 ∅) false)
           (mkDatabase 10 [mkDeletedObject 555 1000] (mkMetadata "source" 10 ∅) false)
           (plainGroup 200 "root" 0 None (Some 2%positive) [] [])
           eq_refl eq_refl eq_refl eq_refl eq_refl eq_refl eq_refl eq_refl).
Defined.

(** ** Relocation: [moveEntry] and [moveGroup] between two groups *)

(** Reduce the projections of the heap built so far. *)
Ltac hsimpl :=
  unfold Heap_withGroups, Heap_withEntries, Heap_withDbs;
  cbn [h_entries h_groups h_dbs h_next h_now h_uuidSeed].

Ltac hstep lem := mstep lem; hsimpl.

(** [moveEntry] between two groups. *)
Lemma moveEntry_between_Ok
    (h : Heap) (entry old new : Ptr) (E : Entry) (Old New : Group) :
  h_entries h !! entry = Some E →
  e_group E = Some old →
  old ≠ new →
  h_groups h !! old = Some Old →
  h_groups h !! new = Some New →
  moveEntry entry (Some new) h
  = Ok (tt,
        mkHeap (<[entry := Entry_withGroup (Some new) E]> (h_entries h))
               (<[new := Group_withEntries (g_entries New ++ [entry]) New]>
                  (<[old := Group_withEntries
                              (filter (λ x, x ≠ entry) (g_entries Old)) Old]>
                     (h_groups h)))
               (h_dbs h) (h_next h) (h_now h) (h_uuidSeed h)).
Proof.
  intros HE Hg Hne HOld HNew. unfold moveEntry.
  mstep getEntry_Ok. rewrite Hg, decide_False by congruence.
  mstep Group_canUpdateTimeinfo_Ok.
  unfold Group_setUpdateTimeinfo at 1. hstep modifyGroup_Ok.
  mstep Group_canUpdateTimeinfo_Ok.
  unfold Group_setUpdateTimeinfo at 1. hstep modifyGroup_Ok.
  mstep Entry_canUpdateTimeinfo_Ok.
  unfold Entry_setUpdateTimeinfo at 1. hstep modifyEntry_Ok.
  erewrite bind_Ok; cycle 1.
  { unfold Entry_setGroup. rewrite (bind_Ok _ _ _ _ _ (deref_Some _ _)).
    mstep getEntry_Ok. cbn [e_group Entry_withUpdateTimeinfo].
    rewrite Hg, decide_False by congruence.
    erewrite bind_Ok;
      [|eapply Group_removeEntry_suspended; [lookup_solve|by destruct Old]].
    hsimpl. hstep modifyEntry_Ok.
    erewrite bind_Ok;
      [|eapply Group_addEntry_suspended; [lookup_solve|by destruct New]].
    hsimpl.
    unfold Clock_currentDateTimeUtc. unfold mbind at 1, M_bind at 1.
    erewrite modifyEntry_Ok by lookup_solve. hsimpl. done. }
  unfold Entry_setUpdateTimeinfo. hstep modifyEntry_Ok.
  unfold Group_setUpdateTimeinfo. hstep modifyGroup_Ok.
  erewrite modifyGroup_Ok by lookup_solve. hsimpl.
  f_equal. f_equal. f_equal.
  - rewrite !insert_insert_eq. by destruct E.
  - apply map_eq. intros p.
    destruct (decide (p = new)) as [->|Hnew]; [|destruct (decide (p = old)) as [->|Hold]].
    + rewrite lookup_insert_ne by done. rewrite !lookup_insert_eq. by destruct New.
    + rewrite lookup_insert_eq, lookup_insert_ne, lookup_insert_eq by done.
      by destruct Old.
    + by rewrite !lookup_insert_ne.
Qed.

(** X8: [moveEntry] of an entry from its group to another group: the entry
    leaves the list of the old group and is appended to the list of the new
    one, and names the new group as its parent.  No [TimeInfo] changes, that
    of the entry, of the old group or of the new group, and the three
    update-timeinfo flags are as before. *)
Theorem moveEntry_relocates
    (h : Heap) (entry old new : Ptr) (E : Entry) (Old New : Group) :
  h_entries h !! entry = Some E →
  e_group E = Some old →
  old ≠ new →
  h_groups h !! old = Some Old →
  h_groups h !! new = Some New →
  moveEntry entry (Some new) h
  = Ok (tt,
        mkHeap (<[entry := Entry_withGroup (Some new) E]> (h_entries h))
               (<[new := Group_withEntries (g_entries New ++ [entry]) New]>
                  (<[old := Group_withEntries
                              (filter (λ x, x ≠ entry) (g_entries Old)) Old]>
                     (h_groups h)))
               (h_dbs h) (h_next h) (h_now h) (h_uuidSeed h)).
Proof. apply moveEntry_between_Ok. Qed.

Lemma moveEntry_relocates_witness :
  moveEntry 40 (Some 22%positive) movedEntryHeap
  = Ok (tt,
        mkHeap (<[40%positive := plainEntry 7 "e" 1000 10000 22]>
                  (h_entries movedEntryHeap))
               (<[22%positive := plainGroup 102 "b" 0 (Some 20%positive)
                                   (Some 2%positive) [40%positive] []]>
                  (<[21%positive := plainGroup 101 "a" 0 (Some 20%positive)
                                      (Some 2%positive) [] []]>
                     (h_groups movedEntryHeap)))
               (h_dbs movedEntryHeap) 1000 99000 5000).
Proof.
  exact (moveEntry_relocates movedEntryHeap 40 21 22
           (plainEntry 7 "e" 1000 10000 21)
           (plainGroup 101 "a" 0 (Some 20%positive) (Some 2%positive)
                       [40%positive] [])
           (plainGroup 102 "b" 0 (Some 20%positive) (Some 2%positive) [] [])
           eq_refl eq_refl ltac:(discriminate) eq_refl eq_refl).
Defined.

(** [moveGroup] between two groups. *)
Lemma moveGroup_between_Ok
    (h : Heap) (group old new : Ptr) (G Old New : Group) :
  h_groups h !! group = Some G →
  g_parent G = Some old →
  old ≠ new → group ≠ old → group ≠ new →
  h_groups h !! old = Some Old →
  h_groups h !! new = Some New →
  moveGroup group (Some new) h
  = Ok (tt,
        Heap_withGroups
          (<[group := Group_withParent (Some new) (g_db New) G]>
             (<[new := Group_withChildren (g_children New ++ [group]) New]>
                (<[old := Group_withChildren
                            (filter (λ x, x ≠ group) (g_children Old)) Old]>
                   (h_groups h))))
          h).
Proof.
  intros HG Hg Hne Hgo Hgn HOld HNew. unfold moveGroup.
  mstep getGroup_Ok. rewrite Hg, decide_False by congruence.
  mstep Group_canUpdateTimeinfo_Ok.
  unfold Group_setUpdateTimeinfo at 1. hstep modifyGroup_Ok.
  mstep Group_canUpdateTimeinfo_Ok.
  unfold Group_setUpdateTimeinfo at 1. hstep modifyGroup_Ok.
  mstep Group_canUpdateTimeinfo_Ok.
  unfold Group_setUpdateTimeinfo at 1. hstep modifyGroup_Ok.
  erewrite bind_Ok; cycle 1.
  { unfold Group_setParent. rewrite (bind_Ok _ _ _ _ _ (deref_Some _ _)).
    mstep getGroup_Ok. cbn [g_parent Group_withUpdateTimeinfo].
    rewrite Hg, decide_False by congruence.
    erewrite bind_Ok; cycle 1.
    { hstep modifyGroup_Ok.
      eapply Group_touch_suspended; [lookup_solve|by destruct Old]. }
    mstep getGroup_Ok. hstep modifyGroup_Ok. hstep modifyGroup_Ok.
    erewrite bind_Ok;
      [|eapply Group_touch_suspended; [lookup_solve|by destruct New]].
    unfold Clock_currentDateTimeUtc. unfold mbind at 1, M_bind at 1.
    hstep modifyGroup_Ok. cbn [g_updateTimeinfo Group_withParent
                                Group_withUpdateTimeinfo].
    eapply Group_touch_suspended; [lookup_solve|done]. }
  unfold Group_setUpdateTimeinfo. hstep modifyGroup_Ok. hstep modifyGroup_Ok.
  erewrite modifyGroup_Ok by lookup_solve. hsimpl.
  f_equal. f_equal. destruct h; simpl. f_equal.
  apply map_eq. intros p.
  destruct (decide (p = group)) as [->|Hpg];
    [|destruct (decide (p = new)) as [->|Hpn];
      [|destruct (decide (p = old)) as [->|Hpo]]].
  - rewrite lookup_insert_eq. rewrite !(lookup_insert_ne _ _ group) by done.
    rewrite lookup_insert_eq. by destruct G, New.
  - rewrite (lookup_insert_ne _ group new) by done.
    rewrite lookup_insert_eq, lookup_insert_ne, lookup_insert_eq by done.
    by destruct New.
  - rewrite lookup_insert_eq, !lookup_insert_ne, lookup_insert_eq by done.
    by destruct Old.
  - by rewrite !lookup_insert_ne.
Qed.

(** X9: [moveGroup] of a group from its parent to another group: the group
    leaves the list of the old parent and is appended to the list of the new
    one, names the new parent and belongs to the new parent's database.  No
    [TimeInfo] changes, that of the group, of the old parent or of the new
    parent, and the three update-timeinfo flags are as before. *)
Theorem moveGroup_relocates
    (h : Heap) (group old new : Ptr) (G Old New : Group) :
  h_groups h !! group = Some G →
  g_parent G = Some old →
  old ≠ new → group ≠ old → group ≠ new →
  h_groups h !! old = Some Old →
  h_groups h !! new = Some New →
  moveGroup group (Some new) h
  = Ok (tt,
        Heap_withGroups
          (<[group := Group_withParent (Some new) (g_db New) G]>
             (<[new := Group_withChildren (g_children New ++ [group]) New]>
                (<[old := Group_withChildren
                            (filter (λ x, x ≠ group) (g_children Old)) Old]>
                   (h_groups h))))
          h).
Proof. apply moveGroup_between_Ok. Qed.

Lemma moveGroup_relocates_witness :
  moveGroup 21 (Some 22%positive) movedEntryHeap
  = Ok (tt,
        Heap_withGroups
          (<[21%positive := plainGroup 101 "a" 0 (Some 22%positive) (Some 2%positive)
                              [40%positive] []]>
             (<[22%positive := plainGroup 102 "b" 0 (Some 20%positive)
                                 (Some 2%positive) [] [21%positive]]>
                (<[20%positive := plainGroup 200 "root" 0 None (Some 2%positive) []
                                    [22%positive]]>
                   (h_groups movedEntryHeap))))
          movedEntryHeap).
Proof.
  exact (moveGroup_relocates movedEntryHeap 21 20 22
           (plainGroup 101 "a" 0 (Some 20%positive) (Some 2%positive)
                       [40%positive] [])
           (plainGroup 200 "root" 0 None (Some 2%positive) []
                       [21%positive; 22%positive])
           (plainGroup 102 "b" 0 (Some 20%positive) (Some 2%positive) [] [])
           eq_refl eq_refl ltac:(discriminate) ltac:(discriminate)
           ltac:(discriminate) eq_refl eq_refl).
Defined.

(** ** Objects that the target lacks *)

(** X3: [mergeGroup], for a source entry whose UUID no entry of the target has:
    a deep clone of the source entry, history included, is attached at the
    end of the current target group.  The clone has the UUID, the
    attributes and the [TimeInfo] of the source entry; the [TimeInfo] of the
    target group does not change; nothing else in the heap changes. *)
Theorem mergeGroup_entry_creates_missing
    (fuel : nat) (mode : option MergeMode) (context : MergeContext) (h : Heap)
    (sourceEntry root targetGroup : Ptr) (SE : Entry) (TG : Group) :
  h_entries h !! sourceEntry = Some SE →
  m_targetRootGroup context = Some root →
  findEntryByUuid fuel h root (e_uuid SE) = Ok None →
  m_targetGroup context = Some targetGroup →
  h_groups h !! targetGroup = Some TG →
  mergeGroup_entry fuel mode context sourceEntry h
  = Ok ([CreatingMissing (Entry_title SE) (e_uuid SE)],
        mkHeap (<[h_next h := clonedEntry SE (Some targetGroup)]> (h_entries h))
               (<[targetGroup := Group_withEntries (g_entries TG ++ [h_next h]) TG]>
                  (h_groups h))
               (h_dbs h) (Pos.succ (h_next h)) (h_now h) (h_uuidSeed h)).
Proof.
  intros HSE Hroot Hfind Htg HTG. unfold mergeGroup_entry.
  mstep getEntry_Ok. rewrite Hroot, Htg.
  rewrite (bind_Ok _ _ _ _ _ (deref_Some _ _)).
  rewrite (bind_Ok _ _ _ _ _ (readHeap_Ok _ _ _ Hfind)).
  mstep Entry_clone_Ok.
  erewrite bind_Ok; [|by eapply moveEntry_attach_Ok; lookup_solve].
  rewrite mret_Ok. hsimpl. by rewrite insert_insert_eq.
Qed.

Lemma mergeGroup_entry_creates_missing_witness :
  mergeGroup_entry 5 ModeDefault (m_context twoDatabasesMerger) 30 missingObjectsHeap
  = Ok ([CreatingMissing "e" 7],
        mkHeap (<[1000%positive := plainEntry 7 "e" 1000 500 20]>
                  (h_entries missingObjectsHeap))
               (<[20%positive := plainGroup 200 "root" 0 None (Some 2%positive)
                                   [1000%positive] []]>
                  (h_groups missingObjectsHeap))
               (h_dbs missingObjectsHeap) 1001 99000 5000).
Proof.
  exact (mergeGroup_entry_creates_missing 5 ModeDefault
           (m_context twoDatabasesMerger) missingObjectsHeap 30 20 20
           (plainEntry 7 "e" 1000 500 10)
           (plainGroup 200 "root" 0 None (Some 2%positive) [] [])
           eq_refl eq_refl eq_refl eq_refl eq_refl).
Defined.

Lemma Group_clone_Ok (h : Heap) (g : Ptr) (G : Group) :
  h_groups h !! g = Some G →
  Group_clone g h
  = Ok (h_next h,
        mkHeap (h_entries h)
               (<[h_next h := mkGroup (g_uuid G) (g_name G) (g_notes G)
                                (g_iconNumber G) (g_iconUuid G) (g_timeInfo G)
                                (g_mergeMode G) None None [] [] true]> (h_groups h))
               (h_dbs h) (Pos.succ (h_next h)) (h_now h) (h_uuidSeed h)).
Proof.
  intros HG. unfold Group_clone. mstep getGroup_Ok.
  unfold alloc at 1. unfold mbind at 1, M_bind at 1. done.
Qed.

(** [moveGroup] of a detached group under a group. *)
Lemma moveGroup_attach_Ok (h : Heap) (group new : Ptr) (G New : Group) :
  h_groups h !! group = Some G → g_parent G = None → group ≠ new →
  h_groups h !! new = Some New →
  moveGroup group (Some new) h
  = Ok (tt,
        Heap_withGroups
          (<[group := Group_withParent (Some new) (g_db New) G]>
             (<[new := Group_withChildren (g_children New ++ [group]) New]>
                (h_groups h)))
          h).
Proof.
  intros HG Hg Hgn HNew. unfold moveGroup.
  mstep getGroup_Ok. rewrite Hg, decide_False by done.
  rewrite (bind_Ok _ _ _ _ _ (mret_Ok _ _)).
  rewrite (bind_Ok _ _ _ _ _ (mret_Ok _ _)).
  mstep Group_canUpdateTimeinfo_Ok.
  unfold Group_setUpdateTimeinfo at 1. hstep modifyGroup_Ok.
  mstep Group_canUpdateTimeinfo_Ok.
  unfold Group_setUpdateTimeinfo at 1. hstep modifyGroup_Ok.
  erewrite bind_Ok; cycle 1.
  { unfold Group_setParent. rewrite (bind_Ok _ _ _ _ _ (deref_Some _ _)).
    mstep getGroup_Ok. cbn [g_parent Group_withUpdateTimeinfo].
    rewrite Hg, decide_False by done.
    rewrite (bind_Ok _ _ _ _ _ (mret_Ok _ _)).
    mstep getGroup_Ok. hstep modifyGroup_Ok. hstep modifyGroup_Ok.
    erewrite bind_Ok;
      [|eapply Group_touch_suspended; [lookup_solve|by destruct New]].
    unfold Clock_currentDateTimeUtc. unfold mbind at 1, M_bind at 1.
    hstep modifyGroup_Ok. cbn [g_updateTimeinfo Group_withParent
                                Group_withUpdateTimeinfo].
    eapply Group_touch_suspended; [lookup_solve|done]. }
  unfold Group_setUpdateTimeinfo. hstep modifyGroup_Ok. hstep modifyGroup_Ok.
  rewrite mret_Ok.
  f_equal. f_equal. destruct h; simpl. f_equal.
  apply map_eq. intros p.
  destruct (decide (p = group)) as [->|Hpg]; [|destruct (decide (p = new)) as [->|Hpn]].
  - rewrite lookup_insert_eq. rewrite !(lookup_insert_ne _ _ group) by done.
    rewrite lookup_insert_eq. by destruct G, New.
  - rewrite (lookup_insert_ne _ group new) by done.
    rewrite !lookup_insert_eq. by destruct New.
  - by rewrite !lookup_insert_ne.
Qed.

Lemma setLocationChanged_id (ti : TimeInfo) :
  setLocationChanged (locationChanged ti High) ti = ti.
Proof. by destruct ti. Qed.

(** X5: [mergeGroup], for a source child group whose UUID no group of the
    target has: a copy of the group without entries and without children is
    attached at the end of the current target group, in that group's
    database.  The copy has the UUID, the name, the notes, the icon, the
    merge mode and the whole [TimeInfo] of the source group; the [TimeInfo]
    of the target group does not change; nothing else in the heap
    changes. *)
Theorem mergeGroup_child_creates_missing
    (fuel : nat) (context : MergeContext) (h : Heap)
    (sourceChildGroup root targetGroup : Ptr) (SG TG : Group) :
  h_groups h !! sourceChildGroup = Some SG →
  m_targetRootGroup context = Some root →
  findGroupByUuid fuel h root (g_uuid SG) = Ok None →
  m_targetGroup context = Some targetGroup →
  h_groups h !! targetGroup = Some TG →
  h_groups h !! h_next h = None →
  mergeGroup_child fuel context sourceChildGroup h
  = Ok (([CreatingMissing (g_name SG) (g_uuid SG)], h_next h),
        mkHeap (h_entries h)
               (<[h_next h := mkGroup (g_uuid SG) (g_name SG) (g_notes SG)
                                (g_iconNumber SG) (g_iconUuid SG) (g_timeInfo SG)
                                (g_mergeMode SG) (Some targetGroup) (g_db TG)
                                [] [] true]>
                  (<[targetGroup := Group_withChildren
                                      (g_children TG ++ [h_next h]) TG]>
                     (h_groups h)))
               (h_dbs h) (Pos.succ (h_next h)) (h_now h) (h_uuidSeed h)).
Proof.
  intros HSG Hroot Hfind Htg HTG Hfresh.
  assert (h_next h ≠ targetGroup) as Hne by (intros Heq; congruence).
  unfold mergeGroup_child.
  mstep getGroup_Ok. rewrite Hroot, Htg.
  rewrite (bind_Ok _ _ _ _ _ (deref_Some _ _)).
  rewrite (bind_Ok _ _ _ _ _ (readHeap_Ok _ _ _ Hfind)).
  mstep Group_clone_Ok.
  erewrite bind_Ok; [|by eapply moveGroup_attach_Ok; lookup_solve].
  hsimpl. mstep getGroup_Ok.
  unfold Group_setTimeInfo. hstep modifyGroup_Ok.
  rewrite mret_Ok. cbn [g_timeInfo Group_withParent].
  rewrite setLocationChanged_id. do 3 f_equal.
  apply map_eq. intros p.
  destruct (decide (p = h_next h)) as [->|Hp].
  - by rewrite !lookup_insert_eq.
  - rewrite !(lookup_insert_ne _ (h_next h)) by done.
    destruct (decide (p = targetGroup)) as [->|Hpt].
    + by rewrite !lookup_insert_eq.
    + by rewrite !lookup_insert_ne.
Qed.

Lemma mergeGroup_child_creates_missing_witness :
  mergeGroup_child 5 (m_context twoDatabasesMerger) 11 missingObjectsHeap
  = Ok (([CreatingMissing "a" 101], 1000%positive),
        mkHeap (h_entries missingObjectsHeap)
               (<[1000%positive := plainGroup 101 "a" 3000 (Some 20%positive)
                                     (Some 2%positive) [] []]>
                  (<[20%positive := plainGroup 200 "root" 0 None (Some 2%positive)
                                      [] [1000%positive]]>
                     (h_groups missingObjectsHeap)))
               (h_dbs missingObjectsHeap) 1001 99000 5000).
Proof.
  exact (mergeGroup_child_creates_missing 5 (m_context twoDatabasesMerger)
           missingObjectsHeap 11 20 20
           (plainGroup 101 "a" 3000 (Some 10%positive) (Some 1%positive) [] [])
           (plainGroup 200 "root" 0 None (Some 2%positive) [] [])
           eq_refl eq_refl eq_refl eq_refl eq_refl eq_refl).
Defined.

(** ** Group conflicts *)



Lemma Group_keeps_trans (now : QDateTime) (G1 G2 G3 : Group) :
  Group_keeps now G1 G2 → Group_keeps now G2 G3 → Group_keeps now G1 G3.
Proof.
  unfold Group_keeps. intros (?&?&?&?&?&?&?&?&?&?&?&H12) (?&?&?&?&?&?&?&?&?&?&?&H23).
  repeat split; try congruence.
  destruct H23 as [H23|H23]; [|by right].
  rewrite H23. done.
Qed.





Lemma Group_setterOk_then (m1 m2 : M unit) (h : Heap) (p : Ptr) (G : Group)
    (name1 notes1 name2 notes2 : string) (expiry1 expiry2 : QDateTime) :
  Group_setterOk m1 h p G name1 notes1 expiry1 →
  (∀ G1, g_name G1 = name1 → g_notes G1 = notes1 →
         m_expiryTime (g_timeInfo G1) = expiry1 →
         Group_setterOk m2 (Heap_withGroups (<[p := G1]> (h_groups h)) h) p G1
                        name2 notes2 expiry2) →
  Group_setterOk (m1 ;; m2) h p G name2 notes2 expiry2.
Proof.
  intros (G1 & Hrun1 & Hkeeps1 & Hn1 & Ht1 & He1) Hm2.
  destruct (Hm2 G1 Hn1 Ht1 He1) as (G2 & Hrun2 & Hkeeps2 & Hn2 & Ht2 & He2).
  exists G2. rewrite (bind_Ok _ _ _ _ _ Hrun1), Hrun2. hsimpl.
  rewrite insert_insert_eq. split; [done|].
  split; [by eapply Group_keeps_trans|done].
Qed.









(** ** Entry conflicts that change nothing *)

(** X12: [resolveEntryConflict] changes nothing and reports nothing under
    [KeepExisting]; under [KeepBoth] when the two entries were last modified
    within the same second; and under [KeepNewer] when the source entry was
    not modified in a later second than the target entry.  A difference of
    milliseconds alone is no conflict. *)
Theorem resolveEntryConflict_no_conflict
    (fuel : nat) (mode : option MergeMode) (context : MergeContext) (h : Heap)
    (sourceEntry targetEntry : Ptr) (SE TE : Entry) (mergeMode : MergeMode) :
  h_entries h !! sourceEntry = Some SE →
  h_entries h !! targetEntry = Some TE →
  effectiveMergeMode fuel mode context h = Ok (mergeMode, h) →
  match mergeMode with
  | KeepExisting => True
  | KeepBoth =>
      Clock_serialized (m_lastModificationTime (e_timeInfo TE))
      = Clock_serialized (m_lastModificationTime (e_timeInfo SE))
  | KeepNewer =>
      Clock_serialized (m_lastModificationTime (e_timeInfo SE))
      ≤ Clock_serialized (m_lastModificationTime (e_timeInfo TE))
  | _ => False
  end →
  resolveEntryConflict fuel mode context sourceEntry targetEntry h = Ok ([], h).
Proof.
  intros HSE HTE Hmode Hcond. unfold resolveEntryConflict.
  mstep getEntry_Ok. mstep getEntry_Ok.
  rewrite (bind_Ok _ _ _ _ _ Hmode).
  unfold lastModificationTime, atPrecision.
  destruct mergeMode; try done.
  - rewrite Hcond, Z.gtb_ltb, Z.ltb_irrefl. done.
  - destruct (Z.ltb_spec (Clock_serialized (m_lastModificationTime (e_timeInfo TE)))
                         (Clock_serialized (m_lastModificationTime (e_timeInfo SE))));
      [lia|done].
Qed.

Lemma resolveEntryConflict_no_conflict_witness :
  resolveEntryConflict 5 (Some KeepBoth) (m_context twoDatabasesMerger) 30 40
                       movedEntryHeap
  = Ok ([], movedEntryHeap).
Proof.
  exact (resolveEntryConflict_no_conflict 5 (Some KeepBoth)
           (m_context twoDatabasesMerger) movedEntryHeap 30 40
           (plainEntry 7 "e" 1000 20000 12) (plainEntry 7 "e" 1000 10000 21)
           KeepBoth eq_refl eq_refl eq_refl eq_refl).
Defined.

(** ** The two constructors *)

(** X24: a merger constructed from the root groups of two databases is the
    merger constructed from the two databases. *)
Theorem Merger_ofGroups_roots
    (h : Heap) (sdb tdb : Ptr) (SD TD : Database) (SR TR : Group) :
  h_dbs h !! sdb = Some SD →
  h_dbs h !! tdb = Some TD →
  h_groups h !! db_rootGroup SD = Some SR →
  h_groups h !! db_rootGroup TD = Some TR →
  g_db SR = Some sdb →
  g_db TR = Some tdb →
  Merger_ofGroups (Some (db_rootGroup SD)) (Some (db_rootGroup TD)) h
  = Merger_ofDatabases (Some sdb) (Some tdb) h.
Proof.
  intros HSD HTD HSR HTR Hs Ht. unfold Merger_ofGroups, Merger_ofDatabases.
  mstep Group_database_Ok. mstep Group_database_Ok. rewrite Hs, Ht.
  rewrite (bind_Ok _ _ _ _ _ (deref_Some _ _)).
  assert (∀ d D, h_dbs h !! d = Some D →
                 Database_rootGroup d h = Ok (db_rootGroup D, h)) as Hroot.
  { intros d D HD. unfold Database_rootGroup. by mstep getDb_Ok. }
  rewrite (bind_Ok _ _ _ _ _ (Hroot _ _ HSD)).
  rewrite (bind_Ok _ _ _ _ _ (deref_Some _ _)).
  rewrite (bind_Ok _ _ _ _ _ (Hroot _ _ HTD)).
  rewrite (bind_Ok _ _ _ _ _ (Hroot _ _ HSD)).
  by rewrite (bind_Ok _ _ _ _ _ (Hroot _ _ HTD)).
Qed.

Lemma Merger_ofGroups_roots_witness :
  Merger_ofGroups (Some 10%positive) (Some 20%positive) movedEntryHeap
  = Merger_ofDatabases (Some 1%positive) (Some 2%positive) movedEntryHeap.
Proof.
  exact (Merger_ofGroups_roots movedEntryHeap 1 2
           (mkDatabase 10 [] (mkMetadata "source" 10 ∅) false)
           (mkDatabase 20 [] (mkMetadata "target" 10 ∅) false)
           (plainGroup 100 "root" 0 None (Some 1%positive) []
                       [11%positive; 12%positive])
           (plainGroup 200 "root" 0 None (Some 2%positive) []
                       [21%positive; 22%positive])
           eq_refl eq_refl eq_refl eq_refl eq_refl eq_refl).
Defined.

(** ** Erasing without a tombstone *)

(** X10: [eraseEntry] frees the entry and takes it off the list of its group.
    The tombstone that deleting the entry records does not stay: the
    databases are as before.  The group keeps its [TimeInfo] and its
    update-timeinfo flag, and no other object changes. *)
Theorem eraseEntry_records_no_tombstone
    (h : Heap) (entry g d : Ptr) (E : Entry) (G : Group) (D : Database) :
  h_entries h !! entry = Some E →
  e_group E = Some g →
  h_groups h !! g = Some G →
  g_db G = Some d →
  h_dbs h !! d = Some D →
  ∃ h', eraseEntry entry h = Ok (tt, h')
        ∧ h_entries h' = delete entry (h_entries h)
        ∧ h_groups h'
          = <[g := Group_withEntries (filter (λ x, x ≠ entry) (g_entries G)) G]>
              (h_groups h)
        ∧ h_dbs h' = h_dbs h.
Proof.
  intros HE Hg HG Hd HD. eexists. split; [by eapply eraseEntry_Ok|done].
Qed.

Lemma eraseEntry_records_no_tombstone_witness :
  ∃ h', eraseEntry 40 movedEntryHeap = Ok (tt, h')
        ∧ h_entries h' = delete 40%positive (h_entries movedEntryHeap)
        ∧ h_groups h'
          = <[21%positive := plainGroup 101 "a" 0 (Some 20%positive)
                               (Some 2%positive) [] []]>
              (h_groups movedEntryHeap)
        ∧ h_dbs h' = h_dbs movedEntryHeap.
Proof.
  exact (eraseEntry_records_no_tombstone movedEntryHeap 40 21 2
           (plainEntry 7 "e" 1000 10000 21)
           (plainGroup 101 "a" 0 (Some 20%positive) (Some 2%positive)
                       [40%positive] [])
           (mkDatabase 20 [] (mkMetadata "target" 10 ∅) false)
           eq_refl eq_refl eq_refl eq_refl eq_refl).
Defined.

(** X11: [eraseGroup] of a group without entries and without child groups frees
    the group and takes it off the list of its parent.  The tombstone that
    deleting the group records does not stay: the databases are as before.
    The parent keeps its [TimeInfo] and its update-timeinfo flag, and no
    other object changes. *)
Theorem eraseGroup_records_no_tombstone
    (fuel : nat) (h : Heap) (group p d : Ptr) (G P : Group) (D : Database) :
  h_groups h !! group = Some G →
  g_entries G = [] →
  g_children G = [] →
  g_db G = Some d →
  h_dbs h !! d = Some D →
  g_parent G = Some p →
  h_groups h !! p = Some P →
  p ≠ group →
  ∃ h', eraseGroup (S fuel) group h = Ok (tt, h')
        ∧ h_groups h'
          = delete group
              (<[p := Group_withChildren (filter (λ c, c ≠ group) (g_children P)) P]>
                 (h_groups h))
        ∧ h_entries h' = h_entries h
        ∧ h_dbs h' = h_dbs h.
Proof.
  intros HG He Hc Hd HD Hp HP Hne. eexists. split.
  - by eapply (eraseGroup_empty_Ok fuel h group d G D (Some (p, P))).
  - done.
Qed.

Lemma eraseGroup_records_no_tombstone_witness :
  ∃ h', eraseGroup 5 22 movedEntryHeap = Ok (tt, h')
        ∧ h_groups h'
          = delete 22%positive
              (<[20%positive := plainGroup 200 "root" 0 None (Some 2%positive) []
                                  [21%positive]]>
                 (h_groups movedEntryHeap))
        ∧ h_entries h' = h_entries movedEntryHeap
        ∧ h_dbs h' = h_dbs movedEntryHeap.
Proof.
  exact (eraseGroup_records_no_tombstone 4 movedEntryHeap 22 20 2
           (plainGroup 102 "b" 0 (Some 20%positive) (Some 2%positive) [] [])
           (plainGroup 200 "root" 0 None (Some 2%positive) []
                       [21%positive; 22%positive])
           (mkDatabase 20 [] (mkMetadata "target" 10 ∅) false)
           eq_refl eq_refl eq_refl eq_refl eq_refl eq_refl eq_refl
           ltac:(discriminate)).
Defined.

(** ** An empty source *)

(** X2: merging a source whose group has no entries and no child groups, whose
    database has no tombstones and no custom icons, into a target without
    tombstones changes nothing and returns false. *)
Theorem merge_empty_source
    (fuel : nat) (this : Merger) (h : Heap) (sdb tdb sg : Ptr)
    (SD TD : Database) (SG : Group) :
  m_sourceDb (m_context this) = Some sdb →
  m_targetDb (m_context this) = Some tdb →
  m_sourceGroup (m_context this) = Some sg →
  h_dbs h !! sdb = Some SD →
  h_dbs h !! tdb = Some TD →
  h_groups h !! sg = Some SG →
  g_entries SG = [] →
  g_children SG = [] →
  db_deletedObjects SD = [] →
  db_deletedObjects TD = [] →
  md_customIcons (db_metadata SD) = ∅ →
  merge (S fuel) this h = Ok (false, h).
Proof.
  intros Hsdb Htdb Hsg HSD HTD HSG He Hc Hds Hdt Hicons. unfold merge.
  assert (mergeGroup (S fuel) (S fuel) (m_mode this) (m_context this) h = Ok ([], h))
    as Hgroup.
  { simpl. rewrite Hsg. rewrite (bind_Ok _ _ _ _ _ (deref_Some _ _)).
    mstep getGroup_Ok. rewrite He. simpl.
    rewrite (bind_Ok _ _ _ _ _ (mret_Ok _ _)).
    mstep getGroup_Ok. rewrite Hc. simpl.
    by rewrite (bind_Ok _ _ _ _ _ (mret_Ok _ _)). }
  assert (mergeDeletions (S fuel) (m_context this) h = Ok ([], h)) as Hdeletions.
  { unfold mergeDeletions. rewrite Htdb, Hsdb.
    rewrite (bind_Ok _ _ _ _ _ (deref_Some _ _)).
    mstep Database_deletedObjects_Ok.
    rewrite (bind_Ok _ _ _ _ _ (deref_Some _ _)).
    mstep Database_deletedObjects_Ok.
    rewrite Hds, Hdt. simpl.
    erewrite bind_Ok; [|apply readHeap_Ok; reflexivity]. simpl.
    rewrite (bind_Ok _ _ _ _ _ (mret_Ok _ _)). simpl.
    rewrite (bind_Ok _ _ _ _ _ (mret_Ok _ _)). simpl.
    mstep Database_deletedObjects_Ok. rewrite Hdt. simpl.
    unfold Database_setDeletedObjects.
    erewrite bind_Ok; [|by apply modifyDb_Ok]. rewrite mret_Ok.
    do 2 f_equal. apply Heap_withDbs_id. rewrite HTD. f_equal.
    destruct TD; simpl in *. by subst. }
  assert (mergeMetadata (m_context this) h = Ok ([], h)) as Hmetadata.
  { unfold mergeMetadata. rewrite Hsdb, Htdb.
    rewrite (bind_Ok _ _ _ _ _ (deref_Some _ _)).
    mstep Database_metadata_Ok.
    rewrite (bind_Ok _ _ _ _ _ (deref_Some _ _)).
    mstep Database_metadata_Ok.
    rewrite Hicons, map_to_list_empty. done. }
  rewrite (bind_Ok _ _ _ _ _ Hgroup), (bind_Ok _ _ _ _ _ Hdeletions).
  by rewrite (bind_Ok _ _ _ _ _ Hmetadata).
Qed.

Lemma merge_empty_source_witness :
  merge 5 twoDatabasesMerger emptySourceHeap = Ok (false, emptySourceHeap).
Proof.
  exact (merge_empty_source 4 twoDatabasesMerger emptySourceHeap 1 2 10
           (mkDatabase 10 [] (mkMetadata "source" 10 ∅) false)
           (mkDatabase 20 [] (mkMetadata "target" 10 ∅) false)
           (plainGroup 100 "root" 0 None (Some 1%positive) [] [])
           eq_refl eq_refl eq_refl eq_refl eq_refl eq_refl eq_refl eq_refl
           eq_refl eq_refl eq_refl).
Defined.

(** ** Entry conflicts under [KeepBoth] *)

Lemma Entry_clone_backup_Ok (h : Heap) (e : Ptr) (E : Entry) :
  h_entries h !! e = Some E →
  Entry_clone e (Z.lor CloneNewUuid CloneIncludeHistory) h
  = Ok (h_next h,
        mkHeap (<[h_next h := backupEntry E (h_uuidSeed h) None]> (h_entries h))
               (h_groups h) (h_dbs h) (Pos.succ (h_next h)) (h_now h)
               (N.succ (h_uuidSeed h))).
Proof.
  intros HE. unfold Entry_clone. mstep getEntry_Ok.
  change (testFlag (Z.lor CloneNewUuid CloneIncludeHistory) CloneNewUuid) with true.
  change (testFlag (Z.lor CloneNewUuid CloneIncludeHistory) CloneIncludeHistory)
    with true.
  cbv beta iota.
  unfold Uuid_random at 1. unfold mbind at 1, M_bind at 1.
  unfold alloc at 1. unfold mbind at 1, M_bind at 1. done.
Qed.

Lemma Entry_touch_Ok (h : Heap) (p : Ptr) (E : Entry) :
  h_entries h !! p = Some E →
  Entry_touch p h
  = Ok (tt, Heap_withEntries (<[p := Entry_emitModified (h_now h) E]> (h_entries h)) h).
Proof.
  intros HE. unfold Entry_touch, Clock_currentDateTimeUtc.
  unfold mbind at 1, M_bind at 1. by rewrite (modifyEntry_Ok _ _ _ _ HE).
Qed.

Lemma markOlderEntry_Ok (h : Heap) (e g d : Ptr) (E : Entry) (G : Group) (D : Database) :
  h_entries h !! e = Some E → e_group E = Some g →
  h_groups h !! g = Some G → g_db G = Some d → h_dbs h !! d = Some D →
  markOlderEntry e h
  = Ok (true, Heap_withEntries (<[e := markedEntry (h_now h) D E]> (h_entries h)) h).
Proof.
  intros HE Hg HG Hd HD. unfold markOlderEntry.
  mstep getEntry_Ok. rewrite Hg. rewrite (bind_Ok _ _ _ _ _ (deref_Some _ _)).
  mstep Group_database_Ok. rewrite Hd. rewrite (bind_Ok _ _ _ _ _ (deref_Some _ _)).
  mstep Database_metadata_Ok.
  erewrite bind_Ok; cycle 1.
  { unfold Entry_setAttribute. hstep modifyEntry_Ok.
    erewrite Entry_touch_Ok by apply lookup_insert_eq. hsimpl.
    by rewrite insert_insert_eq. }
  done.
Qed.

Lemma markedEntry_title (now : QDateTime) (D : Database) (E : Entry) :
  Entry_title (markedEntry now D E) = Entry_title E
  ∧ e_uuid (markedEntry now D E) = e_uuid E.
Proof.
  unfold markedEntry, Entry_emitModified, Entry_updateTimeinfo, Entry_title.
  destruct E as [? ? ? ? ? upd blk]. destruct upd, blk; simpl;
    by rewrite lookup_insert_ne.
Qed.

(** X13: [resolveEntryConflict] under the effective mode [KeepBoth].  When the
    two entries were last modified in different seconds, a deep clone of the
    source entry, history included, is attached under a new UUID at the end
    of the current target group, and the target entry stays where it is.
    When the target is the newer one, the clone is marked with the attribute
    "merged"; when the source is the newer one, the target entry is marked.
    Marking is a mutation of the marked entry.  When the seconds are equal
    nothing changes. *)
Theorem resolveEntryConflict_KeepBoth
    (fuel : nat) (mode : option MergeMode) (context : MergeContext) (h : Heap)
    (sourceEntry targetEntry targetGroup d g d' : Ptr) (SE TE : Entry)
    (TG G : Group) (D D' : Database) :
  h_entries h !! sourceEntry = Some SE →
  h_entries h !! targetEntry = Some TE →
  effectiveMergeMode fuel mode context h = Ok (KeepBoth, h) →
  m_targetGroup context = Some targetGroup →
  h_groups h !! targetGroup = Some TG →
  g_db TG = Some d →
  h_dbs h !! d = Some D →
  e_group TE = Some g →
  h_groups h !! g = Some G →
  g_db G = Some d' →
  h_dbs h !! d' = Some D' →
  h_entries h !! h_next h = None →
  resolveEntryConflict fuel mode context sourceEntry targetEntry h
  = if Clock_serialized (m_lastModificationTime (e_timeInfo TE))
       >? Clock_serialized (m_lastModificationTime (e_timeInfo SE))
    then
      Ok ([AddingBackupForOlderSource (Entry_title SE) (e_uuid SE)],
          mkHeap (<[h_next h := markedEntry (h_now h) D
                                  (backupEntry SE (h_uuidSeed h) (Some targetGroup))]>
                    (h_entries h))
                 (<[targetGroup := Group_withEntries (g_entries TG ++ [h_next h]) TG]>
                    (h_groups h))
                 (h_dbs h) (Pos.succ (h_next h)) (h_now h) (N.succ (h_uuidSeed h)))
    else if Clock_serialized (m_lastModificationTime (e_timeInfo TE))
            <? Clock_serialized (m_lastModificationTime (e_timeInfo SE))
    then
      Ok ([AddingBackupForOlderTarget (Entry_title TE) (e_uuid TE)],
          mkHeap (<[targetEntry := markedEntry (h_now h) D' TE]>
                    (<[h_next h := backupEntry SE (h_uuidSeed h) (Some targetGroup)]>
                       (h_entries h)))
                 (<[targetGroup := Group_withEntries (g_entries TG ++ [h_next h]) TG]>
                    (h_groups h))
                 (h_dbs h) (Pos.succ (h_next h)) (h_now h) (N.succ (h_uuidSeed h)))
    else Ok ([], h).
Proof.
  intros HSE HTE Hmode Htg HTG Hd HD Hg HG Hd' HD' Hfresh.
  assert (h_next h ≠ targetEntry) as Hne by (intros Heq; congruence).
  unfold resolveEntryConflict.
  mstep getEntry_Ok. mstep getEntry_Ok.
  rewrite (bind_Ok _ _ _ _ _ Hmode).
  unfold lastModificationTime, atPrecision. rewrite Htg.
  destruct (_ >? _).
  - mstep Entry_clone_backup_Ok.
    erewrite bind_Ok; [|by eapply moveEntry_attach_Ok; lookup_solve].
    erewrite bind_Ok; cycle 1.
    { eapply (markOlderEntry_Ok _ (h_next h) targetGroup d _ _ D);
        [apply lookup_insert_eq|done|apply lookup_insert_eq|by destruct TG|done]. }
    rewrite mret_Ok. hsimpl. by rewrite !insert_insert_eq.
  - destruct (_ <? _); [|done].
    mstep Entry_clone_backup_Ok.
    erewrite bind_Ok; [|by eapply moveEntry_attach_Ok; lookup_solve].
    erewrite bind_Ok; cycle 1.
    { eapply (markOlderEntry_Ok _ targetEntry g d' TE
                (if decide (g = targetGroup)
                 then Group_withEntries (g_entries TG ++ [h_next h]) TG else G) D').
      - hsimpl. by rewrite !lookup_insert_ne.
      - done.
      - hsimpl. case_decide as Hgt.
        + subst g. apply lookup_insert_eq.
        + by rewrite lookup_insert_ne.
      - case_decide as Hgt; [|done]. subst g.
        assert (G = TG) as -> by congruence. by destruct TG.
      - done. }
    hsimpl. mstep getEntry_Ok. rewrite mret_Ok.
    destruct (markedEntry_title (h_now h) D' TE) as [-> ->].
    by rewrite !insert_insert_eq.
Qed.

Lemma resolveEntryConflict_KeepBoth_witness :
  resolveEntryConflict 5 (Some KeepBoth) (m_context twoDatabasesMerger) 30 40
                       newerSourceHeap
  = Ok ([AddingBackupForOlderTarget "e" 7],
        mkHeap (<[40%positive :=
                    markedEntry 99000
                      (mkDatabase 20 [] (mkMetadata "target" 10 ∅) false)
                      (plainEntry 7 "e" 1000 0 21)]>
                  (<[1000%positive :=
                       backupEntry newerSourceEntry 5000 (Some 20%positive)]>
                     (h_entries newerSourceHeap)))
               (<[20%positive := plainGroup 200 "root" 0 None (Some 2%positive)
                                   [1000%positive] [21%positive]]>
                  (h_groups newerSourceHeap))
               (h_dbs newerSourceHeap) 1001 99000 5001).
Proof.
  exact (resolveEntryConflict_KeepBoth 5 (Some KeepBoth)
           (m_context twoDatabasesMerger) newerSourceHeap 30 40 20 2 21 2
           newerSourceEntry (plainEntry 7 "e" 1000 0 21)
           (plainGroup 200 "root" 0 None (Some 2%positive) [] [21%positive])
           (plainGroup 101 "a" 0 (Some 20%positive) (Some 2%positive) [40%positive] [])
           (mkDatabase 20 [] (mkMetadata "target" 10 ∅) false)
           (mkDatabase 20 [] (mkMetadata "target" 10 ∅) false)
           eq_refl eq_refl eq_refl eq_refl eq_refl eq_refl eq_refl eq_refl eq_refl
           eq_refl eq_refl eq_refl).
Defined.

(** ** Relocation of a group by [mergeGroup] *)

(** X6: [mergeGroup], for a source child group whose counterpart in the target
    changed its location strictly before the source group did and has
    another parent than the current target group: the counterpart is moved
    to the end of the current target group and takes the location change of
    the source group; the rest of its [TimeInfo] does not change.  (The
    counterpart is not older than the source group here, so that no
    conflict follows.) *)
Theorem mergeGroup_child_relocates
    (fuel : nat) (context : MergeContext) (h : Heap)
    (sourceChildGroup root group old targetGroup : Ptr) (SG G Old TG : Group) :
  h_groups h !! sourceChildGroup = Some SG →
  m_targetRootGroup context = Some root →
  findGroupByUuid fuel h root (g_uuid SG) = Ok (Some group) →
  h_groups h !! group = Some G →
  g_parent G = Some old →
  m_targetGroup context = Some targetGroup →
  h_groups h !! old = Some Old →
  h_groups h !! targetGroup = Some TG →
  old ≠ targetGroup → group ≠ old → group ≠ targetGroup →
  sourceChildGroup ≠ group → sourceChildGroup ≠ old →
  sourceChildGroup ≠ targetGroup →
  m_locationChanged (g_timeInfo G) < m_locationChanged (g_timeInfo SG) →
  m_lastModificationTime (g_timeInfo SG) ≤ m_lastModificationTime (g_timeInfo G) →
  mergeGroup_child fuel context sourceChildGroup h
  = Ok (([Relocating (g_name SG) (g_uuid SG)], group),
        Heap_withGroups
          (<[group := Group_withTimeInfo
                        (setLocationChanged (m_locationChanged (g_timeInfo SG))
                                            (g_timeInfo G))
                        (Group_withParent (Some targetGroup) (g_db TG) G)]>
             (<[targetGroup := Group_withChildren (g_children TG ++ [group]) TG]>
                (<[old := Group_withChildren
                            (filter (λ x, x ≠ group) (g_children Old)) Old]>
                   (h_groups h))))
          h).
Proof.
  intros HSG Hroot Hfind HG Hg Htg HOld HTG Hot Hgo Hgt Hsg Hso Hst Hloc Hmod.
  unfold mergeGroup_child.
  mstep getGroup_Ok. rewrite Hroot, Htg.
  rewrite (bind_Ok _ _ _ _ _ (deref_Some _ _)).
  rewrite (bind_Ok _ _ _ _ _ (readHeap_Ok _ _ _ Hfind)).
  mstep getGroup_Ok.
  unfold locationChanged, atPrecision.
  rewrite (proj2 (Z.ltb_lt _ _) Hloc), Hg.
  rewrite bool_decide_true by congruence. cbn [andb].
  erewrite bind_Ok; cycle 1.
  { erewrite bind_Ok; [|by eapply moveGroup_between_Ok].
    hsimpl. mstep getGroup_Ok.
    unfold Group_setTimeInfo. hstep modifyGroup_Ok. apply mret_Ok. }
  erewrite bind_Ok; cycle 1.
  { unfold resolveGroupConflict. mstep getGroup_Ok.
    erewrite bind_Ok; cycle 1.
    { apply getGroup_Ok. hsimpl. by rewrite !lookup_insert_ne. }
    unfold lastModificationTime, atPrecision.
    cbn [g_timeInfo Group_withTimeInfo Group_withParent m_lastModificationTime
         setLocationChanged].
    rewrite (proj2 (Z.ltb_ge _ _) Hmod). apply mret_Ok. }
  rewrite mret_Ok. cbn [g_timeInfo Group_withParent]. hsimpl.
  by rewrite insert_insert_eq.
Qed.

Lemma mergeGroup_child_relocates_witness :
  mergeGroup_child 5 movedGroupContext 11 movedGroupHeap
  = Ok (([Relocating "a" 101], 21%positive),
        Heap_withGroups
          (<[21%positive := placedGroup 101 "a" 0 20000 (Some 22%positive)
                              (Some 2%positive) [] []]>
             (<[22%positive := plainGroup 102 "b" 0 (Some 20%positive)
                                 (Some 2%positive) [] [21%positive]]>
                (<[20%positive := plainGroup 200 "root" 0 None (Some 2%positive) []
                                    [22%positive]]>
                   (h_groups movedGroupHeap))))
          movedGroupHeap).
Proof.
  exact (mergeGroup_child_relocates 5 movedGroupContext movedGroupHeap
           11 20 21 20 22
           (placedGroup 101 "a" 0 20000 (Some 12%positive) (Some 1%positive) [] [])
           (placedGroup 101 "a" 0 10000 (Some 20%positive) (Some 2%positive) [] [])
           (plainGroup 200 "root" 0 None (Some 2%positive) []
                       [21%positive; 22%positive])
           (plainGroup 102 "b" 0 (Some 20%positive) (Some 2%positive) [] [])
           eq_refl eq_refl eq_refl eq_refl eq_refl eq_refl eq_refl eq_refl
           ltac:(discriminate) ltac:(discriminate) ltac:(discriminate)
           ltac:(discriminate) ltac:(discriminate) ltac:(discriminate)
           ltac:(simpl; lia) ltac:(simpl; lia)).
Defined.
(** ** Relocation of an entry by [mergeGroup] *)

(** The effective merge mode reads the merge modes and the parents of the
    groups and nothing else. *)
Lemma Group_mergeMode_ext (fuel : nat) (h h' : Heap) :
  (∀ p, (λ G, (g_mergeMode G, g_parent G)) <$> h_groups h' !! p
        = (λ G, (g_mergeMode G, g_parent G)) <$> h_groups h !! p) →
  ∀ g, Group_mergeMode fuel h' g = Group_mergeMode fuel h g.
Proof.
  intros Hsame. induction fuel as [|n IH]; intros g; [done|].
  simpl. unfold lookupGroup. specialize (Hsame g).
  destruct (h_groups h' !! g) as [G'|], (h_groups h !! g) as [G|];
    simplify_eq/=; [|done].
  rewrite H, H0. destruct (g_mergeMode G); try done.
  destruct (g_parent G); [apply IH|done].
Qed.

Lemma effectiveMergeMode_ext (fuel : nat) (mode : option MergeMode)
    (context : MergeContext) (h h' : Heap) (m : MergeMode) :
  (∀ p, (λ G, (g_mergeMode G, g_parent G)) <$> h_groups h' !! p
        = (λ G, (g_mergeMode G, g_parent G)) <$> h_groups h !! p) →
  effectiveMergeMode fuel mode context h = Ok (m, h) →
  effectiveMergeMode fuel mode context h' = Ok (m, h').
Proof.
  intros Hsame. destruct mode as [m'|]; simpl; [by intros [= ->]|].
  destruct (m_targetGroup context) as [g|]; [|done].
  rewrite !(bind_Ok _ _ _ _ _ (deref_Some _ _)). unfold readHeap.
  rewrite (Group_mergeMode_ext fuel h h' Hsame).
  destruct (Group_mergeMode fuel h g); [|done..]. by intros [= ->].
Qed.

(** X4: [mergeGroup], for a source entry whose counterpart in the target changed
    its location strictly before the source entry did and lies in another
    group than the current target group: the counterpart is moved to the end
    of the current target group and keeps its whole [TimeInfo], its location
    change included, which does not become that of the source entry.  The
    effective mode, forced or that of the current target group, and the
    modification times are such that no conflict follows. *)
Theorem mergeGroup_entry_relocates
    (fuel : nat) (mode : option MergeMode) (context : MergeContext) (h : Heap)
    (sourceEntry root entry old targetGroup : Ptr) (SE TE : Entry)
    (Old TG : Group) (mergeMode : MergeMode) :
  h_entries h !! sourceEntry = Some SE →
  m_targetRootGroup context = Some root →
  findEntryByUuid fuel h root (e_uuid SE) = Ok (Some entry) →
  h_entries h !! entry = Some TE →
  e_group TE = Some old →
  m_targetGroup context = Some targetGroup →
  h_groups h !! old = Some Old →
  h_groups h !! targetGroup = Some TG →
  old ≠ targetGroup →
  sourceEntry ≠ entry →
  m_locationChanged (e_timeInfo TE) < m_locationChanged (e_timeInfo SE) →
  effectiveMergeMode fuel mode context h = Ok (mergeMode, h) →
  match mergeMode with
  | KeepExisting => True
  | KeepBoth =>
      Clock_serialized (m_lastModificationTime (e_timeInfo TE))
      = Clock_serialized (m_lastModificationTime (e_timeInfo SE))
  | KeepNewer =>
      Clock_serialized (m_lastModificationTime (e_timeInfo SE))
      ≤ Clock_serialized (m_lastModificationTime (e_timeInfo TE))
  | _ => False
  end →
  mergeGroup_entry fuel mode context sourceEntry h
  = Ok ([Relocating (Entry_title SE) (e_uuid SE)],
        mkHeap (<[entry := Entry_withGroup (Some targetGroup) TE]> (h_entries h))
               (<[targetGroup := Group_withEntries (g_entries TG ++ [entry]) TG]>
                  (<[old := Group_withEntries
                              (filter (λ x, x ≠ entry) (g_entries Old)) Old]>
                     (h_groups h)))
               (h_dbs h) (h_next h) (h_now h) (h_uuidSeed h)).
Proof.
  intros HSE Hroot Hfind HTE Hg Htg HOld HTG Hot Hse Hloc Hmode Hcond.
  unfold mergeGroup_entry.
  mstep getEntry_Ok. rewrite Hroot, Htg.
  rewrite (bind_Ok _ _ _ _ _ (deref_Some _ _)).
  rewrite (bind_Ok _ _ _ _ _ (readHeap_Ok _ _ _ Hfind)).
  mstep getEntry_Ok.
  unfold locationChanged, atPrecision.
  rewrite (proj2 (Z.ltb_lt _ _) Hloc), Hg.
  rewrite bool_decide_true by congruence. cbn [andb].
  erewrite bind_Ok; cycle 1.
  { erewrite bind_Ok; [|by eapply moveEntry_between_Ok]. apply mret_Ok. }
  erewrite bind_Ok; cycle 1.
  { unfold resolveEntryConflict. mstep getEntry_Ok.
    erewrite bind_Ok; cycle 1.
    { apply getEntry_Ok. hsimpl. by rewrite lookup_insert_ne. }
    erewrite bind_Ok; cycle 1.
    { apply (effectiveMergeMode_ext fuel mode context h); [|exact Hmode].
      intros p. hsimpl.
      destruct (decide (p = targetGroup)) as [->|Hpt].
      { by rewrite lookup_insert_eq, HTG. }
      rewrite lookup_insert_ne by done.
      destruct (decide (p = old)) as [->|Hpo].
      { by rewrite lookup_insert_eq, HOld. }
      by rewrite lookup_insert_ne. }
    unfold lastModificationTime, atPrecision.
    cbn [e_timeInfo Entry_withGroup].
    destruct mergeMode; try done.
    - rewrite Hcond, Z.gtb_ltb, Z.ltb_irrefl. apply mret_Ok.
    - destruct (Z.ltb_spec
                  (Clock_serialized (m_lastModificationTime (e_timeInfo TE)))
                  (Clock_serialized (m_lastModificationTime (e_timeInfo SE))));
        [lia|apply mret_Ok]. }
  by rewrite mret_Ok.
Qed.

Lemma mergeGroup_entry_relocates_witness :
  mergeGroup_entry 5 None movedEntryContext 30 movedEntryHeap
  = Ok ([Relocating "e" 7],
        mkHeap (<[40%positive := plainEntry 7 "e" 1000 10000 22]>
                  (h_entries movedEntryHeap))
               (<[22%positive := plainGroup 102 "b" 0 (Some 20%positive)
                                   (Some 2%positive) [40%positive] []]>
                  (<[21%positive := plainGroup 101 "a" 0 (Some 20%positive)
                                      (Some 2%positive) [] []]>
                     (h_groups movedEntryHeap)))
               (h_dbs movedEntryHeap) 1000 99000 5000).
Proof.
  exact (mergeGroup_entry_relocates 5 None movedEntryContext movedEntryHeap
           30 20 40 21 22
           (plainEntry 7 "e" 1000 20000 12) (plainEntry 7 "e" 1000 10000 21)
           (plainGroup 101 "a" 0 (Some 20%positive) (Some 2%positive)
                       [40%positive] [])
           (plainGroup 102 "b" 0 (Some 20%positive) (Some 2%positive) [] [])
           KeepNewer
           eq_refl eq_refl eq_refl eq_refl eq_refl eq_refl eq_refl eq_refl
           ltac:(discriminate) ltac:(discriminate) ltac:(simpl; lia)
           eq_refl ltac:(simpl; lia)).
Defined.
